(** * rag-chatbot-backend: the retrieval-and-fusion core, embedded in Rocq

    The development follows the Python sources:
    - [app/services/pdf_processor.py]  (modules [Chunker] and [Ingestion]),
    - [app/services/web_search.py]     (module [WebSearch]),
    - [app/core/llm_client.py]         (module [LLM]),
    - [app/core/rag_pipeline.py]       (module [Pipeline]),
    - [app/core/embeddings.py] and [app/services/vector_store.py]
                                       (module [VectorStore]),
    - [app/api/routes/health.py]       (module [Health]),
    - [app/api/routes/knowledge.py] and [app/api/routes/chat.py]
                                       (module [Routes]).

    Python values are rendered as follows: [int] is [Z]; [float] is the
    kernel's binary64 [float] (the IEEE 754 format CPython uses); [str] is a
    list of code points; a [dict] read with [.get(key, default)] is a record
    of optional fields or a [gmap] keyed by the literal key strings. *)

Set Warnings "-inexact-float".

From Stdlib Require Import ZArith List Bool Lia String Ascii DecimalString Floats.
From Stdlib Require DecimalPos DecimalZ.
From stdpp Require Import base tactics option list relations gmap strings.

Local Open Scope Z_scope.

(** ** Python strings *)

Module PyStr.

(** A [str] is a sequence of Unicode code points. *)
Definition char : Type := N.
Definition pystr : Type := list char.

Definition of_ascii (a : ascii) : char := N_of_ascii a.

Fixpoint of_string (s : string) : pystr :=
  match s with
  | EmptyString => []
  | String a s' => of_ascii a :: of_string s'
  end.

Definition py_len {A} (s : list A) : Z := Z.of_nat (length s).

(** [PySlice_AdjustIndices] for a step of 1: a negative index counts from the
    end, and every index is then clipped to [0, len]. *)
Definition slice_index (len i : Z) : Z :=
  if i <? 0 then Z.max 0 (i + len) else Z.min i len.

(** [s[start:stop]] *)
Definition py_slice {A} (s : list A) (start stop : Z) : list A :=
  let a := slice_index (py_len s) start in
  let b := slice_index (py_len s) stop in
  take (Z.to_nat (b - a)) (drop (Z.to_nat a) s).

(** [s.rfind(c)] for a one-character needle: the highest index holding [c],
    or [-1]. *)
Fixpoint py_rfind (s : pystr) (c : char) : Z :=
  match s with
  | [] => -1
  | x :: s' =>
      let r := py_rfind s' c in
      if 0 <=? r then r + 1 else if N.eqb x c then 0 else -1
  end.

(** [Py_UNICODE_ISSPACE]: the code points [str.strip()] removes. *)
Definition py_isspace (c : char) : bool :=
  ((9 <=? c) && (c <=? 13) || (28 <=? c) && (c <=? 32)
   || (c =? 133) || (c =? 160) || (c =? 5760)
   || (8192 <=? c) && (c <=? 8202)
   || (c =? 8232) || (c =? 8233) || (c =? 8239) || (c =? 8287)
   || (c =? 12288))%N.

Fixpoint py_lstrip (s : pystr) : pystr :=
  match s with
  | [] => []
  | c :: s' => if py_isspace c then py_lstrip s' else s
  end.

Definition py_rstrip (s : pystr) : pystr := rev (py_lstrip (rev s)).

(** [s.strip()] *)
Definition py_strip (s : pystr) : pystr := py_rstrip (py_lstrip s).

(** [sep.join(parts)] *)
Fixpoint py_join (sep : pystr) (parts : list pystr) : pystr :=
  match parts with
  | [] => []
  | [p] => p
  | p :: rest => p ++ sep ++ py_join sep rest
  end.

(** [str(n)] for an [int]. *)
Definition py_str_of_int (z : Z) : pystr :=
  of_string (DecimalString.NilZero.string_of_int (Z.to_int z)).

Definition dot : char := 46%N.
Definition newline : char := 10%N.

(** The characters [chunk_text] accepts as a sentence boundary. *)
Definition is_boundary (c : char) : Prop := c = dot \/ c = newline.

(** [i] is the index of the last boundary character of [w]. *)
Definition last_boundary (w : pystr) (i : Z) : Prop :=
  exists n : nat,
    i = Z.of_nat n /\
    (exists c, w !! n = Some c /\ is_boundary c) /\
    (forall m c, (n < m)%nat -> w !! m = Some c -> ~ is_boundary c).

(** [w] holds no boundary character. *)
Definition no_boundary (w : pystr) : Prop :=
  forall c, c ∈ w -> ~ is_boundary c.

End PyStr.

Export PyStr.

(** ** Values stored in metadata dictionaries *)

(** The chunk metadata of this repository holds strings (file name, path)
    and integers (page and character counts, chunk number, offsets). *)
Inductive pyval : Type :=
  | VStr (s : pystr)
  | VInt (z : Z).

(** [str(v)], as an f-string renders a value. *)
Definition py_str (v : pyval) : pystr :=
  match v with
  | VStr s => s
  | VInt z => py_str_of_int z
  end.

(** [Dict[str, any]] with literal keys. *)
Abbreviation pydict := (gmap string pyval).

(** [d.get(key, default)] *)
Definition dict_get (d : pydict) (key : string) (default : pyval) : pyval :=
  match d !! key with
  | Some v => v
  | None => default
  end.

(** ** [app/services/pdf_processor.py] *)

Module Chunker.

(** [@dataclass class DocumentChunk] *)
Record DocumentChunk : Type := mkDocumentChunk {
  content : pystr;
  metadata : pydict;
  chunk_id : pystr
}.

(** The two settings [PDFProcessor.__init__] reads. *)
Record Settings : Type := mkSettings {
  chunk_size : Z;
  chunk_overlap : Z
}.

(** The defaults of [app/config.py]. *)
Definition default_settings : Settings :=
  {| chunk_size := 1000; chunk_overlap := 200 |}.

(** The configuration contract the specification states: both settings are
    positive and the overlap is smaller than the chunk size. *)
Definition well_formed (self : Settings) : Prop :=
  0 < chunk_overlap self < chunk_size self.

(** The overlap does not exceed what the 50% guard of the boundary trim
    leaves of a chunk: a trimmed chunk keeps more than [chunk_size / 2 + 1]
    characters. *)
Definition overlap_within_half (self : Settings) : Prop :=
  chunk_overlap self <= chunk_size self / 2 + 1.

(** The variables of the [while] loop of [chunk_text]. *)
Record loop_state : Type := mkState {
  chunks : list DocumentChunk;
  start : Z;
  chunk_num : Z
}.

Section ChunkText.

Variable self : Settings.
Variable text : pystr.
Variable md : pydict.

Definition text_length : Z := py_len text.

(** [max(last_period, last_newline)] over the raw window. *)
Definition break_point (window : pystr) : Z :=
  Z.max (py_rfind window dot) (py_rfind window newline).

(** [break_point > self.chunk_size * 0.5]: Python compares an [int] with a
    [float] exactly, and [chunk_size * 0.5] is exact for every chunk size
    below 2^53, so the test is [chunk_size < 2 * break_point]. *)
Definition past_half (bp : Z) : bool := chunk_size self <? 2 * bp.

(** Lines 93-105: the text of the chunk and the cut position [end]. *)
Definition cut (st : Z) : pystr * Z :=
  let end_ := st + chunk_size self in
  let chunk_text := py_slice text st end_ in
  if end_ <? text_length then
    let bp := break_point chunk_text in
    if past_half bp then (py_slice chunk_text 0 (bp + 1), st + bp + 1)
    else (chunk_text, end_)
  else (chunk_text, end_).

(** Lines 107-118: the [DocumentChunk] built from a cut. *)
Definition make_chunk (st num : Z) : DocumentChunk :=
  let '(chunk_text, end_) := cut st in
  {| content := py_strip chunk_text;
     metadata :=
       <["end_char" := VInt end_]>
         (<["start_char" := VInt st]>
            (<["chunk_number" := VInt num]> md));
     chunk_id :=
       py_str (dict_get md "filename" (VStr (of_string "unknown")))
         ++ of_string "_" ++ py_str_of_int num |}.

(** One iteration of the loop body (lines 93-122). *)
Definition body (s : loop_state) : loop_state :=
  {| chunks := chunks s ++ [make_chunk (start s) (chunk_num s)];
     start := snd (cut (start s)) - chunk_overlap self;
     chunk_num := chunk_num s + 1 |}.

(** [while start < text_length] *)
Definition guard (s : loop_state) : bool := start s <? text_length.

Definition init : loop_state := {| chunks := []; start := 0; chunk_num := 0 |}.

(** The loop, run for at most [fuel] iterations: [None] when the fuel runs
    out before the guard fails. *)
Fixpoint loop (fuel : nat) (s : loop_state) : option (list DocumentChunk) :=
  if guard s then
    match fuel with
    | O => None
    | S fuel' => loop fuel' (body s)
    end
  else Some (chunks s).

Definition chunk_text_fuel (fuel : nat) : option (list DocumentChunk) :=
  loop fuel init.

(** [chunk_text(text, metadata)] returns [r]. *)
Definition chunk_text_returns (r : list DocumentChunk) : Prop :=
  exists fuel, chunk_text_fuel fuel = Some r.

(** [chunk_text(text, metadata)] never leaves its loop. *)
Definition chunk_text_diverges : Prop :=
  forall fuel, chunk_text_fuel fuel = None.

End ChunkText.

(** The offsets a chunk records in its metadata. *)
Definition start_char (c : DocumentChunk) : option pyval := metadata c !! "start_char".
Definition end_char (c : DocumentChunk) : option pyval := metadata c !! "end_char".
Definition chunk_number (c : DocumentChunk) : option pyval := metadata c !! "chunk_number".

(** The character range [[start_char, end_char)] of a chunk. *)
Definition span (c : DocumentChunk) : option (Z * Z) :=
  match start_char c, end_char c with
  | Some (VInt s), Some (VInt e) => Some (s, e)
  | _, _ => None
  end.

End Chunker.

(** ** Python floats *)

Module PyFloat.

(** [min(a, b)] and [max(a, b)] of the builtins: the first argument is kept
    unless the second compares strictly below (above) it. *)
Definition py_min (a b : float) : float := if (b <? a)%float then b else a.
Definition py_max (a b : float) : float := if (a <? b)%float then b else a.

(** [a / b] rounded to the nearest integer, ties to even ([0 <= a], [0 < b]). *)
Definition rne_div (a b : Z) : Z :=
  let q := a / b in
  let r := a mod b in
  match 2 * r ?= b with
  | Lt => q
  | Gt => q + 1
  | Eq => if Z.even q then q else q + 1
  end.

(** [n * 2^e] rounded to an integer, ties to even ([0 <= n]). *)
Definition rne_scale (n e : Z) : Z :=
  match e with
  | Zneg p => rne_div n (Z.pow_pos 2 p)
  | _ => n * 2 ^ e
  end.

(** [round(x, 2)]: CPython prints the exact value of [x] with two decimals,
    rounding half to even ([_Py_dg_dtoa], mode 3), and reads the digits back
    with a correctly rounded [strtod]; zeros, infinities and nan are returned
    as they are. The quotient [n / 100] is rounded once, by [SFdiv]. *)
Definition py_round2 (x : float) : float :=
  match Prim2SF x with
  | S754_finite s m e =>
      match rne_scale (100 * Zpos m) e with
      | Zpos p =>
          SF2Prim (SFdiv prec emax (S754_finite s p 0) (S754_finite false 100 0))
      | _ => if s then neg_zero else zero
      end
  | _ => x
  end.

End PyFloat.

Export PyFloat.

(** ** Collaborators and their results *)

(** An exception, by its message. *)
Definition exn : Type := pystr.

Inductive outcome (A : Type) : Type :=
  | Ok (a : A)
  | Raise (e : exn).
Arguments Ok {A} a.
Arguments Raise {A} e.

(** The dictionaries [VectorStore.search] returns; a field is [None] when
    the key is absent (the callers read them with [.get]). *)
Record KBResult : Type := mkKBResult {
  kb_content : option pystr;
  kb_metadata : option pydict;
  kb_distance : option float;
  kb_id : option pystr
}.

(** One entry of the [results] list of a Tavily response. *)
Record TavilyHit : Type := mkTavilyHit {
  hit_title : option pystr;
  hit_url : option pystr;
  hit_content : option pystr;
  hit_score : option float
}.

Record TavilyResponse : Type := mkTavilyResponse {
  results : option (list TavilyHit)
}.

(** A chat message: [{"role": ..., "content": ...}]. *)
Record Message : Type := mkMessage {
  role : pystr;
  message_content : pystr
}.

(** What the pipeline does to the outside world, in order. *)
Inductive Event : Type :=
  | VectorSearch (query : pystr) (k : Z)
  | TavilySearch (query : pystr) (max_results : Z)
  | ChatCreate (messages : list Message) (stream : bool)
  | Yield (fragment : pystr).

(** The external services: the vector store, the Tavily client and the chat
    completion endpoint. A streamed completion is the list of its deltas
    ([None] for a delta without content) and the exception that ends the
    stream early, if any. *)
Record World : Type := mkWorld {
  vector_store_search : pystr -> Z -> outcome (list KBResult);
  tavily_client_search : pystr -> Z -> outcome TavilyResponse;
  chat_create : list Message -> outcome pystr;
  chat_create_stream : list Message -> outcome (list (option pystr) * option exn);
  max_search_results : Z
}.

(** Computations that may raise and that log their events. *)
Definition M (A : Type) : Type := outcome A * list Event.

Definition ret {A} (a : A) : M A := (Ok a, []).
Definition raise {A} (e : exn) : M A := (Raise e, []).
Definition emit (ev : Event) : M unit := (Ok tt, [ev]).
Definition lift {A} (o : outcome A) : M A := (o, []).

Definition bind {A B} (m : M A) (f : A -> M B) : M B :=
  match m with
  | (Ok a, t) => let '(r, t') := f a in (r, t ++ t')
  | (Raise e, t) => (Raise e, t)
  end.

(** [try: m except Exception: handler] *)
Definition try_except {A} (m : M A) (handler : exn -> M A) : M A :=
  match m with
  | (Ok a, t) => (Ok a, t)
  | (Raise e, t) => let '(r, t') := handler e in (r, t ++ t')
  end.

#[global] Instance M_ret : MRet M := fun A a => ret a.
#[global] Instance M_bind : MBind M := fun A B f m => bind m f.

(** [for x in xs: body x] *)
Fixpoint for_each {A} (xs : list A) (body : A -> M unit) : M unit :=
  match xs with
  | [] => ret tt
  | x :: xs' => body x;; for_each xs' body
  end.

(** ** [app/services/web_search.py] *)

Module WebSearch.

(** [class SearchResult] *)
Record SearchResult : Type := mkSearchResult {
  title : pystr;
  url : pystr;
  content : pystr;
  score : float
}.

(** The dictionary [SearchResult.to_dict] builds, as its readers see it. *)
Record SourceDict : Type := mkSourceDict {
  sd_title : option pystr;
  sd_url : option pystr;
  sd_content : option pystr;
  sd_score : option float
}.

Definition to_dict (r : SearchResult) : SourceDict :=
  {| sd_title := Some (title r); sd_url := Some (url r);
     sd_content := Some (content r); sd_score := Some (score r) |}.

(** Lines 63-68 *)
Definition of_hit (h : TavilyHit) : SearchResult :=
  {| title := default (of_string "No title") (hit_title h);
     url := default [] (hit_url h);
     content := default [] (hit_content h);
     score := default 0%float (hit_score h) |}.

(** [search(query, max_results)]: every exception of the client call is
    caught and turned into the empty list. *)
Definition search (w : World) (query : pystr) (max_results : option Z)
  : M (list SearchResult) :=
  let max_results :=
    match max_results with
    | Some n => if n =? 0 then max_search_results w else n
    | None => max_search_results w
    end in
  try_except
    (emit (TavilySearch query max_results);;
     response ← lift (tavily_client_search w query max_results);
     mret (match results response with
           | Some hits => fold_left (fun acc h => acc ++ [of_hit h]) hits []
           | None => []
           end))
    (fun _ => mret []).

(** [should_use_search(knowledge_base_results, confidence_threshold)] *)
Definition should_use_search (knowledge_base_results : list KBResult)
    (confidence_threshold : float) : bool :=
  match knowledge_base_results with
  | [] => true
  | top :: _ =>
      let top_result_distance := default 1%float (kb_distance top) in
      let confidence := (1 - top_result_distance / 2)%float in
      (confidence <? confidence_threshold)%float
  end.

(** The three lines [format_search_results_for_context] appends for the
    [i]-th result. *)
Definition result_lines (i : Z) (r : SearchResult) : list pystr :=
  [ py_str_of_int i ++ of_string ". " ++ title r;
    of_string "   Source: " ++ url r;
    of_string "   " ++ content r ++ [newline] ].

Fixpoint enumerate_from {A} (i : Z) (xs : list A) : list (Z * A) :=
  match xs with
  | [] => []
  | x :: xs' => (i, x) :: enumerate_from (i + 1) xs'
  end.

(** [format_search_results_for_context(results)] *)
Definition format_search_results_for_context (rs : list SearchResult) : pystr :=
  match rs with
  | [] => []
  | _ =>
      py_join [newline]
        (fold_left (fun parts ir => parts ++ result_lines (fst ir) (snd ir))
           (enumerate_from 1 rs)
           [of_string "Web Search Results:" ++ [newline]])
  end.

End WebSearch.

(** ** [app/core/llm_client.py] *)

Module LLM.

(** [doc.get('metadata', {}).get(key, default)] *)
Definition metadata_get (doc : KBResult) (key : string) (default_value : pyval)
  : pyval :=
  dict_get (default ∅ (kb_metadata doc)) key default_value.

(** The three parts [create_prompt] appends for the [i]-th passage. *)
Definition passage_parts (i : Z) (doc : KBResult) : list pystr :=
  let source := metadata_get doc "filename" (VStr (of_string "Unknown")) in
  let page := metadata_get doc "page_number" (VStr (of_string "N/A")) in
  [ of_string "[Source " ++ py_str_of_int i ++ of_string ": " ++ py_str source
      ++ of_string ", Page " ++ py_str page ++ of_string "]";
    default [] (kb_content doc);
    [] ].

Definition system_message : pystr := of_string
"You are a helpful AI assistant for a product support chatbot. Your role is to answer user questions accurately using the provided context from product documentation and web search results.

Guidelines:
- Always prioritize information from the Internal Knowledge Base (product documentation)
- Use web search results to supplement or provide additional context when needed
- If the answer is not in the provided context, clearly state that you don't have that information
- Be concise but comprehensive in your answers
- If referencing specific sources, mention them
- Maintain a professional and friendly tone".

(** [create_prompt(query, knowledge_base_context, search_results_context)] *)
Definition create_prompt (query : pystr) (knowledge_base_context : list KBResult)
    (search_results_context : option pystr) : list Message :=
  let kb_context_parts :=
    match knowledge_base_context with
    | [] => []
    | _ =>
        fold_left (fun parts idoc => parts ++ passage_parts (fst idoc) (snd idoc))
          (WebSearch.enumerate_from 1 knowledge_base_context)
          [of_string "Internal Knowledge Base:" ++ [newline]]
    end in
  let kb_context :=
    match kb_context_parts with
    | [] => of_string "No relevant internal documentation found."
    | _ => py_join [newline] kb_context_parts
    end in
  let user_content_parts := [kb_context; []] in
  let user_content_parts :=
    match search_results_context with
    | Some (c :: ctx) => user_content_parts ++ [c :: ctx; []]
    | _ => user_content_parts
    end in
  let user_content_parts :=
    user_content_parts ++ [of_string "User Question: " ++ query] in
  let user_content_parts :=
    user_content_parts
      ++ [newline :: of_string "Please provide a helpful answer based on the context above:"] in
  [ {| role := of_string "system"; message_content := system_message |};
    {| role := of_string "user";
       message_content := py_join [newline] user_content_parts |} ].

(** [generate_response]: the exception handler logs and re-raises. *)
Definition generate_response (w : World) (query : pystr)
    (knowledge_base_context : list KBResult)
    (search_results_context : option pystr) : M pystr :=
  let messages := create_prompt query knowledge_base_context search_results_context in
  emit (ChatCreate messages false);;
  lift (chat_create w messages).

(** [generate_response_stream]: every delta with content is yielded; an
    exception of the stream is logged and re-raised after the fragments that
    came before it. *)
Definition generate_response_stream (w : World) (query : pystr)
    (knowledge_base_context : list KBResult)
    (search_results_context : option pystr) : M unit :=
  let messages := create_prompt query knowledge_base_context search_results_context in
  emit (ChatCreate messages true);;
  stream ← lift (chat_create_stream w messages);
  for_each (fst stream)
    (fun delta => match delta with
                  | Some fragment => emit (Yield fragment)
                  | None => mret tt
                  end);;
  match snd stream with
  | Some e => raise e
  | None => mret tt
  end.

End LLM.

(** ** [app/core/rag_pipeline.py] *)

Module Pipeline.

(** The dictionaries of [RAGResponse.sources], tagged by their ['type']. *)
Inductive Source : Type :=
  | knowledge_base (filename page_number chunk_number : pyval)
      (relevance_score : float)
  | web_search (title url : pystr) (relevance_score : float).

(** The ['type'] entry of a source dictionary. *)
Definition source_type (s : Source) : string :=
  match s with
  | knowledge_base _ _ _ _ => "knowledge_base"
  | web_search _ _ _ => "web_search"
  end.

(** [@dataclass class RAGResponse] *)
Record RAGResponse : Type := mkRAGResponse {
  answer : pystr;
  sources : list Source;
  confidence : float;
  used_web_search : bool
}.

(** [_calculate_confidence(kb_results)] *)
Definition _calculate_confidence (kb_results : list KBResult) : float :=
  match kb_results with
  | [] => 0%float
  | top :: _ =>
      let top_distance := default 2%float (kb_distance top) in
      let confidence := py_max 0 (py_min 1 (1 - top_distance / 2)) in
      py_round2 confidence
  end.

(** Lines 166-173: the source appended for one knowledge-base result. *)
Definition kb_source (result : KBResult) : Source :=
  knowledge_base
    (LLM.metadata_get result "filename" (VStr (of_string "Unknown")))
    (LLM.metadata_get result "page_number" (VStr (of_string "N/A")))
    (LLM.metadata_get result "chunk_number" (VStr (of_string "N/A")))
    (py_round2 (1 - default 1%float (kb_distance result) / 2)).

(** Lines 177-182: the source appended for one web-search result. *)
Definition web_source (search_source : WebSearch.SourceDict) : Source :=
  web_search
    (default (of_string "No title") (WebSearch.sd_title search_source))
    (default [] (WebSearch.sd_url search_source))
    (default 0%float (WebSearch.sd_score search_source)).

(** [_format_sources(kb_results, search_sources)]: two loops appending to
    one list. *)
Definition _format_sources (kb_results : list KBResult)
    (search_sources : list WebSearch.SourceDict) : list Source :=
  let sources := [] in
  let sources :=
    fold_left (fun sources result => sources ++ [kb_source result])
      (py_slice kb_results 0 3) sources in
  let sources :=
    fold_left (fun sources search_source => sources ++ [web_source search_source])
      (py_slice search_sources 0 3) sources in
  sources.

(** [query(user_query, use_search, num_results, search_confidence_threshold)] *)
Definition query (w : World) (user_query : pystr) (use_search : bool)
    (num_results : Z) (search_confidence_threshold : float) : M RAGResponse :=
  emit (VectorSearch user_query num_results);;
  kb_results ← lift (vector_store_search w user_query num_results);
  '(used_search, search_context, search_sources) ←
    (if use_search
        && WebSearch.should_use_search kb_results search_confidence_threshold
     then
       search_results ← WebSearch.search w user_query None;
       match search_results with
       | [] => mret (false, None, [])
       | _ =>
           mret (true,
                 Some (WebSearch.format_search_results_for_context search_results),
                 WebSearch.to_dict <$> search_results)
       end
     else mret (false, None, []));
  answer ← LLM.generate_response w user_query kb_results search_context;
  let confidence := _calculate_confidence kb_results in
  let sources := _format_sources kb_results search_sources in
  mret {| answer := answer; sources := sources; confidence := confidence;
          used_web_search := used_search |}.

(** [query_stream(...)], consumed to its end. *)
Definition query_stream (w : World) (user_query : pystr) (use_search : bool)
    (num_results : Z) (search_confidence_threshold : float) : M unit :=
  emit (VectorSearch user_query num_results);;
  kb_results ← lift (vector_store_search w user_query num_results);
  search_context ←
    (if use_search
        && WebSearch.should_use_search kb_results search_confidence_threshold
     then
       search_results ← WebSearch.search w user_query None;
       match search_results with
       | [] => mret None
       | _ => mret (Some (WebSearch.format_search_results_for_context search_results))
       end
     else mret None);
  LLM.generate_response_stream w user_query kb_results search_context.

(** The prompts handed to the generation service, in call order. *)
Definition generation_prompts (t : list Event) : list (list Message) :=
  omap (fun ev => match ev with
                  | ChatCreate messages _ => Some messages
                  | _ => None
                  end) t.

(** The calls made to the collaborators, without the delivery mode of the
    generation call and without the fragments handed to the caller. *)
Definition collaborator_calls (t : list Event) : list Event :=
  omap (fun ev => match ev with
                  | ChatCreate messages _ => Some (ChatCreate messages false)
                  | Yield _ => None
                  | _ => Some ev
                  end) t.

End Pipeline.

(** ** The Confidence Scorer in the specification's words *)

Module Spec.

(** [clamp(x, lo, hi) = max(lo, min(hi, x))] *)
Definition clamp (x lo hi : float) : float := py_max lo (py_min hi x).

(** [distanceToConfidence(distance) = clamp(1 - distance/2, 0, 1)] *)
Definition distanceToConfidence (distance : float) : float :=
  clamp (1 - distance / 2) 0 1.

End Spec.

(** ** [app/services/pdf_processor.py]: loading and batch processing *)

Module Ingestion.
Import Chunker.

(** A [pathlib.Path] as [load_pdf] uses it: its [name], its [str()], whether
    it [exists()], and what opening it and reading it with [pypdf] gives:
    the text [extract_text()] returns for each page, or the exception raised
    on the way. *)
Record PdfPath : Type := mkPdfPath {
  path_name : pystr;
  path_str : pystr;
  path_exists : bool;
  path_pages : outcome (list pystr)
}.

(** The dictionary [load_pdf] returns. *)
Record DocData : Type := mkDocData {
  full_text : pystr;
  page_texts : list (Z * pystr);
  doc_metadata : pydict
}.

(** A directory as [process_directory] uses it: what [exists()],
    [mkdir(parents=True, exist_ok=True)] and [glob("*.pdf")] give, each of
    them a value or the exception the file system raises ([OSError] for a
    path that cannot be read or created). *)
Record Directory : Type := mkDirectory {
  dir_exists : outcome bool;
  dir_mkdir : outcome unit;
  dir_glob : outcome (list pystr)
}.

Section Processor.

Variable self : Settings.

(** [Path(file_path)] *)
Variable Path : pystr -> PdfPath.

(** [load_pdf(file_path)]: the exception handler logs and re-raises. *)
Definition load_pdf (file_path : pystr) : outcome DocData :=
  let pdf_path := Path file_path in
  if negb (path_exists pdf_path) then
    Raise (of_string "PDF file not found: " ++ file_path)
  else
    match path_pages pdf_path with
    | Raise e => Raise e
    | Ok pages =>
        let '(full_text, page_texts) :=
          fold_left
            (fun '(full_text, page_texts) '(page_num, page_text) =>
               (full_text ++ [newline] ++ page_text ++ [newline],
                page_texts ++ [(page_num + 1, page_text)]))
            (WebSearch.enumerate_from 0 pages) ([], []) in
        let metadata : pydict :=
          <["total_chars" := VInt (py_len full_text)]>
            (<["num_pages" := VInt (py_len pages)]>
               (<["filepath" := VStr (path_str pdf_path)]>
                  (<["filename" := VStr (path_name pdf_path)]> ∅))) in
        Ok {| full_text := py_strip full_text;
              page_texts := page_texts;
              doc_metadata := metadata |}
    end.

(** [process_pdf(file_path)], its chunking loop run for at most [fuel]
    iterations: [None] when the fuel runs out. *)
Definition process_pdf (fuel : nat) (file_path : pystr)
  : option (outcome (list DocumentChunk)) :=
  match load_pdf file_path with
  | Raise e => Some (Raise e)
  | Ok doc_data =>
      match chunk_text_fuel self (full_text doc_data) (doc_metadata doc_data) fuel with
      | Some chunks => Some (Ok chunks)
      | None => None
      end
  end.

(** [process_directory(directory)]: a missing directory is created and
    yields no chunk; a file whose processing raises is logged and skipped.
    Only the loop body stands in a [try]: what [exists()], [mkdir] or [glob]
    raise leaves the function. *)
Definition process_directory (fuel : nat) (dir_path : Directory)
  : option (outcome (list DocumentChunk)) :=
  match dir_exists dir_path with
  | Raise e => Some (Raise e)
  | Ok false =>
      match dir_mkdir dir_path with
      | Raise e => Some (Raise e)
      | Ok _ => Some (Ok [])
      end
  | Ok true =>
      match dir_glob dir_path with
      | Raise e => Some (Raise e)
      | Ok pdf_files =>
          match
            fold_left
              (fun all_chunks pdf_file =>
                 match all_chunks with
                 | None => None
                 | Some all_chunks =>
                     match process_pdf fuel pdf_file with
                     | None => None
                     | Some (Ok chunks) => Some (all_chunks ++ chunks)
                     | Some (Raise _) => Some all_chunks
                     end
                 end)
              pdf_files (Some [])
          with
          | Some all_chunks => Some (Ok all_chunks)
          | None => None
          end
      end
  end.

End Processor.

End Ingestion.

(** ** [app/core/embeddings.py] and [app/services/vector_store.py] *)

Module VectorStore.

(** [EmbeddingService.generate_embedding(text)]: [dimension] is what
    [get_dimension()] returns and [encode] is the sentence-transformer
    model. *)
Definition generate_embedding (dimension : Z)
    (encode : pystr -> outcome (list float)) (text : pystr)
  : outcome (list float) :=
  if match text with [] => true | _ => false end
     || match py_strip text with [] => true | _ => false end
  then Ok (replicate (Z.to_nat dimension) 0%float)
  else encode text.

(** The dictionary [collection.query] returns: every entry is [None] or
    holds one row per query embedding. *)
Record QueryResult : Type := mkQueryResult {
  documents : option (list (list pystr));
  metadatas : option (list (list pydict));
  distances : option (list (list float));
  ids : option (list (list pystr))
}.

(** [IndexError] *)
Definition index_error : exn := of_string "list index out of range".

(** [column[0][i] if column else default] *)
Definition cell {A} (column : option (list (list A))) (i : nat)
    (default_value : option A) : outcome (option A) :=
  match column with
  | Some (row :: _) =>
      match row !! i with
      | Some x => Ok (Some x)
      | None => Raise index_error
      end
  | _ => Ok default_value
  end.

(** Lines 90-99 of [search]: the loop that formats the rows of the first
    query. *)
Definition format_results (results : QueryResult) : outcome (list KBResult) :=
  match documents results with
  | Some ((doc0 :: docs) :: _) =>
      fold_left
        (fun formatted_results idoc =>
           match formatted_results with
           | Raise e => Raise e
           | Ok formatted_results =>
               let i := fst idoc in
               match cell (metadatas results) i (Some ∅) with
               | Raise e => Raise e
               | Ok metadata =>
                   match cell (distances results) i (Some 0%float) with
                   | Raise e => Raise e
                   | Ok distance =>
                       match cell (ids results) i None with
                       | Raise e => Raise e
                       | Ok id =>
                           Ok (formatted_results
                                 ++ [ {| kb_content := Some (snd idoc);
                                         kb_metadata := metadata;
                                         kb_distance := distance;
                                         kb_id := id |} ])
                       end
                   end
               end
           end)
        (imap pair (doc0 :: docs)) (Ok [])
  | _ => Ok []
  end.

(** The Chroma collection: [count()] and [query(query_embeddings=[e],
    n_results=n)]. *)
Record Collection : Type := mkCollection {
  count : outcome Z;
  collection_query : list float -> Z -> outcome QueryResult
}.

(** [search(query, k)] *)
Definition search (dimension : Z) (encode : pystr -> outcome (list float))
    (collection : Collection) (query : pystr) (k : Z) : outcome (list KBResult) :=
  match generate_embedding dimension encode query with
  | Raise e => Raise e
  | Ok query_embedding =>
      match count collection with
      | Raise e => Raise e
      | Ok n =>
          match collection_query collection query_embedding (Z.min k n) with
          | Raise e => Raise e
          | Ok results => format_results results
          end
      end
  end.

End VectorStore.

(** ** [app/api/routes/health.py] *)

Module Health.

(** What the route reads of the pipeline: the outcome of
    [vector_store.get_stats()] and [llm_client.model]. *)
Record RAGPipeline : Type := mkRAGPipeline {
  get_stats : outcome pydict;
  llm_client_model : pystr
}.

(** [DetailedHealthResponse], without its timestamp. *)
Record DetailedHealthResponse : Type := mkDetailedHealthResponse {
  status : pystr;
  llm_status : pystr;
  vector_db_status : pystr;
  search_status : pystr;
  documents_indexed : pyval;
  embedding_model : pyval;
  llm_model : pystr
}.

(** [detailed_health_check()]; [pipeline] is [None] when the module failed
    to build it. *)
Definition detailed_health_check (pipeline : option RAGPipeline)
  : DetailedHealthResponse :=
  let llm_status := of_string "unknown" in
  let vector_db_status := of_string "unknown" in
  let search_status := of_string "unknown" in
  let documents_indexed := VInt 0 in
  let embedding_model := VStr (of_string "unknown") in
  let llm_model := of_string "unknown" in
  let '(llm_status, vector_db_status, search_status,
        documents_indexed, embedding_model, llm_model) :=
    match pipeline with
    | Some pipeline =>
        match get_stats pipeline with
        | Ok stats =>
            let vector_db_status := of_string "ok" in
            let documents_indexed := dict_get stats "total_chunks" (VInt 0) in
            let embedding_model :=
              dict_get stats "embedding_model" (VStr (of_string "unknown")) in
            let llm_status := of_string "ok" in
            let llm_model := llm_client_model pipeline in
            let search_status := of_string "ok" in
            (llm_status, vector_db_status, search_status,
             documents_indexed, embedding_model, llm_model)
        | Raise _ =>
            (llm_status, vector_db_status, search_status,
             documents_indexed, embedding_model, llm_model)
        end
    | None =>
        (llm_status, vector_db_status, search_status,
         documents_indexed, embedding_model, llm_model)
    end in
  let overall_status :=
    if forallb (fun s => bool_decide (s = of_string "ok"))
         [llm_status; vector_db_status; search_status]
    then of_string "healthy" else of_string "degraded" in
  {| status := overall_status;
     llm_status := llm_status;
     vector_db_status := vector_db_status;
     search_status := search_status;
     documents_indexed := documents_indexed;
     embedding_model := embedding_model;
     llm_model := llm_model |}.

End Health.

(** ** [app/api/routes/knowledge.py] and [app/api/routes/chat.py] *)

Module Routes.
Import Chunker.

(** The exceptions a route handler sees: FastAPI's [HTTPException] and every
    other exception, by its message. *)
Inductive pyexn : Type :=
  | HTTPException (status_code : Z) (detail : pystr)
  | Exception (message : exn).

Inductive result (A : Type) : Type :=
  | Return (a : A)
  | Throw (e : pyexn).
Arguments Return {A} a.
Arguments Throw {A} e.

(** What a handler does to the file system and to the vector store. *)
Inductive Action : Type :=
  | WriteFile (file_path : pystr)
  | ProcessPdf (file_path : pystr)
  | AddDocuments (chunks : list DocumentChunk)
  | GetStats
  | CollectionGet (filename : pystr)
  | CollectionDelete (ids : list pystr)
  | Unlink (file_path : pystr)
  | ClearCollection
  | ProcessDirectory.

(** [get_stats()], as the handlers index it. *)
Record Stats : Type := mkStats {
  total_chunks : Z;
  unique_files : Z
}.

(** The services behind the handlers, by their outcomes. *)
Record Services : Type := mkServices {
  (* [str(Path(settings.pdf_directory) / filename)] *)
  pdf_path : pystr -> pystr;
  path_exists : pystr -> bool;
  (* [mkdir], [open(file_path, 'wb')], [file.read()], [f.write(content)] *)
  write_file : pystr -> outcome unit;
  unlink : pystr -> outcome unit;
  process_pdf : pystr -> outcome (list DocumentChunk);
  process_directory : outcome (list DocumentChunk);
  add_documents : list DocumentChunk -> outcome unit;
  clear_collection : outcome unit;
  get_stats : outcome Stats;
  (* [collection.get(where={"filename": filename})['ids']] *)
  collection_get : pystr -> outcome (list pystr);
  collection_delete : list pystr -> outcome unit;
  (* [str(e)] of an [HTTPException] *)
  http_exception_str : Z -> pystr -> pystr
}.

Definition R (A : Type) : Type := result A * list Action.

#[global] Instance R_ret : MRet R := fun A a => (Return a, []).
#[global] Instance R_bind : MBind R := fun A B f m =>
  match m with
  | (Return a, t) => let '(r, t') := f a in (r, t ++ t')
  | (Throw e, t) => (Throw e, t)
  end.

Definition throw {A} (e : pyexn) : R A := (Throw e, []).

(** A call to a service, logged. *)
Definition call {A} (action : Action) (o : outcome A) : R A :=
  match o with
  | Ok a => (Return a, [action])
  | Raise e => (Throw (Exception e), [action])
  end.

Section Handlers.

Variable s : Services.

(** [str(e)] *)
Definition str (e : pyexn) : pystr :=
  match e with
  | HTTPException status_code detail => http_exception_str s status_code detail
  | Exception message => message
  end.

(** [try: body except Exception as e: raise HTTPException(500, prefix + str(e))] *)
Definition guarded {A} (prefix : pystr) (body : R A) : R A :=
  match body with
  | (Return a, t) => (Return a, t)
  | (Throw e, t) => (Throw (HTTPException 500 (prefix ++ str e)), t)
  end.

(** [s.endswith(suffix)] *)
Definition py_endswith (text suffix : pystr) : bool :=
  bool_decide (drop (length text - length suffix) text = suffix).

(** [UploadResponse] *)
Record UploadResponse : Type := mkUploadResponse {
  message : pystr;
  filename : pystr;
  chunks_created : Z;
  total_documents : Z
}.

(** [upload_pdf(file)], by the name of the uploaded file. *)
Definition upload_pdf (file_filename : pystr) : R UploadResponse :=
  guarded (of_string "Error uploading PDF: ")
    (if negb (py_endswith file_filename (of_string ".pdf")) then
       throw (HTTPException 400 (of_string "Only PDF files are supported"))
     else
       let file_path := pdf_path s file_filename in
       call (WriteFile file_path) (write_file s file_path);;
       chunks ← call (ProcessPdf file_path) (process_pdf s file_path);
       call (AddDocuments chunks) (add_documents s chunks);;
       stats ← call GetStats (get_stats s);
       mret {| message :=
                 of_string "Successfully uploaded and indexed " ++ file_filename;
               filename := file_filename;
               chunks_created := py_len chunks;
               total_documents := total_chunks stats |}).

(** [VectorStore.delete_by_filename(filename)]: the exception handler logs
    and re-raises. *)
Definition delete_by_filename (filename : pystr) : R unit :=
  ids ← call (CollectionGet filename) (collection_get s filename);
  match ids with
  | [] => mret tt
  | _ => call (CollectionDelete ids) (collection_delete s ids)
  end.

(** [delete_document(filename)]: the message of the returned dictionary. *)
Definition delete_document (filename : pystr) : R pystr :=
  guarded (of_string "Error deleting document: ")
    (delete_by_filename filename;;
     let pdf_path := pdf_path s filename in
     (if path_exists s pdf_path
      then call (Unlink pdf_path) (unlink s pdf_path)
      else mret tt);;
     mret (of_string "Successfully deleted " ++ filename)).

(** [reindex_all()]: the returned dictionary. *)
Definition reindex_all : R (pystr * Stats) :=
  guarded (of_string "Error during reindexing: ")
    (call ClearCollection (clear_collection s);;
     chunks ← call ProcessDirectory (process_directory s);
     match chunks with
     | [] => mret tt
     | _ => call (AddDocuments chunks) (add_documents s chunks)
     end;;
     stats ← call GetStats (get_stats s);
     mret (of_string "Reindexing completed successfully", stats)).

End Handlers.

(** [ChatRequest] *)
Record ChatRequest : Type := mkChatRequest {
  request_query : pystr;
  use_search : bool;
  num_results : Z
}.

(** [ChatResponse]; [S] is the pydantic model [Source]. *)
Record ChatResponse (S : Type) : Type := mkChatResponse {
  answer : pystr;
  sources : list S;
  confidence : float;
  used_web_search : bool
}.
Arguments mkChatResponse {S}.
Arguments answer {S}.
Arguments sources {S}.
Arguments confidence {S}.
Arguments used_web_search {S}.

(** The list comprehension that builds a [Source] model from every source
    dictionary of the response: the constructor validates its argument and
    may raise. *)
Fixpoint convert {S} (Source : Pipeline.Source -> outcome S)
    (response_sources : list Pipeline.Source) : outcome (list S) :=
  match response_sources with
  | [] => Ok []
  | source :: rest =>
      match Source source with
      | Raise e => Raise e
      | Ok x =>
          match convert Source rest with
          | Raise e => Raise e
          | Ok xs => Ok (x :: xs)
          end
      end
  end.

(** [chat_query(request)]: the pipeline runs with its default threshold. *)
Definition chat_query {S} (w : World) (Source : Pipeline.Source -> outcome S)
    (request : ChatRequest) : result (ChatResponse S) * list Event :=
  let '(response, t) :=
    Pipeline.query w (request_query request) (use_search request)
      (num_results request) 0.7 in
  let failed (e : exn) :=
    Throw (HTTPException 500 (of_string "Error processing query: " ++ e)) in
  match response with
  | Raise e => (failed e, t)
  | Ok response =>
      match convert Source (Pipeline.sources response) with
      | Raise e => (failed e, t)
      | Ok sources =>
          (Return {| answer := Pipeline.answer response;
                     sources := sources;
                     confidence := Pipeline.confidence response;
                     used_web_search := Pipeline.used_web_search response |},
           t)
      end
  end.

End Routes.

(** * Properties of the chunker *)

Module ChunkerFacts.
Import Chunker.

Section Loop.

Variable self : Settings.
Variable text : pystr.
Variable md : pydict.

#[local] Abbreviation next a := (snd (cut self text a) - chunk_overlap self).
#[local] Abbreviation len := (text_length text).

(** [chain a n l b]: [l] holds the chunks of consecutive iterations, the
    first one entered with [start = a] and [chunk_num = n], and the iteration
    after the last one would be entered with [start = b]. *)
Fixpoint chain (a n : Z) (l : list DocumentChunk) (b : Z) : Prop :=
  match l with
  | [] => a = b
  | c :: l' =>
      a < len /\ c = make_chunk self text md a n /\ chain (next a) (n + 1) l' b
  end.

Lemma chain_snoc a n l b :
  chain a n l b -> b < len ->
  chain a n (l ++ [make_chunk self text md b (n + py_len l)]) (next b).
Proof.
  revert a n. induction l as [|c l IH]; intros a n; simpl.
  - intros -> Hb. rewrite Z.add_0_r. auto.
  - intros (Ha & Hc & Hl) Hb. split; [exact Ha|]. split; [exact Hc|].
    specialize (IH _ _ Hl Hb).
    replace (n + py_len (c :: l)) with (n + 1 + py_len l); [exact IH|].
    unfold py_len. simpl length. lia.
Qed.

(** The loop invariant: the chunks collected so far form a chain from the
    initial start. *)
Definition inv (s : loop_state) : Prop :=
  chain 0 0 (chunks s) (start s) /\ chunk_num s = py_len (chunks s).

Lemma inv_init : inv (init).
Proof. split; reflexivity. Qed.

Lemma inv_body s : inv s -> guard text s = true -> inv (body self text md s).
Proof.
  intros [Hc Hn] Hg. unfold guard in Hg. apply Z.ltb_lt in Hg.
  split; simpl.
  - rewrite Hn. apply (chain_snoc 0 0); assumption.
  - rewrite Hn. unfold py_len. rewrite length_app. simpl. lia.
Qed.

Lemma loop_inv fuel s r :
  inv s -> loop self text md fuel s = Some r ->
  exists b, chain 0 0 r b /\ len <= b.
Proof.
  revert s. induction fuel as [|fuel IH]; intros s Hinv; simpl.
  - destruct (guard text s) eqn:Hg; [discriminate|].
    intros [= <-]. exists (start s). split; [apply Hinv|].
    unfold guard in Hg. apply Z.ltb_ge in Hg. exact Hg.
  - destruct (guard text s) eqn:Hg.
    + apply IH. apply inv_body; assumption.
    + intros [= <-]. exists (start s). split; [apply Hinv|].
      unfold guard in Hg. apply Z.ltb_ge in Hg. exact Hg.
Qed.

Lemma returns_chain r :
  chunk_text_returns self text md r -> exists b, chain 0 0 r b /\ len <= b.
Proof. intros [fuel H]. eapply loop_inv; [apply inv_init|exact H]. Qed.

(** More fuel never changes a result. *)
Lemma loop_fuel_mono fuel fuel' s r :
  (fuel <= fuel')%nat -> loop self text md fuel s = Some r ->
  loop self text md fuel' s = Some r.
Proof.
  revert fuel' s. induction fuel as [|fuel IH]; intros fuel' s Hle; simpl.
  - destruct (guard text s) eqn:Hg; [discriminate|].
    intros H. destruct fuel'; simpl; rewrite Hg; exact H.
  - destruct (guard text s) eqn:Hg.
    + destruct fuel' as [|fuel']; [lia|]. simpl. rewrite Hg.
      apply IH. lia.
    + intros H. destruct fuel'; simpl; rewrite Hg; exact H.
Qed.

Lemma returns_functional r1 r2 :
  chunk_text_returns self text md r1 -> chunk_text_returns self text md r2 ->
  r1 = r2.
Proof.
  intros [f1 H1] [f2 H2]. unfold chunk_text_fuel in *.
  apply (loop_fuel_mono _ (Nat.max f1 f2)) in H1; [|lia].
  apply (loop_fuel_mono _ (Nat.max f1 f2)) in H2; [|lia].
  congruence.
Qed.

(** *** What one cut produces *)

Lemma py_rfind_bounds (s : pystr) c : -1 <= py_rfind s c < py_len s.
Proof.
  unfold py_len. induction s as [|x s IH]; simpl length; simpl py_rfind.
  - lia.
  - destruct (0 <=? py_rfind s c) eqn:E.
    + apply Z.leb_le in E. lia.
    + destruct (N.eqb x c); lia.
Qed.

Lemma break_point_bounds (w : pystr) : -1 <= break_point w < py_len w.
Proof.
  unfold break_point.
  pose proof (py_rfind_bounds w dot). pose proof (py_rfind_bounds w newline). lia.
Qed.

Lemma cut_spec a :
  let w := py_slice text a (a + chunk_size self) in
  let bp := break_point w in
  cut self text a =
    if (a + chunk_size self <? len) && past_half self bp
    then (py_slice w 0 (bp + 1), a + bp + 1)
    else (w, a + chunk_size self).
Proof.
  unfold cut. cbv zeta.
  destruct (a + chunk_size self <? len); [|reflexivity].
  destruct (past_half self _); reflexivity.
Qed.

Lemma cut_end_cases a :
  snd (cut self text a) = a + chunk_size self \/
  (a + chunk_size self < len /\
   chunk_size self < 2 * break_point (py_slice text a (a + chunk_size self)) /\
   snd (cut self text a) =
     a + break_point (py_slice text a (a + chunk_size self)) + 1).
Proof.
  rewrite cut_spec. cbv zeta.
  destruct (a + chunk_size self <? len) eqn:E1; simpl; [|by left].
  unfold past_half.
  destruct (chunk_size self <? _) eqn:E2; simpl; [|by left].
  right. apply Z.ltb_lt in E1, E2. auto.
Qed.

Lemma span_make_chunk a n :
  span (make_chunk self text md a n) = Some (a, snd (cut self text a)).
Proof.
  unfold span, start_char, end_char, make_chunk.
  destruct (cut self text a) as [w e]. simpl.
  rewrite lookup_insert_ne by done.
  rewrite !lookup_insert_eq. reflexivity.
Qed.

Lemma content_make_chunk a n :
  content (make_chunk self text md a n) = py_strip (fst (cut self text a)).
Proof. unfold make_chunk. destruct (cut self text a). reflexivity. Qed.

Lemma chunk_number_make_chunk a n :
  chunk_number (make_chunk self text md a n) = Some (VInt n).
Proof.
  unfold chunk_number, make_chunk. destruct (cut self text a). simpl.
  rewrite !lookup_insert_ne by done. rewrite lookup_insert_eq. reflexivity.
Qed.

(** *** Chains under an invariant of the start positions *)

Section Invariant.

Variable I : Z -> Prop.
Hypothesis I_next : forall a, I a -> a < len -> I (next a).

Lemma chain_Forall a n l b :
  I a -> chain a n l b ->
  Forall (fun c => exists x m, I x /\ x < len /\ c = make_chunk self text md x m) l
  /\ I b.
Proof.
  revert a n. induction l as [|c l IH]; intros a n Ha; simpl.
  - intros <-. split; [constructor|exact Ha].
  - intros (Hlt & -> & Hl).
    destruct (IH _ _ (I_next _ Ha Hlt) Hl) as [HF Hb].
    split; [|exact Hb]. constructor; [|exact HF]. eauto.
Qed.

Lemma chain_adjacent a n l b i c c' :
  I a -> chain a n l b ->
  l !! i = Some c -> l !! S i = Some c' ->
  exists x m, I x /\ x < len /\
    c = make_chunk self text md x m /\
    c' = make_chunk self text md (next x) (m + 1).
Proof.
  revert a n i. induction l as [|d l IH]; intros a n i Ha; simpl.
  - intros _ Hi. discriminate.
  - intros (Hlt & -> & Hl) Hi Hi'. destruct i as [|i]; simpl in *.
    + injection Hi as <-. destruct l as [|d' l]; [discriminate|].
      simpl in Hi'. injection Hi' as <-.
      simpl in Hl. destruct Hl as (_ & -> & _).
      exists a, n. auto.
    + apply (IH (next a) (n + 1) i); auto.
Qed.

End Invariant.

(** *** Forward progress and termination *)

Lemma end_gt_start a : 0 < chunk_size self -> a < snd (cut self text a).
Proof.
  intros Hcs. destruct (cut_end_cases a) as [->|(_ & Hbp & ->)]; lia.
Qed.

Lemma next_gt a :
  well_formed self -> overlap_within_half self -> a < next a.
Proof.
  unfold well_formed, overlap_within_half. intros Hwf Hhalf.
  destruct (cut_end_cases a) as [->|(_ & Hbp & ->)];
    Z.div_mod_to_equations; lia.
Qed.

Lemma loop_terminates (fuel : nat) s :
  (forall a, a < next a) ->
  len - start s <= Z.of_nat fuel ->
  exists r, loop self text md fuel s = Some r.
Proof.
  intros Hprog. revert s. induction fuel as [|fuel IH]; intros s Hm; simpl.
  - destruct (guard text s) eqn:Hg; [|eauto].
    unfold guard in Hg. apply Z.ltb_lt in Hg. lia.
  - destruct (guard text s) eqn:Hg; [|eauto].
    apply IH. simpl. pose proof (Hprog (start s)). lia.
Qed.

Lemma chain_cover a n l b p :
  0 <= chunk_overlap self ->
  chain a n l b -> a <= p < b ->
  exists c s e, c ∈ l /\ span c = Some (s, e) /\ s <= p < e.
Proof.
  intros Hov. revert a n. induction l as [|c l IH]; intros a n; simpl.
  - intros <- Hp. lia.
  - intros (Hlt & -> & Hl) Hp.
    destruct (Z.lt_ge_cases p (snd (cut self text a))) as [Hin|Hout].
    + exists (make_chunk self text md a n), a, (snd (cut self text a)).
      split; [left|]. split; [apply span_make_chunk|lia].
    + destruct (IH _ _ Hl) as (c & s & e & Hc & Hs & Hr); [lia|].
      exists c, s, e. split; [right; exact Hc|]. auto.
Qed.

End Loop.

(** *** Termination *)

(** X29: for every text and every configuration with
    [0 < chunk_overlap < chunk_size] whose overlap is at most
    [chunk_size / 2 + 1], the sliding-window loop of [chunk_text] advances
    [start] in every iteration and returns a list of chunks. *)
Theorem chunk_text_terminates (self : Settings) (text : pystr) (md : pydict) :
  well_formed self -> overlap_within_half self ->
  exists r, chunk_text_returns self text md r.
Proof.
  intros Hwf Hhalf.
  destruct (loop_terminates self text md (Z.to_nat (text_length text)) init)
    as [r Hr].
  - intros a. apply next_gt; assumption.
  - simpl. unfold text_length, py_len. lia.
  - exists r, (Z.to_nat (text_length text)). exact Hr.
Qed.

Definition demo_settings : Settings := {| chunk_size := 10; chunk_overlap := 2 |}.

(** With [chunk_size = 10] and [chunk_overlap = 7] the first window of this
    text is trimmed at the period at index 6, so [end = 7] and the next
    [start] is [7 - 7 = 0] again. *)
Definition stuck_settings : Settings := {| chunk_size := 10; chunk_overlap := 7 |}.
Definition stuck_text : pystr := of_string "aaaaaa.aaaaaaaaaaaa".

Lemma chunk_text_terminates_witness :
  exists r,
    chunk_text_returns demo_settings stuck_text ∅ r.
Proof.
  apply (chunk_text_terminates demo_settings stuck_text ∅).
  - unfold well_formed. simpl. lia.
  - apply Z.leb_le. reflexivity.
Defined.

Lemma stuck_loop fuel s :
  start s = 0 -> loop stuck_settings stuck_text ∅ fuel s = None.
Proof.
  revert s. induction fuel as [|fuel IH]; intros s Hs; simpl;
    unfold guard; rewrite Hs; simpl; [reflexivity|].
  apply IH. simpl. rewrite Hs. reflexivity.
Qed.

(** C8 does not hold of the code: the loop of [chunk_text] has no guard for
    forward progress. The configuration [chunk_size = 10],
    [chunk_overlap = 7] satisfies [0 < chunk_overlap < chunk_size], and on
    the text ["aaaaaa.aaaaaaaaaaaa"] the first iteration trims its chunk to
    [[0, 7)] and leaves [start] at [7 - 7 = 0]: every iteration is entered
    with [start = 0], [chunk_text] never leaves its loop, and no list of
    chunks is returned. *)
Theorem chunk_text_can_diverge :
  well_formed stuck_settings /\
  snd (cut stuck_settings stuck_text 0) = 7 /\
  start (body stuck_settings stuck_text ∅ init) = start init /\
  chunk_text_diverges stuck_settings stuck_text ∅ /\
  ~ (exists r, chunk_text_returns stuck_settings stuck_text ∅ r).
Proof.
  split; [unfold well_formed; simpl; lia|].
  split; [reflexivity|]. split; [reflexivity|]. split.
  - intros fuel. apply stuck_loop. reflexivity.
  - intros (r & fuel & H). unfold chunk_text_fuel in H.
    rewrite stuck_loop in H; [discriminate|reflexivity].
Qed.

(** *** Coverage, order and overlap of the chunk ranges *)

(** X28: under a configuration with [0 < chunk_overlap < chunk_size] and
    [chunk_overlap <= chunk_size / 2 + 1], [chunk_text] returns, for a
    non-empty text, chunks whose ranges [[start_char, end_char)] cover every
    position of [[0, len(text))]; every range is non-empty; and each chunk
    starts strictly after its predecessor, exactly [chunk_overlap]
    characters before the predecessor's end. *)
Theorem chunk_ranges_cover (self : Settings) (text : pystr) (md : pydict) :
  well_formed self -> overlap_within_half self -> text <> [] ->
  exists r,
    chunk_text_returns self text md r /\
    (forall p, 0 <= p < text_length text ->
       exists c s e, c ∈ r /\ span c = Some (s, e) /\ s <= p < e) /\
    Forall (fun c => exists s e, span c = Some (s, e) /\ s < e) r /\
    (forall i c c', r !! i = Some c -> r !! S i = Some c' ->
       exists s e s' e',
         span c = Some (s, e) /\ span c' = Some (s', e') /\
         s < s' /\ s' = e - chunk_overlap self).
Proof.
  intros Hwf Hhalf Hne.
  destruct (loop_terminates self text md (Z.to_nat (text_length text)) init)
    as [r Hrun];
    [intros a; apply next_gt; assumption
    |simpl; unfold text_length, py_len; lia|].
  assert (Hr : chunk_text_returns self text md r)
    by (exists (Z.to_nat (text_length text)); exact Hrun).
  exists r. split; [exact Hr|].
  destruct (returns_chain _ _ _ _ Hr) as (b & Hch & Hb).
  assert (Hcs : 0 < chunk_size self) by (unfold well_formed in Hwf; lia).
  split; [|split].
  - intros p Hp.
    apply (chain_cover self text md 0 0 r b p); [unfold well_formed in Hwf; lia|exact Hch|lia].
  - destruct (chain_Forall self text md (fun _ => True) (fun _ _ _ => Logic.I)
                0 0 r b Logic.I Hch) as [HF _].
    eapply Forall_impl; [exact HF|].
    intros c (x & m & _ & _ & ->). simpl.
    exists x, (snd (cut self text x)). split; [apply span_make_chunk|].
    apply end_gt_start. exact Hcs.
  - intros i c c' Hi Hi'.
    destruct (chain_adjacent self text md (fun _ => True) (fun _ _ _ => Logic.I)
                0 0 r b i c c' Logic.I Hch Hi Hi') as (x & m & _ & _ & -> & ->).
    exists x, (snd (cut self text x)),
      (snd (cut self text x) - chunk_overlap self),
      (snd (cut self text (snd (cut self text x) - chunk_overlap self))).
    rewrite !span_make_chunk. split; [reflexivity|]. split; [reflexivity|].
    split; [|reflexivity]. apply next_gt; assumption.
Qed.

(** The run on [stuck_text] with [chunk_size = 10] and [chunk_overlap = 2]
    returns three chunks: the first one is trimmed at the period, the last
    one records an end past the text. *)
Lemma chunk_ranges_cover_witness :
  exists r,
    chunk_text_returns demo_settings stuck_text ∅ r /\
    span <$> r = [Some (0, 7); Some (5, 15); Some (13, 23)] /\
    (forall p, 0 <= p < text_length stuck_text ->
       exists c s e, c ∈ r /\ span c = Some (s, e) /\ s <= p < e) /\
    Forall (fun c => exists s e, span c = Some (s, e) /\ s < e) r /\
    (forall i c c', r !! i = Some c -> r !! S i = Some c' ->
       exists s e s' e',
         span c = Some (s, e) /\ span c' = Some (s', e') /\
         s < s' /\ s' = e - chunk_overlap demo_settings).
Proof.
  destruct (chunk_ranges_cover demo_settings stuck_text ∅) as (r & Hr & H);
    [unfold well_formed; simpl; lia|apply Z.leb_le; reflexivity|discriminate|].
  exists r. split; [exact Hr|]. split; [|exact H].
  assert (Hrun : chunk_text_returns demo_settings stuck_text ∅
                   (default [] (chunk_text_fuel demo_settings stuck_text ∅ 3)))
    by (exists 3%nat; vm_compute; reflexivity).
  rewrite (returns_functional _ _ _ _ _ Hr Hrun). vm_compute. reflexivity.
Defined.

(** With [chunk_size = 10] and [chunk_overlap = 8] the first chunk of
    [stuck_text] is trimmed to [[0, 7)] and the second one starts at
    [7 - 8 = -1]. *)
Definition backward_settings : Settings := {| chunk_size := 10; chunk_overlap := 8 |}.

(** C7 does not hold of the code: nothing keeps [start] from moving
    backwards. The configuration [chunk_size = 10], [chunk_overlap = 8]
    satisfies [0 < chunk_overlap < chunk_size], the text
    ["aaaaaa.aaaaaaaaaaaa"] is not empty and holds no whitespace, and
    [chunk_text] returns for it a first chunk with the range [[0, 7)] and a
    second one that records [start_char = -1] and [end_char = 9]: the chunks
    are not ordered by [start_char], [-1] is no offset of the text, and the
    content of the second chunk, [text[-1:9]], is empty. *)
Theorem chunk_starts_can_decrease :
  well_formed backward_settings /\ stuck_text <> [] /\
  Forall (fun ch => py_isspace ch = false) stuck_text /\
  exists r c c',
    chunk_text_returns backward_settings stuck_text ∅ r /\
    r !! 0%nat = Some c /\ r !! 1%nat = Some c' /\
    span c = Some (0, 7) /\ span c' = Some (-1, 9) /\
    content c' = [].
Proof.
  split; [unfold well_formed; simpl; lia|]. split; [discriminate|].
  split; [repeat (constructor; [reflexivity|]); constructor|].
  destruct (chunk_text_fuel backward_settings stuck_text ∅ 11) as [r|] eqn:E;
    [|vm_compute in E; discriminate].
  vm_compute in E. injection E as <-.
  eexists _, _, _. split; [exists 11%nat; vm_compute; reflexivity|].
  repeat split.
Qed.

(** *** Slices and [rfind] *)

Lemma py_len_nonneg {A} (s : list A) : 0 <= py_len s.
Proof. unfold py_len. lia. Qed.

Lemma slice_index_range len i : 0 <= len -> 0 <= slice_index len i <= len.
Proof. intros H. unfold slice_index. destruct (Z.ltb_spec i 0); lia. Qed.

Lemma py_len_slice {A} (s : list A) a b :
  py_len (py_slice s a b) =
  Z.max 0 (slice_index (py_len s) b - slice_index (py_len s) a).
Proof.
  unfold py_slice.
  pose proof (slice_index_range (py_len s) a (py_len_nonneg s)).
  pose proof (slice_index_range (py_len s) b (py_len_nonneg s)).
  unfold py_len in *. rewrite length_take, length_drop. lia.
Qed.

Lemma py_slice_all {A} (s : list A) b : py_len s <= b -> py_slice s 0 b = s.
Proof.
  intros Hb. unfold py_slice, slice_index.
  pose proof (py_len_nonneg s) as Hs.
  replace (0 <? 0) with false by reflexivity.
  destruct (b <? 0) eqn:E; [apply Z.ltb_lt in E; lia|].
  rewrite (Z.min_l 0) by lia. rewrite (Z.min_r b) by lia. simpl drop.
  apply take_ge. unfold py_len in *. lia.
Qed.

Lemma slice_index_inside len i : 0 <= i <= len -> slice_index len i = i.
Proof. intros H. unfold slice_index. destruct (Z.ltb_spec i 0); lia. Qed.

(** A prefix of a window that starts at a non-negative offset is the slice
    of the text over the shorter range. *)
Lemma py_slice_prefix {A} (s : list A) a n k :
  0 <= a -> 0 <= k <= py_len (py_slice s a (a + n)) ->
  py_slice (py_slice s a (a + n)) 0 k = py_slice s a (a + k).
Proof.
  intros Ha Hk.
  pose proof (py_len_nonneg (py_slice s a (a + n))) as Hw.
  unfold py_slice at 1.
  rewrite !slice_index_inside by lia.
  rewrite py_len_slice in Hk. clear Hw.
  pose proof (slice_index_range (py_len s) (a + n) (py_len_nonneg s)) as HB.
  change (Z.to_nat 0) with 0%nat. rewrite drop_0.
  unfold py_slice. rewrite take_take. f_equal.
  revert Hk HB. generalize (slice_index (py_len s) (a + n)). intros B Hk HB.
  pose proof (py_len_nonneg s).
  unfold slice_index in *.
  destruct (Z.ltb_spec a 0); destruct (Z.ltb_spec (a + k) 0); lia.
Qed.

Lemma py_rfind_spec (s : pystr) c :
  (py_rfind s c = -1 /\ c ∉ s) \/
  (exists n : nat, py_rfind s c = Z.of_nat n /\ s !! n = Some c /\
     forall m, (n < m)%nat -> s !! m <> Some c).
Proof.
  induction s as [|x s IH]; simpl py_rfind.
  - left. split; [reflexivity|]. apply not_elem_of_nil.
  - destruct IH as [[Hr Hn]|(n & Hr & Hn & Hlast)]; rewrite Hr.
    + replace (0 <=? -1) with false by reflexivity.
      destruct (N.eqb_spec x c) as [->|Hne].
      * right. exists 0%nat. split; [reflexivity|]. split; [reflexivity|].
        intros [|m] Hm; [lia|]. simpl. intros Hc.
        apply Hn. eapply list_elem_of_lookup_2. exact Hc.
      * left. split; [reflexivity|]. intros Hc.
        apply elem_of_cons in Hc as [Hc|Hc]; [congruence|contradiction].
    + replace (0 <=? Z.of_nat n) with true by (symmetry; apply Z.leb_le; lia).
      right. exists (S n). split; [lia|]. split; [exact Hn|].
      intros [|m] Hm; [lia|]. simpl. apply Hlast. lia.
Qed.

Lemma break_point_spec (w : pystr) :
  (break_point w = -1 /\ no_boundary w) \/ last_boundary w (break_point w).
Proof.
  unfold break_point, no_boundary, last_boundary, is_boundary.
  destruct (py_rfind_spec w dot) as [[Hd Hnd]|(nd & Hd & Hnd & Hld)];
    destruct (py_rfind_spec w newline) as [[Hn Hnn]|(nn & Hn & Hnn & Hln)];
    rewrite Hd, Hn.
  - left. split; [reflexivity|]. intros c Hc [->| ->]; contradiction.
  - right. exists nn. split; [lia|]. split; [eauto|].
    intros m c Hm Hc [->| ->].
    + apply Hnd. eapply list_elem_of_lookup_2. exact Hc.
    + exact (Hln m Hm Hc).
  - right. exists nd. split; [lia|]. split; [eauto|].
    intros m c Hm Hc [->| ->].
    + exact (Hld m Hm Hc).
    + apply Hnn. eapply list_elem_of_lookup_2. exact Hc.
  - right. exists (Nat.max nd nn). split; [lia|]. split.
    + destruct (Nat.max_spec nd nn) as [[_ ->]|[_ ->]]; eauto.
    + intros m c Hm Hc [->| ->].
      * apply (Hld m); [lia|exact Hc].
      * apply (Hln m); [lia|exact Hc].
Qed.

Lemma last_boundary_unique (w : pystr) i j :
  last_boundary w i -> last_boundary w j -> i = j.
Proof.
  intros (n & -> & (c & Hc & Hb) & Hn) (m & -> & (d & Hd & Hbd) & Hm).
  destruct (Nat.lt_trichotomy n m) as [Hlt|[->|Hlt]]; [|reflexivity|].
  - exfalso. exact (Hn m d Hlt Hd Hbd).
  - exfalso. exact (Hm n c Hlt Hc Hb).
Qed.

Lemma no_boundary_last (w : pystr) i : no_boundary w -> ~ last_boundary w i.
Proof.
  intros Hno (n & _ & (c & Hc & Hb) & _).
  apply (Hno c); [|exact Hb]. eapply list_elem_of_lookup_2. exact Hc.
Qed.

(** *** The start positions under a well-formed configuration *)

(** A window entered at a negative [start] above [- chunk_size / 2] is never
    trimmed: it is too short to hold a boundary past the 50% mark. *)
Lemma no_trim_below_zero (self : Settings) (text : pystr) a :
  a < 0 -> - chunk_size self < 2 * a ->
  a + chunk_size self < text_length text ->
  chunk_size self < 2 * break_point (py_slice text a (a + chunk_size self)) ->
  False.
Proof.
  intros Ha Hinv Hend Hbp.
  pose proof (break_point_bounds (py_slice text a (a + chunk_size self))) as Hb.
  rewrite py_len_slice in Hb. unfold text_length in Hend.
  pose proof (py_len_nonneg text).
  unfold slice_index in Hb.
  destruct (Z.ltb_spec a 0); destruct (Z.ltb_spec (a + chunk_size self) 0); lia.
Qed.

Lemma start_inv_next (self : Settings) (text : pystr) a :
  well_formed self -> - chunk_size self < 2 * a ->
  - chunk_size self < 2 * (snd (cut self text a) - chunk_overlap self).
Proof.
  unfold well_formed. intros Hwf Hinv.
  destruct (cut_end_cases self text a) as [->|(Hend & Hbp & ->)]; [lia|].
  destruct (Z.lt_ge_cases a 0) as [Hneg|Hpos]; [|lia].
  destruct (no_trim_below_zero self text a Hneg Hinv Hend Hbp).
Qed.

Lemma cut_is_slice (self : Settings) (text : pystr) a :
  - chunk_size self < 2 * a ->
  fst (cut self text a) = py_slice text a (snd (cut self text a)).
Proof.
  intros Hinv. rewrite cut_spec. cbv zeta.
  destruct (a + chunk_size self <? text_length text) eqn:E1; simpl; [|reflexivity].
  unfold past_half.
  destruct (chunk_size self <? _) eqn:E2; simpl; [|reflexivity].
  apply Z.ltb_lt in E1, E2.
  destruct (Z.lt_ge_cases a 0) as [Hneg|Hpos].
  { destruct (no_trim_below_zero self text a Hneg Hinv E1 E2). }
  pose proof (break_point_bounds (py_slice text a (a + chunk_size self))).
  replace (a + break_point (py_slice text a (a + chunk_size self)) + 1)
    with (a + (break_point (py_slice text a (a + chunk_size self)) + 1)) by lia.
  apply py_slice_prefix; lia.
Qed.

(** *** Content and recorded offsets (C10) *)

(** C10: under a configuration with [0 < chunk_overlap < chunk_size], every
    chunk [chunk_text] returns has [content = text[start_char:end_char].strip()]
    (Python's slice, which stops at the end of the text), and a chunk whose
    window reaches the end of the text records
    [end_char = start_char + chunk_size], not the text length. *)
Theorem chunk_content_is_slice (self : Settings) (text : pystr) (md : pydict)
    (r : list DocumentChunk) :
  well_formed self ->
  chunk_text_returns self text md r ->
  Forall (fun c => exists s e,
            span c = Some (s, e) /\
            content c = py_strip (py_slice text s e) /\
            (text_length text <= s + chunk_size self ->
             e = s + chunk_size self)) r.
Proof.
  intros Hwf Hr.
  destruct (returns_chain _ _ _ _ Hr) as (b & Hch & _).
  destruct (chain_Forall self text md (fun a => - chunk_size self < 2 * a)
              (fun a Ha _ => start_inv_next self text a Hwf Ha) 0 0 r b)
    as [HF _]; [unfold well_formed in Hwf; lia|exact Hch|].
  eapply Forall_impl; [exact HF|].
  intros c (x & m & Hx & _ & ->). simpl.
  exists x, (snd (cut self text x)).
  split; [apply span_make_chunk|]. split.
  - rewrite content_make_chunk. f_equal. apply cut_is_slice. exact Hx.
  - intros Hlast. destruct (cut_end_cases self text x) as [->|(Hend & _)]; lia.
Qed.

Lemma chunk_content_is_slice_witness :
  exists r,
    chunk_text_returns demo_settings stuck_text ∅ r /\
    Forall (fun c => exists s e,
              span c = Some (s, e) /\
              content c = py_strip (py_slice stuck_text s e) /\
              (text_length stuck_text <= s + chunk_size demo_settings ->
               e = s + chunk_size demo_settings)) r.
Proof.
  eexists. split.
  - exists 3%nat. vm_compute. reflexivity.
  - apply (chunk_content_is_slice demo_settings stuck_text ∅).
    + unfold well_formed. simpl. lia.
    + exists 3%nat. vm_compute. reflexivity.
Defined.

(** *** The boundary-aware trim (C2) *)

(** C2, as the code has it: for every chunk whose raw window end
    [start + chunk_size] is strictly inside the text, if the last ['.'] or
    newline of the window is at an index strictly greater than half the chunk
    size, the chunk ends exactly at that character (inclusive); if no boundary
    lies strictly past the half, the chunk ends at the raw window edge. *)
Theorem boundary_trim (self : Settings) (text : pystr) (md : pydict)
    (r : list DocumentChunk) :
  0 < chunk_size self ->
  chunk_text_returns self text md r ->
  Forall (fun c => exists s e,
            span c = Some (s, e) /\
            let w := py_slice text s (s + chunk_size self) in
            (s + chunk_size self < text_length text ->
             (forall i, last_boundary w i -> chunk_size self < 2 * i ->
                e = s + i + 1 /\ content c = py_strip (py_slice w 0 (i + 1))) /\
             ((forall i, last_boundary w i -> 2 * i <= chunk_size self) ->
                e = s + chunk_size self /\ content c = py_strip w))) r.
Proof.
  intros Hcs Hr.
  destruct (returns_chain _ _ _ _ Hr) as (b & Hch & _).
  destruct (chain_Forall self text md (fun _ => True) (fun _ _ _ => Logic.I)
              0 0 r b Logic.I Hch) as [HF _].
  eapply Forall_impl; [exact HF|].
  intros c (x & m & _ & _ & ->). simpl.
  exists x, (snd (cut self text x)).
  split; [apply span_make_chunk|].
  intros Hin. rewrite content_make_chunk, cut_spec. cbv zeta.
  replace (x + chunk_size self <? text_length text) with true
    by (symmetry; apply Z.ltb_lt; exact Hin).
  simpl andb. unfold past_half.
  set (w := py_slice text x (x + chunk_size self)).
  destruct (break_point_spec w) as [[Hbp Hno]|Hlast].
  - rewrite Hbp.
    replace (chunk_size self <? 2 * -1) with false
      by (symmetry; apply Z.ltb_ge; lia).
    simpl. split; [|auto].
    intros i Hi _. destruct (no_boundary_last w i Hno Hi).
  - destruct (Z.ltb_spec (chunk_size self) (2 * break_point w)) as [Hlt|Hge];
      simpl; split.
    + intros i Hi _. rewrite (last_boundary_unique w i _ Hi Hlast). auto.
    + intros Hall. specialize (Hall _ Hlast). lia.
    + intros i Hi Hhalf. rewrite (last_boundary_unique w i _ Hi Hlast) in Hhalf. lia.
    + auto.
Qed.

Lemma boundary_trim_witness :
  exists r,
    chunk_text_returns demo_settings stuck_text ∅ r /\
    Forall (fun c => exists s e,
              span c = Some (s, e) /\
              let w := py_slice stuck_text s (s + chunk_size demo_settings) in
              (s + chunk_size demo_settings < text_length stuck_text ->
               (forall i, last_boundary w i -> chunk_size demo_settings < 2 * i ->
                  e = s + i + 1 /\ content c = py_strip (py_slice w 0 (i + 1))) /\
               ((forall i, last_boundary w i -> 2 * i <= chunk_size demo_settings) ->
                  e = s + chunk_size demo_settings /\ content c = py_strip w))) r.
Proof.
  eexists. split.
  - exists 3%nat. vm_compute. reflexivity.
  - apply (boundary_trim demo_settings stuck_text ∅).
    + simpl. lia.
    + exists 3%nat. vm_compute. reflexivity.
Defined.

(** The period of this text sits at index 5, exactly half of a window of 10
    characters. *)
Definition half_text : pystr := of_string "aaaaa.aaaaaaaaaaaaa".

(** C2 as stated fails: the first window is not the last one, its last
    boundary is at 50% of the window, and the chunk still ends at the raw
    window edge 10 instead of after the period, at 6. *)
Lemma boundary_at_half_not_trimmed :
  exists r c,
    chunk_text_returns demo_settings half_text ∅ r /\
    r !! 0%nat = Some c /\
    0 + chunk_size demo_settings < text_length half_text /\
    last_boundary (py_slice half_text 0 (0 + chunk_size demo_settings)) 5 /\
    2 * 5 >= chunk_size demo_settings /\
    span c = Some (0, 10) /\ span c <> Some (0, 0 + 5 + 1).
Proof.
  eexists _, _. split; [exists 3%nat; vm_compute; reflexivity|].
  split; [reflexivity|]. split; [vm_compute; reflexivity|].
  split; [|split; [vm_compute; discriminate|split; [reflexivity|discriminate]]].
  exists 5%nat. split; [reflexivity|]. split.
  - exists dot. split; [reflexivity|]. left. reflexivity.
  - intros m c Hm Hc [->| ->];
      do 6 (destruct m as [|m]; [lia|]);
      do 4 (destruct m as [|m]; [discriminate|]);
      discriminate.
Qed.

(** *** Short and empty texts (C1) *)

(** C1, as the code has it: an empty text yields the empty list; a non-empty
    text of at most [chunk_size - chunk_overlap] characters yields exactly one
    chunk, numbered 0, whose content is the stripped text and whose recorded
    range is [[0, chunk_size)]. *)
Theorem short_text_single_chunk (self : Settings) (text : pystr) (md : pydict) :
  (text = [] -> forall r, chunk_text_returns self text md r <-> r = []) /\
  (0 <= chunk_overlap self ->
   0 < text_length text ->
   text_length text + chunk_overlap self <= chunk_size self ->
   exists c,
     (forall r, chunk_text_returns self text md r <-> r = [c]) /\
     content c = py_strip text /\
     span c = Some (0, chunk_size self) /\
     chunk_number c = Some (VInt 0)).
Proof.
  split.
  - intros -> r. split.
    + intros Hr. apply (returns_functional self [] md r []); [exact Hr|].
      exists 0%nat. reflexivity.
    + intros ->. exists 0%nat. reflexivity.
  - intros Hov Hpos Hfit.
    assert (Hcut : cut self text 0 = (text, chunk_size self)).
    { rewrite cut_spec. cbv zeta.
      replace (0 + chunk_size self <? text_length text) with false
        by (symmetry; apply Z.ltb_ge; lia).
      simpl. rewrite py_slice_all by (unfold text_length in *; lia).
      reflexivity. }
    assert (Hrun : chunk_text_fuel self text md 1 = Some [make_chunk self text md 0 0]).
    { unfold chunk_text_fuel. simpl. unfold guard. simpl.
      replace (0 <? text_length text) with true
        by (symmetry; apply Z.ltb_lt; lia).
      rewrite Hcut. simpl.
      replace (chunk_size self - chunk_overlap self <? text_length text) with false
        by (symmetry; apply Z.ltb_ge; lia).
      reflexivity. }
    exists (make_chunk self text md 0 0). split; [|split; [|split]].
    + intros r. split.
      * intros Hr. apply (returns_functional self text md); [exact Hr|].
        exists 1%nat. exact Hrun.
      * intros ->. exists 1%nat. exact Hrun.
    + rewrite content_make_chunk, Hcut. reflexivity.
    + rewrite span_make_chunk, Hcut. reflexivity.
    + apply chunk_number_make_chunk.
Qed.

Lemma short_text_single_chunk_witness :
  exists c,
    (forall r, chunk_text_returns default_settings (of_string " One. Two.") ∅ r
               <-> r = [c]) /\
    content c = py_strip (of_string " One. Two.") /\
    span c = Some (0, chunk_size default_settings) /\
    chunk_number c = Some (VInt 0).
Proof.
  apply (short_text_single_chunk default_settings (of_string " One. Two.") ∅).
  - simpl. lia.
  - vm_compute. reflexivity.
  - vm_compute. discriminate.
Defined.

(** C1 as stated fails: a text of 9 characters is shorter than the chunk
    size 10, and with an overlap of 2 the loop is entered a second time at
    [start = 8], so two chunks are returned. *)
Lemma short_text_two_chunks :
  let text := of_string "aaaaaaaaa" in
  0 < text_length text < chunk_size demo_settings /\
  exists c c',
    chunk_text_returns demo_settings text ∅ [c; c'] /\
    span c = Some (0, 10) /\ span c' = Some (8, 18).
Proof.
  cbv zeta. split; [vm_compute; split; reflexivity|].
  eexists _, _. split; [exists 2%nat; vm_compute; reflexivity|].
  split; reflexivity.
Qed.

End ChunkerFacts.

(** * Binary64 arithmetic of the confidence score *)

Module FloatFacts.

(** ** Valid binary64 numbers as integers *)

Lemma digits2_size m : digits2_pos m = Pos.size m.
Proof. induction m; simpl; congruence. Qed.

Lemma digits2_bounds m :
  2 ^ (Zpos (digits2_pos m) - 1) <= Zpos m < 2 ^ Zpos (digits2_pos m).
Proof.
  rewrite digits2_size. split.
  - pose proof (Pos.size_le m) as H.
    assert (H' : 2 ^ Zpos (Pos.size m) <= 2 * Zpos m).
    { change 2 with (Zpos 2) at 1. rewrite <- Pos2Z.inj_pow. exact H. }
    replace (Zpos (Pos.size m)) with (Zpos (Pos.size m) - 1 + 1) in H' by lia.
    rewrite Z.pow_add_r in H' by lia. lia.
  - pose proof (Pos.size_gt m) as H.
    change 2 with (Zpos 2). rewrite <- Pos2Z.inj_pow. exact H.
Qed.

(** What [valid_binary] says about a finite number. *)
Lemma bounded_inv m e :
  bounded prec emax m e = true ->
  -1074 <= e <= 971 /\ Zpos m < 2 ^ 53 /\ (-1074 < e -> 2 ^ 52 <= Zpos m).
Proof.
  unfold bounded, canonical_mantissa, fexp, SpecFloat.emin, prec, emax.
  intros H. apply andb_true_iff in H as [Hc He].
  apply Z.eqb_eq in Hc. apply Z.leb_le in He.
  pose proof (digits2_bounds m) as [Hlo Hhi].
  assert (Hd : Zpos (digits2_pos m) <= 53) by lia.
  split; [lia|]. split.
  - eapply Z.lt_le_trans; [exact Hhi|]. apply Z.pow_le_mono_r; lia.
  - intros Hn. assert (Zpos (digits2_pos m) = 53) as Hd' by lia.
    rewrite Hd' in Hlo. exact Hlo.
Qed.

(** The value of a number in units of [2^-1074]; the infinities lie outside
    the finite range. *)
Definition SFV (x : spec_float) : Z :=
  match x with
  | S754_zero _ => 0
  | S754_finite s m e => cond_Zopp s (Zpos m * 2 ^ (e + 1074))
  | S754_infinity s => cond_Zopp s (2 ^ 2200)
  | S754_nan => 0
  end.

Definition is_nan_sf (x : spec_float) : bool :=
  match x with S754_nan => true | _ => false end.

Lemma pow2_pos n : 0 < 2 ^ n \/ n < 0.
Proof. destruct (Z.le_gt_cases 0 n); [left; apply Z.pow_pos_nonneg; lia|right; lia]. Qed.

Lemma finite_magnitude m e :
  bounded prec emax m e = true -> 0 < Zpos m * 2 ^ (e + 1074) < 2 ^ 2098.
Proof.
  intros H. apply bounded_inv in H as (He & Hm & _).
  assert (0 < 2 ^ (e + 1074)) by (apply Z.pow_pos_nonneg; lia).
  split; [lia|].
  assert (2 ^ (e + 1074) <= 2 ^ 2045) by (apply Z.pow_le_mono_r; lia).
  replace (2 ^ 2098) with (2 ^ 53 * 2 ^ 2045) by (rewrite <- Z.pow_add_r by lia; reflexivity).
  nia.
Qed.

Lemma finite_order m1 e1 m2 e2 :
  bounded prec emax m1 e1 = true -> bounded prec emax m2 e2 = true ->
  e1 < e2 -> Zpos m1 * 2 ^ (e1 + 1074) < Zpos m2 * 2 ^ (e2 + 1074).
Proof.
  intros H1 H2 Hlt.
  apply bounded_inv in H1 as (He1 & Hm1 & _).
  apply bounded_inv in H2 as (He2 & _ & Hm2).
  specialize (Hm2 ltac:(lia)).
  replace (e2 + 1074) with ((e2 - e1) + (e1 + 1074)) by lia.
  rewrite (Z.pow_add_r 2 (e2 - e1)) by lia.
  assert (0 < 2 ^ (e1 + 1074)) by (apply Z.pow_pos_nonneg; lia).
  assert (2 ^ 1 <= 2 ^ (e2 - e1)) by (apply Z.pow_le_mono_r; lia).
  change (2 ^ 1) with 2 in *.
  change (2 ^ 53) with (2 * 2 ^ 52) in Hm1.
  assert (Zpos m1 < Zpos m2 * 2 ^ (e2 - e1)) by nia.
  rewrite Z.mul_assoc. apply Z.mul_lt_mono_pos_r; assumption.
Qed.

Lemma Zcompare_mul_r a b c : 0 < c -> (a * c ?= b * c) = (a ?= b).
Proof.
  intros Hc. destruct (Z.compare_spec a b) as [->|H|H].
  - apply Z.compare_refl.
  - apply Z.compare_lt_iff. nia.
  - apply Z.compare_gt_iff. nia.
Qed.

Lemma Zcompare_opp_mul_r a b c :
  0 < c -> (- (a * c) ?= - (b * c)) = CompOpp (a ?= b).
Proof.
  intros Hc. destruct (Z.compare_spec a b) as [->|H|H]; simpl.
  - apply Z.compare_refl.
  - apply Z.compare_gt_iff. nia.
  - apply Z.compare_lt_iff. nia.
Qed.

Lemma switch_Eq_Eq c : Pos.switch_Eq Eq c = c.
Proof. destruct c; reflexivity. Qed.

Ltac solve_cmp :=
  f_equal; symmetry;
  first [ apply Z.compare_eq_iff; lia
        | apply Z.compare_lt_iff; lia
        | apply Z.compare_gt_iff; lia ].

Lemma SFcompare_SFV x y :
  valid_binary x = true -> valid_binary y = true ->
  is_nan_sf x = false -> is_nan_sf y = false ->
  SFcompare x y = Some (SFV x ?= SFV y).
Proof.
  intros Hx Hy Hnx Hny.
  assert (Hbig : 2 ^ 2098 < 2 ^ 2200) by (apply Z.pow_lt_mono_r; lia).
  assert (Hpos : 0 < 2 ^ 2200) by (apply Z.pow_pos_nonneg; lia).
  destruct x as [sx|sx| |sx mx ex]; try discriminate;
  destruct y as [sy|sy| |sy my ey]; try discriminate;
    cbn [valid_binary] in Hx, Hy; cbn [SFcompare SFV].
  - reflexivity.
  - destruct sy; cbn [cond_Zopp]; solve_cmp.
  - pose proof (finite_magnitude _ _ Hy). destruct sy; cbn [cond_Zopp]; solve_cmp.
  - destruct sx; cbn [cond_Zopp]; solve_cmp.
  - destruct sx, sy; cbn [cond_Zopp]; solve_cmp.
  - pose proof (finite_magnitude _ _ Hy).
    destruct sx, sy; cbn [cond_Zopp]; solve_cmp.
  - pose proof (finite_magnitude _ _ Hx). destruct sx; cbn [cond_Zopp]; solve_cmp.
  - pose proof (finite_magnitude _ _ Hx).
    destruct sx, sy; cbn [cond_Zopp]; solve_cmp.
  - pose proof (finite_magnitude _ _ Hx). pose proof (finite_magnitude _ _ Hy).
    assert (Hpe : 0 < 2 ^ (ey + 1074))
      by (apply bounded_inv in Hy; apply Z.pow_pos_nonneg; lia).
    destruct sx, sy; cbn [cond_Zopp]; try solve_cmp.
    + destruct (Z.compare_spec ex ey) as [->|Hlt|Hgt].
      * rewrite Pos.compare_cont_spec, switch_Eq_Eq.
        rewrite Pos2Z.inj_compare. f_equal.
        symmetry. apply Zcompare_opp_mul_r. exact Hpe.
      * pose proof (finite_order _ _ _ _ Hx Hy Hlt). solve_cmp.
      * pose proof (finite_order _ _ _ _ Hy Hx ltac:(lia)). solve_cmp.
    + destruct (Z.compare_spec ex ey) as [->|Hlt|Hgt].
      * rewrite Pos.compare_cont_spec, switch_Eq_Eq.
        rewrite Pos2Z.inj_compare. f_equal.
        symmetry. apply Zcompare_mul_r. exact Hpe.
      * pose proof (finite_order _ _ _ _ Hx Hy Hlt). solve_cmp.
      * pose proof (finite_order _ _ _ _ Hy Hx ltac:(lia)). solve_cmp.
Qed.

(** ** Rounding to nearest, ties to even, on integers *)

Lemma rne_div_bounds a b : 0 < b -> a / b <= rne_div a b <= a / b + 1.
Proof.
  intros Hb. unfold rne_div.
  destruct (2 * (a mod b) ?= b); [destruct (Z.even (a / b))| |]; lia.
Qed.

Lemma rne_div_exact a b : 0 < b -> a mod b = 0 -> rne_div a b = a / b.
Proof.
  intros Hb Hr. unfold rne_div. rewrite Hr.
  replace (2 * 0 ?= b) with Lt by (symmetry; apply Z.compare_lt_iff; lia).
  reflexivity.
Qed.

Lemma rne_div_mono a1 a2 b : 0 < b -> a1 <= a2 -> rne_div a1 b <= rne_div a2 b.
Proof.
  intros Hb Hle.
  assert (Hq : a1 / b <= a2 / b) by (apply Z.div_le_mono; lia).
  destruct (Z.eq_dec (a1 / b) (a2 / b)) as [Heq|Hne].
  - assert (Hr : a1 mod b <= a2 mod b).
    { pose proof (Z.div_mod a1 b ltac:(lia)). pose proof (Z.div_mod a2 b ltac:(lia)).
      rewrite Heq in *. nia. }
    unfold rne_div. rewrite Heq.
    destruct (Z.compare_spec (2 * (a1 mod b)) b);
      destruct (Z.compare_spec (2 * (a2 mod b)) b);
      destruct (Z.even (a2 / b)); lia.
  - pose proof (rne_div_bounds a1 b Hb). pose proof (rne_div_bounds a2 b Hb). lia.
Qed.

Lemma rne_div_scale a b c : 0 < b -> 0 < c -> rne_div (a * c) (b * c) = rne_div a b.
Proof.
  intros Hb Hc. unfold rne_div.
  rewrite Z.div_mul_cancel_r by lia.
  rewrite Z.mul_mod_distr_r by lia.
  replace (2 * (a mod b * c)) with (2 * (a mod b) * c) by ring.
  rewrite Zcompare_mul_r by exact Hc. reflexivity.
Qed.

(** The number of binary digits of a positive integer. *)
Definition digits (n : Z) : Z := Z.log2 n + 1.

Lemma digits_bounds n : 0 < n -> 2 ^ (digits n - 1) <= n < 2 ^ digits n.
Proof.
  intros Hn. unfold digits. pose proof (Z.log2_spec n Hn).
  replace (Z.log2 n + 1 - 1) with (Z.log2 n) by lia.
  replace (Z.log2 n + 1) with (Z.succ (Z.log2 n)) by lia. exact H.
Qed.

Lemma digits_unique n d : 0 < n -> 2 ^ (d - 1) <= n < 2 ^ d -> digits n = d.
Proof.
  intros Hn H. unfold digits.
  assert (0 < d).
  { destruct (Z.le_gt_cases d 0) as [Hd|Hd]; [|exact Hd].
    assert (2 ^ d <= 2 ^ 0) by (apply Z.pow_le_mono_r; lia). simpl in *. lia. }
  rewrite (Z.log2_unique n (d - 1)); [lia|lia|].
  replace (Z.succ (d - 1)) with d by lia. exact H.
Qed.

Lemma digits_Zdigits2 m : Zdigits2 (Zpos m) = digits (Zpos m).
Proof.
  symmetry. apply digits_unique; [lia|]. apply digits2_bounds.
Qed.

Lemma digits_mono a b : 0 < a <= b -> digits a <= digits b.
Proof. intros H. unfold digits. pose proof (Z.log2_le_mono a b). lia. Qed.

(** The number of low bits that do not fit in 53 significant bits. *)
Definition excess (n : Z) : Z := Z.max 0 (digits n - 53).

(** [n] rounded to 53 significant bits ([0 <= n]). *)
Definition round53 (n : Z) : Z := rne_div n (2 ^ excess n) * 2 ^ excess n.

Lemma round53_bounds n :
  0 < n -> 2 ^ (digits n - 1) <= round53 n <= 2 ^ (excess n + 53).
Proof.
  intros Hn. unfold round53.
  pose proof (digits_bounds n Hn) as [Hlo Hhi].
  assert (Hk : 0 <= excess n) by (unfold excess; lia).
  assert (Hp : 0 < 2 ^ excess n) by (apply Z.pow_pos_nonneg; lia).
  pose proof (rne_div_bounds n (2 ^ excess n) Hp) as [Hq1 Hq2].
  assert (Hd : 0 < digits n) by (unfold digits; pose proof (Z.log2_nonneg n); lia).
  split.
  - destruct (Z.le_gt_cases (digits n) 53) as [Hsmall|Hbig].
    + replace (excess n) with 0 in * by (unfold excess; lia).
      rewrite Z.pow_0_r, Z.mul_1_r in *. rewrite Z.div_1_r in Hq1. lia.
    + replace (excess n) with (digits n - 53) in * by (unfold excess; lia).
      assert (2 ^ 52 <= n / 2 ^ (digits n - 53)).
      { apply Z.div_le_lower_bound; [lia|].
        rewrite <- Z.pow_add_r by lia.
        replace (digits n - 53 + 52) with (digits n - 1) by lia. exact Hlo. }
      replace (digits n - 1) with (52 + (digits n - 53)) by lia.
      rewrite Z.pow_add_r by lia. nia.
  - assert (n / 2 ^ excess n < 2 ^ 53).
    { apply Z.div_lt_upper_bound; [lia|].
      rewrite <- Z.pow_add_r by lia.
      eapply Z.lt_le_trans; [exact Hhi|].
      apply Z.pow_le_mono_r; [lia|]. unfold excess. lia. }
    rewrite Z.pow_add_r by lia. nia.
Qed.

Lemma round53_mono a b : 0 <= a <= b -> round53 a <= round53 b.
Proof.
  intros [Ha Hab].
  destruct (Z.eq_dec a 0) as [->|Hne].
  { change (round53 0) with 0.
    unfold round53.
    assert (0 < 2 ^ excess b) by (apply Z.pow_pos_nonneg; unfold excess; lia).
    pose proof (rne_div_bounds b (2 ^ excess b) H).
    assert (0 <= b / 2 ^ excess b) by (apply Z.div_pos; lia). nia. }
  assert (Hd : digits a <= digits b) by (apply digits_mono; lia).
  assert (Hk : excess a <= excess b) by (unfold excess; lia).
  destruct (Z.eq_dec (excess a) (excess b)) as [Heq|Hlt].
  - unfold round53. rewrite Heq.
    assert (0 < 2 ^ excess b) by (apply Z.pow_pos_nonneg; unfold excess; lia).
    pose proof (rne_div_mono a b (2 ^ excess b) H Hab). nia.
  - pose proof (round53_bounds a ltac:(lia)) as [_ Hup].
    pose proof (round53_bounds b ltac:(lia)) as [Hlow _].
    eapply Z.le_trans; [exact Hup|]. eapply Z.le_trans; [|exact Hlow].
    apply Z.pow_le_mono_r; [lia|]. unfold excess in *. lia.
Qed.

(** ** The shift-and-round step of [SpecFloat] *)

Lemma iter_pos_nat {A} (f : A -> A) p x :
  SpecFloat.iter_pos f p x = Nat.iter (Pos.to_nat p) f x.
Proof.
  revert x. induction p as [p IH|p IH|]; intros x; cbn [SpecFloat.iter_pos].
  - rewrite !IH, Pos2Nat.inj_xI.
    replace (S (2 * Pos.to_nat p)) with (S (Pos.to_nat p + Pos.to_nat p)) by lia.
    rewrite Nat.iter_succ_r, Nat.iter_add. reflexivity.
  - rewrite !IH, Pos2Nat.inj_xO.
    replace (2 * Pos.to_nat p)%nat with (Pos.to_nat p + Pos.to_nat p)%nat by lia.
    rewrite Nat.iter_add. reflexivity.
  - reflexivity.
Qed.

(** Where [m] lies between the two multiples of [2^j] around it. *)
Definition loc_of (m j : Z) : location :=
  if m mod 2 ^ j =? 0 then loc_Exact
  else loc_Inexact (2 * (m mod 2 ^ j) ?= 2 ^ j).

Lemma shr_1_spec m r s :
  0 <= m ->
  shr_1 {| shr_m := m; shr_r := r; shr_s := s |}
  = {| shr_m := m / 2; shr_r := Z.odd m; shr_s := r || s |}.
Proof.
  intros Hm. destruct m as [|p|p]; [reflexivity| |lia].
  destruct p as [p|p|]; cbn [shr_1].
  - replace (Z.pos p~1 / 2) with (Z.pos p); [reflexivity|].
    apply (Z.div_unique _ _ _ 1); lia.
  - replace (Z.pos p~0 / 2) with (Z.pos p); [reflexivity|].
    apply (Z.div_unique _ _ _ 0); lia.
  - reflexivity.
Qed.

Lemma shr_iter m j :
  0 <= m ->
  let rec := Nat.iter j shr_1 {| shr_m := m; shr_r := false; shr_s := false |} in
  shr_m rec = m / 2 ^ Z.of_nat j /\
  loc_of_shr_record rec = loc_of m (Z.of_nat j).
Proof.
  intros Hm. induction j as [|j IH]; cbv zeta.
  - simpl. unfold loc_of. rewrite Z.div_1_r, Z.mod_1_r. auto.
  - rewrite Nat.iter_succ. cbv zeta in IH.
    destruct (Nat.iter j shr_1 _) as [q r s]. simpl in IH.
    destruct IH as [Hq Hloc].
    assert (Hp : 0 < 2 ^ Z.of_nat j) by (apply Z.pow_pos_nonneg; lia).
    assert (Hq0 : 0 <= q) by (rewrite Hq; apply Z.div_pos; lia).
    rewrite shr_1_spec by exact Hq0. simpl shr_m.
    unfold loc_of in *.
    rewrite Nat2Z.inj_succ, !Z.pow_succ_r by lia.
    split.
    + rewrite Hq, Z.div_div by lia. f_equal. ring.
    + pose proof (Z.mod_pos_bound m (2 ^ Z.of_nat j) Hp) as Hrem.
      assert (Hsplit : m mod (2 * 2 ^ Z.of_nat j)
                       = m mod 2 ^ Z.of_nat j + 2 ^ Z.of_nat j * (q mod 2)).
      { rewrite (Z.mul_comm 2), Z.rem_mul_r by lia. rewrite Hq. reflexivity. }
      pose proof (Z.mod_pos_bound q 2 ltac:(lia)) as Hq2.
      rewrite Zodd_mod. rewrite Hsplit.
      destruct (Z.eqb_spec (m mod 2 ^ Z.of_nat j) 0) as [E|E].
      * (* nothing was lost so far *)
        rewrite E in *.
        destruct r, s; simpl in Hloc; try discriminate.
        destruct (Z.eqb_spec (q mod 2) 1) as [E1|E1]; cbn [loc_of_shr_record orb].
        -- rewrite E1.
           destruct (Z.eqb_spec (0 + 2 ^ Z.of_nat j * 1) 0); [lia|].
           f_equal. symmetry. apply Z.compare_eq_iff. lia.
        -- replace (q mod 2) with 0 by lia.
           destruct (Z.eqb_spec (0 + 2 ^ Z.of_nat j * 0) 0); [reflexivity|lia].
      * assert (Hrs : r || s = true).
        { destruct r, s; simpl in Hloc; try discriminate; reflexivity. }
        rewrite Hrs.
        destruct (Z.eqb_spec (q mod 2) 1) as [E1|E1]; cbn [loc_of_shr_record].
        -- rewrite E1.
           destruct (Z.eqb_spec (m mod 2 ^ Z.of_nat j + 2 ^ Z.of_nat j * 1) 0); [lia|].
           f_equal. symmetry. apply Z.compare_gt_iff. lia.
        -- replace (q mod 2) with 0 by lia.
           destruct (Z.eqb_spec (m mod 2 ^ Z.of_nat j + 2 ^ Z.of_nat j * 0) 0); [lia|].
           f_equal. symmetry. apply Z.compare_lt_iff. lia.
Qed.

Lemma round_nearest_even_loc m n :
  0 <= m -> 0 <= n ->
  round_nearest_even (m / 2 ^ n) (loc_of m n) = rne_div m (2 ^ n).
Proof.
  intros Hm Hn. unfold loc_of, rne_div.
  assert (Hp : 0 < 2 ^ n) by (apply Z.pow_pos_nonneg; lia).
  pose proof (Z.mod_pos_bound m (2 ^ n) Hp).
  destruct (Z.eqb_spec (m mod 2 ^ n) 0) as [E|E].
  - rewrite E. simpl round_nearest_even.
    replace (2 * 0 ?= 2 ^ n) with Lt by (symmetry; apply Z.compare_lt_iff; lia).
    reflexivity.
  - simpl. destruct (2 * (m mod 2 ^ n) ?= 2 ^ n); reflexivity.
Qed.

(** [shr] from an exact record, for a positive shift count. *)
Lemma shr_exact m e n :
  0 <= m -> 0 < n ->
  let '(rec, e') := shr {| shr_m := m; shr_r := false; shr_s := false |} e n in
  e' = e + n /\
  round_nearest_even (shr_m rec) (loc_of_shr_record rec) = rne_div m (2 ^ n).
Proof.
  intros Hm Hn. destruct n as [|p|p]; try lia. unfold shr.
  split; [reflexivity|].
  rewrite iter_pos_nat.
  destruct (shr_iter m (Pos.to_nat p) Hm) as [Hq Hloc].
  rewrite Hq, Hloc, positive_nat_Z.
  apply round_nearest_even_loc; lia.
Qed.

Lemma fexp_eq x : fexp prec emax x = Z.max (x - 53) (-1074).
Proof. reflexivity. Qed.

Lemma Zdigits2_digits m : 0 < m -> Zdigits2 m = digits m.
Proof. intros H. destruct m as [|p|p]; try lia. apply digits_Zdigits2. Qed.

(** [binary_round_aux] on an exact mantissa that needs no left shift. *)
Lemma binary_round_aux_exact s m e :
  let t := Z.max (digits (Zpos m) + e - 53) (-1074) in
  -1074 <= e <= t -> t <= 970 ->
  exists m' e',
    binary_round_aux prec emax s (Zpos m) e loc_Exact = S754_finite s m' e' /\
    Zpos m' * 2 ^ (e' - e) = rne_div (Zpos m) (2 ^ (t - e)) * 2 ^ (t - e).
Proof.
  intros t He Ht.
  pose proof (digits_bounds (Zpos m) ltac:(lia)) as [Hlo Hhi].
  unfold binary_round_aux, shr_fexp.
  rewrite digits_Zdigits2, fexp_eq. fold t.
  cbn [shr_record_of_loc].
  destruct (Z.eq_dec t e) as [Heq|Hne].
  - (* no bit is dropped *)
    rewrite Heq, Z.sub_diag. cbn [shr shr_m loc_of_shr_record round_nearest_even].
    rewrite digits_Zdigits2, fexp_eq. fold t. rewrite Heq, Z.sub_diag.
    cbn [shr shr_record_of_loc shr_m].
    replace (e <=? emax - prec) with true
      by (symmetry; apply Z.leb_le; unfold emax, prec; lia).
    exists m, e. split; [reflexivity|].
    rewrite Z.sub_diag, Z.pow_0_r, !Z.mul_1_r.
    rewrite rne_div_exact by (rewrite ?Z.mod_1_r; lia).
    rewrite Z.div_1_r. reflexivity.
  - (* [t - e] bits are dropped and the mantissa keeps 53 digits *)
    assert (Hn : 0 < t - e) by lia.
    assert (Ht' : t = digits (Zpos m) + e - 53) by lia.
    pose proof (shr_exact (Zpos m) e (t - e) ltac:(lia) Hn) as Hshr.
    destruct (shr _ e (t - e)) as [rec e1]. destruct Hshr as [-> Hround].
    rewrite Hround. replace (e + (t - e)) with t by lia.
    set (n := t - e) in *.
    assert (Hp : 0 < 2 ^ n) by (apply Z.pow_pos_nonneg; lia).
    pose proof (rne_div_bounds (Zpos m) (2 ^ n) Hp) as [Hq1 Hq2].
    assert (Hq : 2 ^ 52 <= Zpos m / 2 ^ n < 2 ^ 53).
    { split.
      - apply Z.div_le_lower_bound; [lia|].
        rewrite <- Z.pow_add_r by lia.
        replace (n + 52) with (digits (Zpos m) - 1) by lia. exact Hlo.
      - apply Z.div_lt_upper_bound; [lia|].
        rewrite <- Z.pow_add_r by lia.
        replace (n + 53) with (digits (Zpos m)) by lia. exact Hhi. }
    set (m2 := rne_div (Zpos m) (2 ^ n)) in *.
    destruct (Z.eq_dec m2 (2 ^ 53)) as [Hcarry|Hnocarry].
    + (* rounding carried into a 54th digit *)
      rewrite Hcarry.
      change (Zdigits2 (2 ^ 53)) with 54. rewrite fexp_eq.
      replace (Z.max (54 + t - 53) (-1074) - t) with 1 by lia.
      cbn [shr_record_of_loc shr SpecFloat.iter_pos].
      change (shr_1 {| shr_m := 2 ^ 53; shr_r := false; shr_s := false |})
        with {| shr_m := 2 ^ 52; shr_r := false; shr_s := false |}.
      cbn [shr_m]. change (2 ^ 52) with (Zpos (2 ^ 52)%positive) at 1.
      cbv iota beta.
      replace (t + 1 <=? emax - prec) with true
        by (symmetry; apply Z.leb_le; unfold emax, prec; lia).
      eexists _, _. split; [reflexivity|].
      replace (t + 1 - e) with (1 + n) by lia.
      rewrite Z.pow_add_r by lia. change (Zpos (2 ^ 52)) with (2 ^ 52).
      change (2 ^ 53) with (2 ^ 52 * 2 ^ 1). ring.
    + assert (Hm2 : 2 ^ 52 <= m2 < 2 ^ 53) by lia.
      assert (Hd2 : digits m2 = 53) by (apply digits_unique; [lia|exact Hm2]).
      rewrite Zdigits2_digits by lia. rewrite Hd2, fexp_eq.
      replace (Z.max (53 + t - 53) (-1074) - t) with 0 by lia.
      cbn [shr shr_record_of_loc shr_m].
      destruct m2 as [|p2|p2] eqn:E2; try lia.
      replace (t <=? emax - prec) with true
        by (symmetry; apply Z.leb_le; unfold emax, prec; lia).
      exists p2, t. split; reflexivity.
Qed.

Lemma iter_xO m p : Zpos (Pos.iter xO m p) = Zpos m * 2 ^ Zpos p.
Proof.
  rewrite <- (positive_nat_Z p). rewrite Pos2Nat.inj_iter.
  induction (Pos.to_nat p) as [|n IH].
  - simpl. lia.
  - rewrite Nat2Z.inj_succ, Z.pow_succ_r by lia. cbn [nat_rect].
    rewrite Pos2Z.inj_xO, IH. ring.
Qed.

Lemma digits_shift m k : 0 < m -> 0 <= k -> digits (m * 2 ^ k) = digits m + k.
Proof.
  intros Hm Hk. pose proof (digits_bounds m Hm) as [Hlo Hhi].
  assert (0 < 2 ^ k) by (apply Z.pow_pos_nonneg; lia).
  assert (0 < digits m) by (unfold digits; pose proof (Z.log2_nonneg m); lia).
  apply digits_unique; [nia|].
  replace (digits m + k - 1) with (digits m - 1 + k) by lia.
  rewrite !Z.pow_add_r by lia. nia.
Qed.

Lemma round53_multiple m k :
  0 < m -> 0 <= k -> excess (m * 2 ^ k) <= k -> round53 (m * 2 ^ k) = m * 2 ^ k.
Proof.
  intros Hm Hk Hex. unfold round53.
  assert (Hk' : 0 <= excess (m * 2 ^ k)) by (unfold excess; lia).
  remember (excess (m * 2 ^ k)) as x eqn:Hx. clear Hx.
  replace (2 ^ k) with (2 ^ (k - x) * 2 ^ x)
    by (rewrite <- Z.pow_add_r by lia; f_equal; lia).
  rewrite Z.mul_assoc.
  assert (0 < 2 ^ x) by (apply Z.pow_pos_nonneg; lia).
  rewrite rne_div_exact by (rewrite ?Z.mod_mul; lia).
  rewrite Z.div_mul by lia. reflexivity.
Qed.

(** [binary_round] rounds [m * 2^e] to 53 significant bits. *)
Lemma binary_round_spec s m e :
  -1074 <= e -> Zpos m * 2 ^ (e + 1074) < 2 ^ 2097 ->
  exists m' e',
    binary_round prec emax s m e = S754_finite s m' e' /\
    Zpos m' * 2 ^ (e' + 1074) = round53 (Zpos m * 2 ^ (e + 1074)).
Proof.
  intros He Hsmall.
  pose proof (digits_bounds (Zpos m) ltac:(lia)) as [Hlo Hhi].
  assert (Hdpos : 0 < digits (Zpos m))
    by (unfold digits; pose proof (Z.log2_nonneg (Zpos m)); lia).
  assert (HdN : digits (Zpos m * 2 ^ (e + 1074)) = digits (Zpos m) + (e + 1074))
    by (apply digits_shift; lia).
  assert (Hd : digits (Zpos m) + e + 1074 <= 2097).
  { destruct (Z.le_gt_cases (digits (Zpos m) + e + 1074) 2097) as [H|H]; [exact H|].
    exfalso.
    pose proof (digits_bounds (Zpos m * 2 ^ (e + 1074))) as Hb.
    assert (0 < 2 ^ (e + 1074)) by (apply Z.pow_pos_nonneg; lia).
    specialize (Hb ltac:(nia)). rewrite HdN in Hb.
    assert (2 ^ 2097 <= 2 ^ (digits (Zpos m) + (e + 1074) - 1))
      by (apply Z.pow_le_mono_r; lia).
    lia. }
  unfold binary_round, shl_align.
  change (Zpos (digits2_pos m)) with (Zdigits2 (Zpos m)).
  rewrite digits_Zdigits2, fexp_eq.
  set (t := Z.max (digits (Zpos m) + e - 53) (-1074)).
  assert (Hex : excess (Zpos m * 2 ^ (e + 1074)) = t + 1074)
    by (unfold excess; rewrite HdN; unfold t; lia).
  destruct (t - e) as [|p|p] eqn:Hte.
  - (* already aligned *)
    destruct (binary_round_aux_exact s m e) as (m' & e' & Hr & Hv);
      [fold t; lia|fold t; lia|].
    fold t in Hv. rewrite Hte in Hv.
    exists m', e'. split; [exact Hr|].
    rewrite rne_div_exact, Z.div_1_r, Z.pow_0_r, Z.mul_1_r in Hv
      by (rewrite ?Z.pow_0_r, ?Z.mod_1_r; lia).
    rewrite round53_multiple by lia.
    assert (e <= e').
    { destruct (Z.le_gt_cases e e') as [H|H]; [exact H|]. exfalso.
      rewrite Z.pow_neg_r in Hv by lia. lia. }
    replace (e' + 1074) with ((e' - e) + (e + 1074)) by lia.
    rewrite Z.pow_add_r, Z.mul_assoc, Hv by lia. reflexivity.
  - (* the mantissa is rounded *)
    destruct (binary_round_aux_exact s m e) as (m' & e' & Hr & Hv);
      [fold t; lia|fold t; lia|].
    fold t in Hv. rewrite Hte in Hv.
    exists m', e'. split; [exact Hr|].
    assert (Hp : 0 < 2 ^ Zpos p) by (apply Z.pow_pos_nonneg; lia).
    assert (e <= e').
    { destruct (Z.le_gt_cases e e') as [H|H]; [exact H|]. exfalso.
      rewrite Z.pow_neg_r in Hv by lia.
      pose proof (rne_div_bounds (Zpos m) (2 ^ Zpos p) Hp) as [Hq _].
      assert (0 < Zpos m / 2 ^ Zpos p).
      { apply Z.div_str_pos. split; [lia|].
        eapply Z.le_trans; [|exact Hlo]. apply Z.pow_le_mono_r; lia. }
      nia. }
    replace (e' + 1074) with ((e' - e) + (e + 1074)) by lia.
    rewrite Z.pow_add_r, Z.mul_assoc, Hv by lia.
    unfold round53. rewrite Hex.
    replace (t + 1074) with (Zpos p + (e + 1074)) by lia.
    rewrite (Z.pow_add_r 2 (Zpos p)) by lia.
    rewrite rne_div_scale by (try apply Z.pow_pos_nonneg; lia).
    ring.
  - (* the mantissa is shifted left to the canonical exponent [t] *)
    assert (Hshift : Zpos (Pos.iter xO m p) = Zpos m * 2 ^ (e - t))
      by (rewrite iter_xO; f_equal; f_equal; lia).
    assert (Hdig : digits (Zpos (Pos.iter xO m p)) = digits (Zpos m) + (e - t))
      by (rewrite Hshift; apply digits_shift; lia).
    cbn [fst snd].
    destruct (binary_round_aux_exact s (Pos.iter xO m p) t) as (m' & e' & Hr & Hv).
    + rewrite Hdig. unfold t. lia.
    + rewrite Hdig. unfold t. lia.
    + rewrite Hdig in Hv.
      replace (Z.max (digits (Zpos m) + (e - t) + t - 53) (-1074) - t) with 0
        in Hv by (unfold t; lia).
      rewrite rne_div_exact, Z.div_1_r, Z.pow_0_r, Z.mul_1_r in Hv
        by (rewrite ?Z.pow_0_r, ?Z.mod_1_r; lia).
      exists m', e'. split; [exact Hr|].
      rewrite round53_multiple by lia.
      assert (t <= e').
      { destruct (Z.le_gt_cases t e') as [H|H]; [exact H|]. exfalso.
        rewrite Z.pow_neg_r in Hv by lia. lia. }
      replace (e' + 1074) with ((e' - t) + (t + 1074)) by lia.
      rewrite Z.pow_add_r, Z.mul_assoc, Hv, Hshift by (unfold t; lia).
      rewrite <- Z.mul_assoc, <- Z.pow_add_r by (unfold t; lia).
      f_equal. f_equal. lia.
Qed.

(** ** Subtraction from one and division by two *)

Definition SF_one : spec_float := S754_finite false 4503599627370496 (-52).
Definition SF_two : spec_float := S754_finite false 4503599627370496 (-51).

(** A rounding of magnitudes extended to signed integers. *)
Definition signed (f : Z -> Z) (v : Z) : Z := if v <? 0 then - f (- v) else f v.

Lemma signed_mono (f : Z -> Z) :
  f 0 = 0 -> (forall a b, 0 <= a <= b -> f a <= f b) ->
  forall a b, a <= b -> signed f a <= signed f b.
Proof.
  intros H0 Hmono a b Hab. unfold signed.
  destruct (Z.ltb_spec a 0); destruct (Z.ltb_spec b 0).
  - pose proof (Hmono (- b) (- a) ltac:(lia)). lia.
  - pose proof (Hmono 0 (- a) ltac:(lia)). pose proof (Hmono 0 b ltac:(lia)). lia.
  - lia.
  - apply Hmono. lia.
Qed.

Definition is_finite_sf (x : spec_float) : bool :=
  match x with S754_zero _ | S754_finite _ _ _ => true | _ => false end.

Lemma shl_align_fst m e ez :
  ez <= e -> Zpos (fst (shl_align m e ez)) = Zpos m * 2 ^ (e - ez).
Proof.
  intros H. unfold shl_align. destruct (ez - e) as [|p|p] eqn:E; cbn [fst].
  - replace (e - ez) with 0 by lia. lia.
  - lia.
  - rewrite iter_xO. f_equal. f_equal. lia.
Qed.

Lemma round53_0 : round53 0 = 0.
Proof. reflexivity. Qed.

Lemma binary_normalize_spec v e :
  -1074 <= e -> Z.abs v * 2 ^ (e + 1074) < 2 ^ 2097 ->
  is_finite_sf (binary_normalize prec emax v e false) = true /\
  SFV (binary_normalize prec emax v e false) = signed round53 (v * 2 ^ (e + 1074)).
Proof.
  intros He Hb.
  assert (Hp : 0 < 2 ^ (e + 1074)) by (apply Z.pow_pos_nonneg; lia).
  destruct v as [|m|m]; cbn [binary_normalize].
  - split; reflexivity.
  - destruct (binary_round_spec false m e He) as (m' & e' & -> & Hv);
      [simpl Z.abs in Hb; exact Hb|].
    split; [reflexivity|]. cbn [SFV cond_Zopp]. rewrite Hv.
    unfold signed. destruct (Z.ltb_spec (Zpos m * 2 ^ (e + 1074)) 0); [lia|reflexivity].
  - destruct (binary_round_spec true m e He) as (m' & e' & -> & Hv);
      [simpl Z.abs in Hb; exact Hb|].
    split; [reflexivity|]. cbn [SFV cond_Zopp]. rewrite Hv.
    unfold signed. destruct (Z.ltb_spec (Zneg m * 2 ^ (e + 1074)) 0); [|lia].
    f_equal. f_equal. lia.
Qed.

Definition half_max : Z := (2 ^ 53 - 1) * 2 ^ 2044.

Lemma half_max_bound : 2 ^ 1074 + (half_max + 1) < 2 ^ 2097.
Proof. vm_compute. reflexivity. Qed.

(** [1 - y] is the difference rounded to 53 bits. *)
Lemma sub_one_spec y :
  valid_binary y = true -> is_finite_sf y = true ->
  Z.abs (SFV y) <= half_max + 1 ->
  is_finite_sf (SFsub prec emax SF_one y) = true /\
  SFV (SFsub prec emax SF_one y) = signed round53 (2 ^ 1074 - SFV y).
Proof.
  intros Hv Hf Hb.
  destruct y as [sy|sy| |sy my ey]; try discriminate.
  - cbn [SFsub SF_one]. split; [reflexivity|].
    cbn [SFV cond_Zopp]. vm_compute. reflexivity.
  - cbn [valid_binary] in Hv. pose proof (bounded_inv _ _ Hv) as (He & _ & _).
    cbn [SFsub SF_one].
    set (ez := Z.min (-52) ey).
    rewrite !shl_align_fst by (unfold ez; lia).
    assert (Hpz : 0 < 2 ^ (ez + 1074)) by (apply Z.pow_pos_nonneg; unfold ez; lia).
    assert (Hval :
      (cond_Zopp false (4503599627370496 * 2 ^ (-52 - ez))
         - cond_Zopp sy (Zpos my * 2 ^ (ey - ez)))
        * 2 ^ (ez + 1074)
      = 2 ^ 1074 - SFV (S754_finite sy my ey)).
    { cbn [SFV]. rewrite Z.mul_sub_distr_r.
      f_equal.
      - cbn [cond_Zopp].
        rewrite <- Z.mul_assoc, <- Z.pow_add_r by (unfold ez; lia).
        replace (-52 - ez + (ez + 1074)) with 1022 by lia. reflexivity.
      - destruct sy; cbn [cond_Zopp];
          rewrite ?Z.mul_opp_l, <- Z.mul_assoc, <- Z.pow_add_r by (unfold ez; lia);
          replace (ey - ez + (ez + 1074)) with (ey + 1074) by lia; reflexivity. }
    rewrite <- Hval.
    apply binary_normalize_spec; [unfold ez; lia|].
    rewrite <- (Z.abs_eq (2 ^ (ez + 1074))) at 1 by lia.
    rewrite <- Z.abs_mul, Hval.
    pose proof half_max_bound.
    assert (0 < 2 ^ 1074) by (apply Z.pow_pos_nonneg; lia). lia.
Qed.

Lemma div_eucl_eq a b : Z.div_eucl a b = (a / b, a mod b).
Proof. unfold Z.div, Z.modulo. destruct (Z.div_eucl a b). reflexivity. Qed.

Lemma div_core_two m e :
  bounded prec emax m e = true ->
  let e' := Z.max (digits (Zpos m) + e - 55) (-1074) in
  let a := Zpos m * 2 ^ (e + 51 - e') in
  SFdiv_core_binary prec emax (Zpos m) e 4503599627370496 (-51)
  = (a / 2 ^ 52, e', new_location (2 ^ 52) (a mod 2 ^ 52)).
Proof.
  intros Hb e' a. pose proof (bounded_inv _ _ Hb) as (He & Hm & _).
  pose proof (digits_bounds (Zpos m) ltac:(lia)) as [Hlo Hhi].
  assert (Hd : 0 < digits (Zpos m) <= 53).
  { split; [unfold digits; pose proof (Z.log2_nonneg (Zpos m)); lia|].
    destruct (Z.le_gt_cases (digits (Zpos m)) 53) as [H|H]; [exact H|].
    assert (2 ^ 53 <= 2 ^ (digits (Zpos m) - 1)) by (apply Z.pow_le_mono_r; lia).
    lia. }
  unfold SFdiv_core_binary.
  rewrite digits_Zdigits2.
  change (Zdigits2 4503599627370496) with 53.
  rewrite fexp_eq.
  replace (Z.min (Z.max (digits (Zpos m) + e - (53 + -51) - 53) (-1074)) (e - -51))
    with e' by (unfold e'; lia).
  replace (e - -51 - e') with (e + 51 - e') by lia.
  destruct (e + 51 - e') as [|p|p] eqn:Es; [unfold e' in Es; lia| |unfold e' in Es; lia].
  rewrite Z.shiftl_mul_pow2 by lia.
  rewrite div_eucl_eq. reflexivity.
Qed.

Lemma rne_div_even a : 0 <= a -> rne_div (2 * a) 2 = a.
Proof.
  intros Ha. rewrite rne_div_exact; [|lia|].
  - rewrite Z.mul_comm, Z.div_mul; lia.
  - rewrite Z.mul_comm. apply Z.mod_mul. lia.
Qed.

(** [x / 2] is the half of [x], rounded to even in the last subnormal bit. *)
Lemma div_two_spec x :
  valid_binary x = true -> is_finite_sf x = true ->
  is_finite_sf (SFdiv prec emax x SF_two) = true /\
  SFV (SFdiv prec emax x SF_two) = signed (fun a => rne_div a 2) (SFV x).
Proof.
  intros Hv Hf. destruct x as [s|s| |s m e]; try discriminate.
  - cbn [SFdiv SF_two]. split; reflexivity.
  - cbn [valid_binary] in Hv. pose proof (bounded_inv _ _ Hv) as (He & Hm & Hnorm).
    pose proof (digits_bounds (Zpos m) ltac:(lia)) as [Hlo Hhi].
    assert (Hd : 0 < digits (Zpos m) <= 53).
    { split; [unfold digits; pose proof (Z.log2_nonneg (Zpos m)); lia|].
      destruct (Z.le_gt_cases (digits (Zpos m)) 53) as [H|H]; [exact H|].
      assert (2 ^ 53 <= 2 ^ (digits (Zpos m) - 1)) by (apply Z.pow_le_mono_r; lia).
      lia. }
    assert (Hsigned : forall v, 0 < v ->
              cond_Zopp s (rne_div v 2) = signed (fun a => rne_div a 2) (cond_Zopp s v)).
    { intros v Hvpos. unfold signed. destruct s; cbn [cond_Zopp].
      - destruct (Z.ltb_spec (- v) 0); [|lia]. rewrite Z.opp_involutive. reflexivity.
      - destruct (Z.ltb_spec v 0); [lia|reflexivity]. }
    cbn [SFdiv SF_two]. rewrite (div_core_two m e Hv). cbv zeta.
    rewrite xorb_false_r.
    set (e' := Z.max (digits (Zpos m) + e - 55) (-1074)).
    cbn [SFV]. rewrite <- Hsigned
      by (apply Z.mul_pos_pos; [lia|apply Z.pow_pos_nonneg; lia]).
    destruct (Z.eq_dec e (-1074)) as [Hsub|Hnsub].
    + (* the last bit of a number of the lowest binade may be lost *)
      subst e. replace e' with (-1074) by (unfold e'; lia).
      replace (-1074 + 51 - -1074) with 51 by lia.
      replace (-1074 + 1074) with 0 by lia. rewrite Z.pow_0_r, Z.mul_1_r.
      assert (Hq : Zpos m * 2 ^ 51 / 2 ^ 52 = Zpos m / 2).
      { change (2 ^ 52) with (2 * 2 ^ 51).
        rewrite Z.div_mul_cancel_r by lia. reflexivity. }
      assert (Hr : (Zpos m * 2 ^ 51) mod 2 ^ 52 = (Zpos m mod 2) * 2 ^ 51).
      { change (2 ^ 52) with (2 * 2 ^ 51).
        rewrite Z.mul_mod_distr_r by lia. reflexivity. }
      rewrite Hq, Hr.
      pose proof (Z.mod_pos_bound (Zpos m) 2 ltac:(lia)) as Hbit.
      assert (Hhalf : 0 <= Zpos m / 2 < 2 ^ 52).
      { split; [apply Z.div_pos; lia|].
        apply Z.div_lt_upper_bound; [lia|]. change (2 * 2 ^ 52) with (2 ^ 53). lia. }
      assert (Hround :
        round_nearest_even (Zpos m / 2) (new_location (2 ^ 52) (Zpos m mod 2 * 2 ^ 51))
        = rne_div (Zpos m) 2).
      { unfold rne_div.
        destruct (Z.eq_dec (Zpos m mod 2) 0) as [E|E].
        - rewrite E. reflexivity.
        - replace (Zpos m mod 2) with 1 by lia. reflexivity. }
      assert (Hm2 : 0 <= rne_div (Zpos m) 2 <= 2 ^ 52)
        by (pose proof (rne_div_bounds (Zpos m) 2 ltac:(lia)); lia).
      unfold binary_round_aux, shr_fexp.
      assert (Hfx : forall q, 0 <= q <= 2 ^ 52 ->
                fexp prec emax (Zdigits2 q + -1074) - -1074 = 0).
      { intros q Hq'. rewrite fexp_eq.
        destruct (Z.eq_dec q 0) as [->|Hq0]; [reflexivity|].
        rewrite Zdigits2_digits by lia.
        pose proof (digits_bounds q ltac:(lia)) as [Hl _].
        assert (digits q <= 53).
        { destruct (Z.le_gt_cases (digits q) 53) as [H|H]; [exact H|].
          assert (2 ^ 53 <= 2 ^ (digits q - 1)) by (apply Z.pow_le_mono_r; lia).
          change (2 ^ 53) with (2 * 2 ^ 52) in *. lia. }
        lia. }
      rewrite Hfx by lia. cbn [shr].
      assert (Hloc : forall q l, loc_of_shr_record (shr_record_of_loc q l) = l)
        by (intros q [|[| |]]; reflexivity).
      assert (Hshm : forall q l, shr_m (shr_record_of_loc q l) = q)
        by (intros q [|[| |]]; reflexivity).
      rewrite Hloc, Hshm, Hround, Hfx by lia.
      cbn [shr shr_record_of_loc shr_m].
      destruct (rne_div (Zpos m) 2) as [|p|p] eqn:E; [| |lia].
      * split; [reflexivity|destruct s; reflexivity].
      * replace (-1074 <=? emax - prec) with true by reflexivity.
        split; [reflexivity|]. cbn [SFV].
        replace (-1074 + 1074) with 0 by lia. rewrite Z.pow_0_r, Z.mul_1_r.
        reflexivity.
    + (* otherwise the quotient is exact *)
      assert (Hs : 52 <= e + 51 - e') by (unfold e'; lia).
      set (k := e + 51 - e' - 52).
      replace (e + 51 - e') with (k + 52) by (unfold k; lia).
      assert (Hk : 0 <= k) by (unfold k; lia).
      rewrite Z.pow_add_r, Z.mul_assoc by lia.
      rewrite Z.div_mul, Z.mod_mul by lia.
      change (new_location (2 ^ 52) 0) with loc_Exact.
      assert (Hpk : 0 < 2 ^ k) by (apply Z.pow_pos_nonneg; lia).
      destruct (Zpos m * 2 ^ k) as [|q|q] eqn:Eq; try lia.
      assert (Hdq : digits (Zpos q) = digits (Zpos m) + k)
        by (rewrite <- Eq; apply digits_shift; lia).
      destruct (binary_round_aux_exact s q e') as (m' & e'' & -> & Hval).
      * rewrite Hdq. unfold k, e'. lia.
      * rewrite Hdq. unfold k, e'. lia.
      * split; [reflexivity|]. cbn [SFV]. f_equal.
        rewrite Hdq in Hval.
        set (t := Z.max (digits (Zpos m) + k + e' - 53) (-1074)) in *.
        assert (Ht : 0 <= t - e' <= k) by (unfold t, k, e'; lia).
        assert (He'' : e' <= e'').
        { destruct (Z.le_gt_cases e' e'') as [H|H]; [exact H|]. exfalso.
          rewrite Z.pow_neg_r in Hval by lia.
          assert (0 < 2 ^ (t - e')) by (apply Z.pow_pos_nonneg; lia).
          pose proof (rne_div_bounds (Zpos q) (2 ^ (t - e')) H0) as [Hq _].
          assert (0 < Zpos q / 2 ^ (t - e')).
          { apply Z.div_str_pos. split; [lia|]. rewrite <- Eq.
            replace k with ((k - (t - e')) + (t - e')) by lia.
            rewrite Z.pow_add_r by lia.
            assert (0 < 2 ^ (k - (t - e'))) by (apply Z.pow_pos_nonneg; lia).
            assert (1 <= Zpos m * 2 ^ (k - (t - e'))) by nia.
            rewrite Z.mul_assoc. nia. }
          nia. }
        assert (Hexact : rne_div (Zpos q) (2 ^ (t - e')) * 2 ^ (t - e') = Zpos q).
        { rewrite <- Eq.
          replace k with ((k - (t - e')) + (t - e')) by lia.
          rewrite Z.pow_add_r, Z.mul_assoc by lia.
          assert (0 < 2 ^ (t - e')) by (apply Z.pow_pos_nonneg; lia).
          rewrite rne_div_exact by (rewrite ?Z.mod_mul; lia).
          rewrite Z.div_mul by lia. reflexivity. }
        rewrite Hexact in Hval.
        replace (e'' + 1074) with ((e'' - e') + (e' + 1074)) by (unfold e'; lia).
        rewrite Z.pow_add_r, Z.mul_assoc, Hval, <- Eq by (unfold e'; lia).
        replace (e + 1074) with (1 + (k + (e' + 1074))) by (unfold k; lia).
        rewrite (Z.pow_add_r 2 1), (Z.pow_add_r 2 k) by (unfold e'; lia).
        change (2 ^ 1) with 2.
        replace (Zpos m * (2 * (2 ^ k * 2 ^ (e' + 1074))))
          with (2 * (Zpos m * 2 ^ k * 2 ^ (e' + 1074))) by ring.
        rewrite rne_div_even; [reflexivity|].
        assert (0 < 2 ^ (e' + 1074)) by (apply Z.pow_pos_nonneg; unfold e'; lia).
        nia.
Qed.

(** The confidence [_calculate_confidence] computes from a top distance. *)
Definition conf (d : float) : float := py_round2 (py_max 0 (py_min 1 (1 - d / 2))).

(** ** The confidence as a function of the distance *)

(** The float nearest to [n / 100]. *)
Definition centi_float (n : Z) : float :=
  match n with
  | Zpos p => SF2Prim (SFdiv prec emax (S754_finite false p 0) (S754_finite false 100 0))
  | _ => 0%float
  end.

Definition half (v : Z) : Z := signed (fun a => rne_div a 2) v.
Definition one_minus (v : Z) : Z := signed round53 (2 ^ 1074 - v).
Definition clamp_unit (v : Z) : Z := Z.max 0 (Z.min (2 ^ 1074) v).
Definition centi (v : Z) : Z := rne_div (100 * v) (2 ^ 1074).

(** The number of hundredths [_calculate_confidence] returns for a distance. *)
Definition hundredths (x : spec_float) : Z :=
  match x with
  | S754_nan => 100
  | S754_infinity true => 100
  | S754_infinity false => 0
  | _ => centi (clamp_unit (one_minus (half (SFV x))))
  end.

Lemma half_mono a b : a <= b -> half a <= half b.
Proof.
  apply signed_mono; [reflexivity|].
  intros x y H. apply rne_div_mono; lia.
Qed.

Lemma one_minus_anti a b : a <= b -> one_minus b <= one_minus a.
Proof.
  intros H. unfold one_minus.
  apply signed_mono; [reflexivity|apply round53_mono|lia].
Qed.

Lemma clamp_unit_mono a b : a <= b -> clamp_unit a <= clamp_unit b.
Proof. unfold clamp_unit. lia. Qed.

Lemma pow1074_pos : 0 < 2 ^ 1074.
Proof. reflexivity. Qed.

Lemma clamp_unit_range v : 0 <= clamp_unit v <= 2 ^ 1074.
Proof. unfold clamp_unit. pose proof pow1074_pos. lia. Qed.

Lemma centi_mono a b : a <= b -> centi a <= centi b.
Proof. intros H. unfold centi. apply rne_div_mono; [apply pow1074_pos|lia]. Qed.

Lemma centi_0 : centi 0 = 0.
Proof. reflexivity. Qed.

Lemma centi_1 : centi (2 ^ 1074) = 100.
Proof. vm_compute. reflexivity. Qed.

Lemma centi_range v : 0 <= v <= 2 ^ 1074 -> 0 <= centi v <= 100.
Proof.
  intros [H0 H1]. rewrite <- centi_0, <- centi_1.
  split; apply centi_mono; assumption.
Qed.

Lemma hundredths_range x : 0 <= hundredths x <= 100.
Proof.
  destruct x as [s|[|]| |s m e]; cbn [hundredths]; try lia;
    apply centi_range, clamp_unit_range.
Qed.

Lemma hundredths_anti x y :
  valid_binary x = true -> valid_binary y = true ->
  SFleb x y = true -> hundredths y <= hundredths x.
Proof.
  intros Hx Hy Hle. unfold SFleb in Hle.
  assert (Hnx : is_nan_sf x = false) by (destruct x; try reflexivity; discriminate Hle).
  assert (Hny : is_nan_sf y = false)
    by (destruct x, y; try reflexivity; discriminate Hle).
  rewrite (SFcompare_SFV x y Hx Hy Hnx Hny) in Hle.
  assert (Hv : SFV x <= SFV y).
  { destruct (Z.compare_spec (SFV x) (SFV y)); try lia; discriminate Hle. }
  clear Hle.
  assert (Hchain : forall a b, a <= b ->
            centi (clamp_unit (one_minus (half b)))
            <= centi (clamp_unit (one_minus (half a)))).
  { intros a b H. apply centi_mono, clamp_unit_mono, one_minus_anti, half_mono, H. }
  pose proof (hundredths_range x) as Hrx. pose proof (hundredths_range y) as Hry.
  assert (Hfin : forall u, valid_binary u = true -> is_finite_sf u = true ->
            - 2 ^ 2098 < SFV u < 2 ^ 2098).
  { intros u Hu Hfu. destruct u as [s|s| |s m e]; try discriminate Hfu; cbn [SFV].
    - split; reflexivity.
    - pose proof (finite_magnitude _ _ Hu). destruct s; cbn [cond_Zopp]; lia. }
  assert (Hinf : 2 ^ 2098 < 2 ^ 2200) by (apply Z.pow_lt_mono_r; lia).
  assert (Hpos : 0 < 2 ^ 2098) by (apply Z.pow_pos_nonneg; lia).
  set (INF := 2 ^ 2200) in *. set (B := 2 ^ 2098) in *.
  destruct x as [sx|[|]| |sx mx ex]; try discriminate Hnx;
    destruct y as [sy|[|]| |sy my ey]; try discriminate Hny;
    cbn [hundredths] in Hrx, Hry |- *;
    lazymatch goal with
    | |- centi _ <= centi _ => apply Hchain; exact Hv
    | _ =>
        try (pose proof (Hfin _ Hx eq_refl)); try (pose proof (Hfin _ Hy eq_refl));
        cbn [SFV cond_Zopp] in *; lia
    end.
Qed.

Lemma SFltb_SFV x y :
  valid_binary x = true -> valid_binary y = true ->
  is_nan_sf x = false -> is_nan_sf y = false ->
  SFltb x y = (SFV x <? SFV y).
Proof.
  intros Hx Hy Hnx Hny. unfold SFltb, Z.ltb.
  rewrite (SFcompare_SFV x y Hx Hy Hnx Hny). reflexivity.
Qed.

Lemma finite_not_nan x : is_finite_sf x = true -> is_nan_sf x = false.
Proof. destruct x; try reflexivity; discriminate. Qed.

Lemma half_bound x :
  valid_binary x = true -> is_finite_sf x = true ->
  Z.abs (half (SFV x)) <= half_max + 1.
Proof.
  intros Hv Hf.
  assert (Hx : Z.abs (SFV x) <= 2 * half_max).
  { destruct x as [s|s| |s m e]; try discriminate Hf; cbn [SFV].
    - vm_compute. discriminate.
    - cbn [valid_binary] in Hv. pose proof (bounded_inv _ _ Hv) as (He & Hm & _).
      assert (0 < 2 ^ (e + 1074)) by (apply Z.pow_pos_nonneg; lia).
      assert (2 ^ (e + 1074) <= 2 ^ 2045) by (apply Z.pow_le_mono_r; lia).
      replace (2 * half_max) with ((2 ^ 53 - 1) * 2 ^ 2045) by reflexivity.
      destruct s; cbn [cond_Zopp]; rewrite ?Z.abs_opp, Z.abs_eq by lia; nia. }
  assert (Hh : forall a, 0 <= a <= 2 * half_max -> rne_div a 2 <= half_max).
  { intros a Ha. apply Z.le_trans with (rne_div (2 * half_max) 2).
    - apply rne_div_mono; lia.
    - vm_compute. discriminate. }
  assert (Hh0 : forall a, 0 <= a -> 0 <= rne_div a 2).
  { intros a Ha. pose proof (rne_div_bounds a 2 ltac:(lia)).
    assert (0 <= a / 2) by (apply Z.div_pos; lia). lia. }
  unfold half, signed. destruct (Z.ltb_spec (SFV x) 0).
  - pose proof (Hh (- SFV x) ltac:(lia)). pose proof (Hh0 (- SFV x) ltac:(lia)). lia.
  - pose proof (Hh (SFV x) ltac:(lia)). pose proof (Hh0 (SFV x) ltac:(lia)). lia.
Qed.

Lemma Prim2SF_0 : Prim2SF 0 = S754_zero false.
Proof. reflexivity. Qed.
Lemma Prim2SF_1 : Prim2SF 1 = SF_one.
Proof. reflexivity. Qed.
Lemma Prim2SF_2 : Prim2SF 2 = SF_two.
Proof. reflexivity. Qed.

Lemma rne_scale_centi m e :
  Zpos m * 2 ^ (e + 1074) < 2 ^ 1074 -> -1074 <= e ->
  rne_scale (100 * Zpos m) e = centi (Zpos m * 2 ^ (e + 1074)).
Proof.
  intros Hlt He.
  assert (Hp : 0 < 2 ^ (e + 1074)) by (apply Z.pow_pos_nonneg; lia).
  destruct e as [|p|p].
  - exfalso. simpl in Hlt. lia.
  - exfalso.
    assert (2 ^ 1074 <= 2 ^ (Zpos p + 1074)) by (apply Z.pow_le_mono_r; lia). nia.
  - cbn [rne_scale]. unfold centi.
    change (Z.pow_pos 2 p) with (2 ^ Zpos p).
    replace (2 ^ 1074) with (2 ^ Zpos p * 2 ^ (Zneg p + 1074))
      by (rewrite <- Z.pow_add_r by lia; f_equal; lia).
    rewrite Z.mul_assoc.
    apply eq_sym, rne_div_scale; [apply Z.pow_pos_nonneg; lia|exact Hp].
Qed.

(** The confidence is the float nearest to the computed number of hundredths. *)
Lemma conf_hundredths d : conf d = centi_float (hundredths (Prim2SF d)).
Proof.
  unfold conf.
  pose proof (Prim2SF_valid d) as Hvd.
  pose proof (div_spec d 2) as Hdiv. rewrite Prim2SF_2 in Hdiv.
  pose proof (sub_spec 1 (d / 2)) as Hsub. rewrite Prim2SF_1, Hdiv in Hsub.
  unfold SF64div, SF64sub in *.
  pose proof (Prim2SF_valid (d / 2)) as Hvy. rewrite Hdiv in Hvy.
  pose proof (Prim2SF_valid (1 - d / 2)) as Hvz.
  set (z := (1 - d / 2)%float) in *.
  unfold py_min, py_max.
  rewrite (ltb_spec z 1), Prim2SF_1.
  destruct (Prim2SF d) as [s|s| |s m e] eqn:Ed.
  - (* zero *)
    cbn [SFdiv SF_two SFsub SF_one xorb] in Hsub.
    rewrite Hsub. cbn [SFltb SFcompare SF_one]. simpl Z.compare.
    rewrite Pos.compare_cont_refl.
    rewrite (ltb_spec 0 1). reflexivity.
  - (* infinities *)
    cbn [SFdiv SF_two SFsub SF_one xorb] in Hsub. rewrite xorb_false_r in Hsub.
    rewrite Hsub. destruct s; cbn [negb SFltb SFcompare SF_one hundredths].
    + rewrite (ltb_spec 0 1). reflexivity.
    + rewrite (ltb_spec 0 z), Hsub. reflexivity.
  - (* nan *)
    cbn [SFdiv SF_two SFsub SF_one] in Hsub.
    rewrite Hsub. cbn [SFltb SFcompare hundredths].
    rewrite (ltb_spec 0 1). reflexivity.
  - (* finite *)
    destruct (div_two_spec (S754_finite s m e) Hvd eq_refl) as [Hfy HVy].
    pose proof (half_bound (S754_finite s m e) Hvd eq_refl) as Hby.
    fold (half (SFV (S754_finite s m e))) in HVy. rewrite <- HVy in Hby.
    destruct (sub_one_spec _ Hvy Hfy Hby) as [Hfz HVz].
    rewrite <- Hsub in Hfz, HVz. rewrite HVy in HVz.
    fold (one_minus (half (SFV (S754_finite s m e)))) in HVz.
    cbn [hundredths]. rewrite <- HVz. clear HVz HVy Hby Hfy Hsub Hdiv Hvy.
    rewrite SFltb_SFV by (try apply finite_not_nan; auto).
    change (SFV SF_one) with (2 ^ 1074).
    destruct (Z.ltb_spec (SFV (Prim2SF z)) (2 ^ 1074)) as [Hlt1|Hge1].
    + rewrite (ltb_spec 0 z), Prim2SF_0.
      rewrite SFltb_SFV by (try apply finite_not_nan; auto).
      change (SFV (S754_zero false)) with 0.
      destruct (Z.ltb_spec 0 (SFV (Prim2SF z))) as [Hpos|Hneg].
      * (* strictly between 0 and 1 *)
        unfold clamp_unit. rewrite Z.min_r, Z.max_r by lia.
        unfold py_round2.
        destruct (Prim2SF z) as [sz|sz| |sz mz ez];
          [cbn [SFV] in Hpos; lia|discriminate Hfz|discriminate Hfz|].
        cbn [SFV] in Hpos, Hlt1 |- *.
        cbn [valid_binary] in Hvz. pose proof (bounded_inv _ _ Hvz) as (Hez & _ & _).
        assert (0 < 2 ^ (ez + 1074)) by (apply Z.pow_pos_nonneg; lia).
        destruct sz; cbn [cond_Zopp] in *; [lia|].
        rewrite rne_scale_centi by lia.
        destruct (centi _); reflexivity.
      * unfold clamp_unit. rewrite Z.min_r, Z.max_l by lia. reflexivity.
    + rewrite (ltb_spec 0 1).
      unfold clamp_unit. rewrite Z.min_l, Z.max_r by (pose proof pow1074_pos; lia).
      rewrite centi_1. reflexivity.
Qed.

(** The floats nearest to [n / 100] are ordered like the integers [n]. *)
Definition hundred : list Z := List.map Z.of_nat (List.seq 0 101).

Lemma In_hundred n : 0 <= n <= 100 -> List.In n hundred.
Proof.
  intros H. unfold hundred.
  rewrite <- (Z2Nat.id n) by lia.
  apply List.in_map, List.in_seq. lia.
Qed.

Lemma centi_float_mono a b :
  0 <= a <= b -> b <= 100 -> (centi_float a <=? centi_float b)%float = true.
Proof.
  intros Ha Hb.
  assert (Hall :
    List.forallb (fun a => List.forallb (fun b =>
        implb (a <=? b) (centi_float a <=? centi_float b)%float) hundred) hundred
    = true) by (vm_compute; reflexivity).
  rewrite List.forallb_forall in Hall.
  specialize (Hall a (In_hundred a ltac:(lia))).
  rewrite List.forallb_forall in Hall.
  specialize (Hall b (In_hundred b ltac:(lia))).
  replace (a <=? b) with true in Hall by (symmetry; apply Z.leb_le; lia).
  exact Hall.
Qed.

Lemma conf_non_increasing d1 d2 :
  (d1 <=? d2)%float = true -> (conf d2 <=? conf d1)%float = true.
Proof.
  intros H. rewrite leb_spec in H.
  rewrite !conf_hundredths.
  pose proof (hundredths_anti _ _ (Prim2SF_valid d1) (Prim2SF_valid d2) H).
  pose proof (hundredths_range (Prim2SF d1)).
  pose proof (hundredths_range (Prim2SF d2)).
  apply centi_float_mono; lia.
Qed.

End FloatFacts.

(** * Properties of the search gate and of the source list *)

Module GateFacts.
Import WebSearch Pipeline.

(** A retrieved passage that carries only a distance. *)
Definition passage_at (d : float) : KBResult :=
  {| kb_content := None; kb_metadata := None; kb_distance := Some d; kb_id := None |}.

(** C3, as the code has it: the gate fires exactly when there are no results
    or [1 - d/2 < threshold] for the distance [d] of the first result (1.0
    when the result carries none), the value being neither clamped nor
    rounded. It fires on the empty list for every threshold; one result at
    distance 0.4 has confidence 0.8, and the gate is closed for threshold
    0.7 and open for 0.85. *)
Theorem should_use_search_spec :
  (forall results threshold,
     should_use_search results threshold = true <->
     results = [] \/
     exists top rest,
       results = top :: rest /\
       (1 - default 1 (kb_distance top) / 2 <? threshold)%float = true) /\
  (forall threshold, should_use_search [] threshold = true) /\
  (1 - 0.4 / 2 = 0.8)%float /\
  should_use_search [passage_at 0.4] 0.7 = false /\
  should_use_search [passage_at 0.4] 0.85 = true.
Proof.
  split; [|repeat split].
  intros results threshold. destruct results as [|top rest]; simpl.
  - split; [auto|reflexivity].
  - split.
    + intros H. right. exists top, rest. auto.
    + intros [H|(top' & rest' & [= <- <-] & H)]; [discriminate|exact H].
Qed.

(** C3 as stated fails: with one result at distance 3.0 and threshold 0.0
    the gate fires, although the result list is not empty and the clamped
    score [clamp(1 - 3/2, 0, 1) = 0] is not below the threshold. *)
Lemma gate_ignores_clamp :
  should_use_search [passage_at 3] 0 = true /\
  [passage_at 3] <> [] /\
  Spec.distanceToConfidence 3 = 0%float /\
  (Spec.distanceToConfidence 3 <? 0)%float = false.
Proof. repeat split. discriminate. Qed.

(** *** The source list (C5) *)

Lemma fold_left_snoc {A B} (f : A -> B) (xs : list A) (acc : list B) :
  fold_left (fun acc x => acc ++ [f x]) xs acc = acc ++ map f xs.
Proof.
  revert acc. induction xs as [|x xs IH]; intros acc; simpl.
  - rewrite app_nil_r. reflexivity.
  - rewrite IH, <- app_assoc. reflexivity.
Qed.

Lemma py_slice_take {A} (l : list A) (n : nat) :
  py_slice l 0 (Z.of_nat n) = take n l.
Proof.
  unfold py_slice, slice_index, py_len.
  replace (0 <? 0) with false by reflexivity.
  replace (Z.of_nat n <? 0) with false by (symmetry; apply Z.ltb_ge; lia).
  rewrite (Z.min_l 0) by lia.
  change (Z.to_nat (0 - 0)) with 0%nat. change (Z.to_nat 0) with 0%nat.
  rewrite drop_0.
  destruct (Nat.le_gt_cases n (length l)) as [Hle|Hgt].
  - f_equal. lia.
  - rewrite !take_ge by lia. reflexivity.
Qed.

Lemma format_sources_eq kb web :
  _format_sources kb web = map kb_source (take 3 kb) ++ map web_source (take 3 web).
Proof.
  unfold _format_sources.
  rewrite !(py_slice_take _ 3), !fold_left_snoc. reflexivity.
Qed.

(** C5: the source list holds the first [min(3, |kb|)] passages as
    [knowledge_base] sources, in retrieval order and with
    [relevance_score = round(1 - distance/2, 2)], followed by the first
    [min(3, |web|)] web results as [web_search] sources, in input order and
    with the provider's score unchanged; it never has more than 6 entries and
    every [knowledge_base] entry comes before every [web_search] entry. *)
Theorem format_sources_spec (kb : list KBResult) (web : list SourceDict) :
  let srcs := _format_sources kb web in
  let nk := Nat.min 3 (length kb) in
  let nw := Nat.min 3 (length web) in
  length srcs = (nk + nw)%nat /\
  (length srcs <= 6)%nat /\
  (forall i r, (i < 3)%nat -> kb !! i = Some r ->
     srcs !! i =
       Some (knowledge_base
               (LLM.metadata_get r "filename" (VStr (of_string "Unknown")))
               (LLM.metadata_get r "page_number" (VStr (of_string "N/A")))
               (LLM.metadata_get r "chunk_number" (VStr (of_string "N/A")))
               (py_round2 (1 - default 1 (kb_distance r) / 2)%float))) /\
  (forall j s, (j < 3)%nat -> web !! j = Some s ->
     srcs !! (nk + j)%nat =
       Some (web_search (default (of_string "No title") (sd_title s))
               (default [] (sd_url s))
               (default 0%float (sd_score s)))) /\
  (forall i src, srcs !! i = Some src ->
     if decide (i < nk)%nat then source_type src = "knowledge_base"
     else source_type src = "web_search").
Proof.
  cbv zeta. rewrite format_sources_eq.
  assert (Hk : length (map kb_source (take 3 kb)) = Nat.min 3 (length kb))
    by (rewrite length_map, length_take; reflexivity).
  assert (Hw : length (map web_source (take 3 web)) = Nat.min 3 (length web))
    by (rewrite length_map, length_take; reflexivity).
  split; [rewrite length_app; lia|].
  split; [rewrite length_app; lia|].
  split; [|split].
  - intros i r Hi Hr.
    rewrite lookup_app_l by (rewrite Hk; apply lookup_lt_Some in Hr; lia).
    rewrite list_lookup_fmap, lookup_take_lt by exact Hi.
    rewrite Hr. reflexivity.
  - intros j s Hj Hs. rewrite <- Hk.
    rewrite lookup_app_r by lia.
    replace (length (map kb_source (take 3 kb)) + j
             - length (map kb_source (take 3 kb)))%nat with j by lia.
    rewrite list_lookup_fmap, lookup_take_lt by exact Hj.
    rewrite Hs. reflexivity.
  - intros i src Hsrc. rewrite <- Hk. case_decide as Hi.
    + rewrite lookup_app_l in Hsrc by exact Hi.
      rewrite list_lookup_fmap in Hsrc.
      destruct (take 3 kb !! i); [|discriminate].
      injection Hsrc as <-. reflexivity.
    + rewrite lookup_app_r in Hsrc by lia.
      rewrite list_lookup_fmap in Hsrc.
      destruct (take 3 web !! _); [|discriminate].
      injection Hsrc as <-. reflexivity.
Qed.

End GateFacts.

(** * Properties of the orchestrator *)

Module PipelineFacts.
Import WebSearch LLM Pipeline GateFacts.

(** What [WebSearchService.search] returns in a given world. *)
Definition found (w : World) (q : pystr) : list SearchResult :=
  match tavily_client_search w q (max_search_results w) with
  | Ok response =>
      match results response with
      | Some hits => map of_hit hits
      | None => []
      end
  | Raise _ => []
  end.

(** [search] never raises and logs exactly one client call. *)
Lemma search_run w q :
  search w q None = (Ok (found w q), [TavilySearch q (max_search_results w)]).
Proof.
  unfold search, found, try_except, mbind, M_bind, bind, emit, lift, mret, M_ret, ret.
  destruct (tavily_client_search w q (max_search_results w)) as [response|e]; simpl.
  - destruct (results response) as [hits|]; [|reflexivity].
    rewrite fold_left_snoc. reflexivity.
  - reflexivity.
Qed.

Lemma web_source_type l : Forall (fun s => source_type s = "web_search") (map web_source l).
Proof. induction l; constructor; auto. Qed.

Lemma format_sources_no_web kb :
  Forall (fun s => source_type s <> "web_search") (_format_sources kb []).
Proof.
  rewrite format_sources_eq. simpl. rewrite app_nil_r.
  induction (take 3 kb); constructor; auto; discriminate.
Qed.

(** C6: whenever retrieval and generation succeed, [query] returns a
    response whatever the web-search client does; [used_web_search] is true
    exactly when the caller allowed search, the gate fired and the client
    returned at least one result; and when the client raises or returns no
    result, [used_web_search] is false and no source is of type
    [web_search]. *)
Theorem search_failure_is_absorbed (w : World) (q : pystr) (us : bool) (k : Z)
    (thr : float) (kb : list KBResult) :
  vector_store_search w q k = Ok kb ->
  (forall messages, exists a, chat_create w messages = Ok a) ->
  exists resp,
    fst (query w q us k thr) = Ok resp /\
    (used_web_search resp = true <->
       us = true /\ should_use_search kb thr = true /\
       exists response hit hits,
         tavily_client_search w q (max_search_results w) = Ok response /\
         results response = Some (hit :: hits)) /\
    ((exists e, tavily_client_search w q (max_search_results w) = Raise e) \/
     (exists response,
        tavily_client_search w q (max_search_results w) = Ok response /\
        (results response = None \/ results response = Some [])) ->
     used_web_search resp = false /\
     Forall (fun s => source_type s <> "web_search") (sources resp)).
Proof.
  intros Hvs Hllm.
  unfold query, mbind, M_bind, bind, emit, lift, mret, M_ret, ret.
  rewrite Hvs. simpl.
  destruct (us && should_use_search kb thr) eqn:Hgate.
  - rewrite search_run. unfold found.
    destruct (tavily_client_search w q (max_search_results w)) as [response|e] eqn:Ht.
    + destruct (results response) as [[|hit hits]|] eqn:Hres; simpl.
      * unfold LLM.generate_response, mbind, M_bind, bind, emit, lift.
        destruct (Hllm (LLM.create_prompt q kb None)) as [a ->]. simpl.
        eexists. split; [reflexivity|]. simpl. split.
        -- split; [discriminate|]. intros (_ & _ & r' & h & hs & [= <-] & Hr). congruence.
        -- intros _. split; [reflexivity|apply format_sources_no_web].
      * unfold LLM.generate_response, mbind, M_bind, bind, emit, lift.
        match goal with |- context [LLM.create_prompt q kb ?c] =>
          destruct (Hllm (LLM.create_prompt q kb c)) as [a ->] end. simpl.
        eexists. split; [reflexivity|]. simpl. split.
        -- split; [intros _|reflexivity]. apply andb_true_iff in Hgate as [-> ->].
           eauto 10.
        -- intros [[e [=]]|(r' & [= <-] & [Hr|Hr])]; congruence.
      * unfold LLM.generate_response, mbind, M_bind, bind, emit, lift.
        destruct (Hllm (LLM.create_prompt q kb None)) as [a ->]. simpl.
        eexists. split; [reflexivity|]. simpl. split.
        -- split; [discriminate|]. intros (_ & _ & r' & h & hs & [= <-] & Hr). congruence.
        -- intros _. split; [reflexivity|apply format_sources_no_web].
    + simpl. unfold LLM.generate_response, mbind, M_bind, bind, emit, lift.
      destruct (Hllm (LLM.create_prompt q kb None)) as [a ->]. simpl.
      eexists. split; [reflexivity|]. simpl. split.
      * split; [discriminate|]. intros (_ & _ & r' & h & hs & [=] & _).
      * intros _. split; [reflexivity|apply format_sources_no_web].
  - simpl. unfold LLM.generate_response, mbind, M_bind, bind, emit, lift.
    destruct (Hllm (LLM.create_prompt q kb None)) as [a ->]. simpl.
    eexists. split; [reflexivity|]. simpl. split.
    + split; [discriminate|]. intros (-> & Hs & _). simpl in Hgate. congruence.
    + intros _. split; [reflexivity|apply format_sources_no_web].
Qed.

(** A world whose search client always raises. *)
Definition failing_search_world : World :=
  {| vector_store_search := fun _ _ => Ok [passage_at 1.5];
     tavily_client_search := fun _ _ => Raise (of_string "timeout");
     chat_create := fun _ => Ok (of_string "answer");
     chat_create_stream := fun _ => Ok ([Some (of_string "answer")], None);
     max_search_results := 5 |}.

Lemma search_failure_is_absorbed_witness :
  exists resp,
    fst (query failing_search_world (of_string "q") true 5 0.7) = Ok resp /\
    (used_web_search resp = true <->
       true = true /\ should_use_search [passage_at 1.5] 0.7 = true /\
       exists response hit hits,
         tavily_client_search failing_search_world (of_string "q")
           (max_search_results failing_search_world) = Ok response /\
         results response = Some (hit :: hits)) /\
    ((exists e, tavily_client_search failing_search_world (of_string "q")
                  (max_search_results failing_search_world) = Raise e) \/
     (exists response,
        tavily_client_search failing_search_world (of_string "q")
          (max_search_results failing_search_world) = Ok response /\
        (results response = None \/ results response = Some [])) ->
     used_web_search resp = false /\
     Forall (fun s => source_type s <> "web_search") (sources resp)).
Proof.
  apply (search_failure_is_absorbed failing_search_world (of_string "q") true 5
           0.7 [passage_at 1.5]).
  - reflexivity.
  - intros messages. exists (of_string "answer"). reflexivity.
Defined.


(** The search context both paths hand to [create_prompt]. *)
Definition search_context (w : World) (q : pystr) (us : bool) (thr : float)
    (kb : list KBResult) : option pystr :=
  if us && should_use_search kb thr then
    match found w q with
    | [] => None
    | rs => Some (format_search_results_for_context rs)
    end
  else None.

Definition retrieval_events (w : World) (q : pystr) (us : bool) (k : Z)
    (thr : float) (kb : list KBResult) : list Event :=
  VectorSearch q k ::
  (if us && should_use_search kb thr
   then [TavilySearch q (max_search_results w)] else []).

Definition is_yield (ev : Event) : Prop :=
  match ev with Yield _ => True | _ => False end.

Lemma for_each_yields (deltas : list (option pystr)) :
  exists ys,
    for_each deltas
      (fun delta => match delta with
                    | Some fragment => emit (Yield fragment)
                    | None => mret tt
                    end) = (Ok tt, ys) /\
    Forall is_yield ys.
Proof.
  induction deltas as [|d ds (ys & IH & Hys)]; simpl.
  - exists []. split; [reflexivity|constructor].
  - unfold mbind, M_bind, bind. rewrite IH. destruct d as [f|]; simpl.
    + eexists. split; [reflexivity|]. constructor; [exact Logic.I|exact Hys].
    + eexists. split; [reflexivity|]. exact Hys.
Qed.

Lemma query_trace w q us k thr :
  snd (query w q us k thr) =
  match vector_store_search w q k with
  | Ok kb =>
      retrieval_events w q us k thr kb
        ++ [ChatCreate (create_prompt q kb (search_context w q us thr kb)) false]
  | Raise _ => [VectorSearch q k]
  end.
Proof.
  unfold query, retrieval_events, search_context,
    mbind, M_bind, bind, emit, lift, mret, M_ret, ret.
  destruct (vector_store_search w q k) as [kb|e]; [|reflexivity]. simpl.
  destruct (us && should_use_search kb thr).
  - rewrite search_run.
    destruct (found w q) as [|r rs]; simpl;
      unfold generate_response, mbind, M_bind, bind, emit, lift;
      match goal with |- context [chat_create w ?m] =>
        destruct (chat_create w m) end; reflexivity.
  - simpl. unfold generate_response, mbind, M_bind, bind, emit, lift.
    destruct (chat_create w _); reflexivity.
Qed.

Lemma query_stream_trace w q us k thr :
  exists ys,
    Forall is_yield ys /\
    snd (query_stream w q us k thr) =
    match vector_store_search w q k with
    | Ok kb =>
        retrieval_events w q us k thr kb
          ++ ChatCreate (create_prompt q kb (search_context w q us thr kb)) true
          :: ys
    | Raise _ => [VectorSearch q k]
    end.
Proof.
  unfold query_stream, retrieval_events, search_context,
    mbind at 1 2 3, M_bind, bind, emit, lift, mret, M_ret, ret.
  destruct (vector_store_search w q k) as [kb|e];
    [|exists []; split; [constructor|reflexivity]]. simpl.
  assert (Hgen : forall ctx, exists ys, Forall is_yield ys /\
            snd (generate_response_stream w q kb ctx)
            = ChatCreate (create_prompt q kb ctx) true :: ys).
  { intros ctx. unfold generate_response_stream, mbind, M_bind, bind.
    change (emit (ChatCreate (create_prompt q kb ctx) true))
      with (Ok tt, [ChatCreate (create_prompt q kb ctx) true]).
    unfold lift. cbv iota beta.
    destruct (chat_create_stream w _) as [[deltas final]|e]; simpl.
    - destruct (for_each_yields deltas) as (ys & -> & Hys).
      exists ys. split; [exact Hys|].
      destruct final; simpl; rewrite ?app_nil_r; reflexivity.
    - exists []. split; [constructor|reflexivity]. }
  destruct (us && should_use_search kb thr).
  - rewrite search_run. unfold mbind, M_bind, bind.
    destruct (found w q) as [|r rs]; simpl.
    + destruct (Hgen None) as (ys & Hys & E). exists ys. split; [exact Hys|].
      destruct (generate_response_stream w q kb None). simpl in *. congruence.
    + destruct (Hgen (Some (format_search_results_for_context (r :: rs))))
        as (ys & Hys & E). exists ys. split; [exact Hys|].
      destruct (generate_response_stream w q kb _). simpl in *. congruence.
  - simpl. destruct (Hgen None) as (ys & Hys & E). exists ys. split; [exact Hys|].
    destruct (generate_response_stream w q kb None). simpl in *. congruence.
Qed.

Lemma generation_prompts_yields ys : Forall is_yield ys -> generation_prompts ys = [].
Proof.
  induction 1 as [|ev ys Hev _ IH]; [reflexivity|].
  destruct ev; try contradiction. exact IH.
Qed.

Lemma collaborator_calls_yields ys : Forall is_yield ys -> collaborator_calls ys = [].
Proof.
  induction 1 as [|ev ys Hev _ IH]; [reflexivity|].
  destruct ev; try contradiction. exact IH.
Qed.

(** C9: in the same world and on the same arguments, [query] and
    [query_stream] hand the generation service the same prompt messages and
    make the same collaborator calls in the same order; they differ in the
    [stream] flag of the generation call and in the fragments handed on.
    When retrieval succeeds each path makes exactly one generation call. *)
Theorem streaming_builds_same_prompt (w : World) (q : pystr) (us : bool) (k : Z)
    (thr : float) :
  generation_prompts (snd (query w q us k thr))
    = generation_prompts (snd (query_stream w q us k thr)) /\
  collaborator_calls (snd (query w q us k thr))
    = collaborator_calls (snd (query_stream w q us k thr)) /\
  match vector_store_search w q k with
  | Ok kb =>
      exists ctx,
        generation_prompts (snd (query w q us k thr)) = [create_prompt q kb ctx]
  | Raise _ => generation_prompts (snd (query w q us k thr)) = []
  end.
Proof.
  destruct (query_stream_trace w q us k thr) as (ys & Hys & ->).
  rewrite query_trace.
  destruct (vector_store_search w q k) as [kb|e]; [|auto].
  unfold retrieval_events, generation_prompts, collaborator_calls.
  rewrite !omap_app.
  destruct (us && should_use_search kb thr); simpl;
    fold (generation_prompts ys); fold (collaborator_calls ys);
    rewrite generation_prompts_yields, collaborator_calls_yields by exact Hys;
    eauto.
Qed.

End PipelineFacts.

(** * Properties of the confidence score *)

Module ScorerFacts.
Import WebSearch Pipeline GateFacts.

(** The float nearest to [n / 100], as a division of floats. *)
Definition of_hundredths (n : Z) : float :=
  (PrimFloat.of_uint63 (Uint63.of_Z n) / 100)%float.

Lemma centi_float_of_hundredths n :
  0 <= n <= 100 -> FloatFacts.centi_float n = of_hundredths n.
Proof.
  intros Hn.
  assert (Hall :
    List.forallb
      (fun n => PrimFloat.Leibniz.eqb (FloatFacts.centi_float n) (of_hundredths n))
      FloatFacts.hundred = true) by (vm_compute; reflexivity).
  rewrite List.forallb_forall in Hall.
  apply FloatAxioms.Leibniz.eqb_spec, Hall, FloatFacts.In_hundred, Hn.
Qed.

Lemma calculate_confidence_conf top rest :
  _calculate_confidence (top :: rest)
  = FloatFacts.conf (default 2%float (kb_distance top)).
Proof. reflexivity. Qed.

(** C4: for a non-empty retrieval list whose first result has distance [d],
    the confidence is [round(clamp(1 - d/2, 0, 1), 2)]; it does not increase
    when the distance grows; it is 1.0 at distance 0 and 0.0 at distances 2
    and 3; and every confidence returned is one of the 101 floats
    [n / 100], [0 <= n <= 100], that is, a value rounded to two decimals. *)
Theorem calculate_confidence_spec :
  (forall top rest d,
     kb_distance top = Some d ->
     _calculate_confidence (top :: rest) = py_round2 (Spec.distanceToConfidence d)) /\
  (forall top1 rest1 top2 rest2 d1 d2,
     kb_distance top1 = Some d1 -> kb_distance top2 = Some d2 ->
     (d1 <=? d2)%float = true ->
     (_calculate_confidence (top2 :: rest2)
        <=? _calculate_confidence (top1 :: rest1))%float = true) /\
  _calculate_confidence [passage_at 0] = 1%float /\
  _calculate_confidence [passage_at 2] = 0%float /\
  _calculate_confidence [passage_at 3] = 0%float /\
  (forall kb_results,
     exists n, 0 <= n <= 100 /\ _calculate_confidence kb_results = of_hundredths n).
Proof.
  split; [|split; [|split; [|split; [|split]]]].
  - intros top rest d Hd. cbn [_calculate_confidence]. rewrite Hd. reflexivity.
  - intros top1 rest1 top2 rest2 d1 d2 H1 H2 Hle.
    rewrite !calculate_confidence_conf, H1, H2.
    apply FloatFacts.conf_non_increasing, Hle.
  - vm_compute. reflexivity.
  - vm_compute. reflexivity.
  - vm_compute. reflexivity.
  - intros [|top rest].
    + exists 0. split; [lia|]. vm_compute. reflexivity.
    + rewrite calculate_confidence_conf, FloatFacts.conf_hundredths.
      pose proof (FloatFacts.hundredths_range
                    (Prim2SF (default 2%float (kb_distance top)))) as Hr.
      eexists. split; [exact Hr|].
      apply centi_float_of_hundredths, Hr.
Qed.

End ScorerFacts.

(** * Further properties of the chunker *)

Module ChunkerLaws.
Import Chunker ChunkerFacts.

(** A small configuration and a text with one sentence boundary, for the
    examples. *)
Definition small_settings : Settings := {| chunk_size := 10; chunk_overlap := 2 |}.
Definition sample_text : pystr := of_string "aaaaaa.aaaaaaaaaaaa".
Definition sample_metadata : pydict :=
  <["filename" := VStr (of_string "guide.pdf")]> ∅.

(** Document metadata that already use the keys [chunk_text] writes. *)
Definition clashing_metadata : pydict :=
  <["chunk_number" := VInt 99]>
    (<["start_char" := VStr (of_string "n/a")]>
       (<["filename" := VStr (of_string "guide.pdf")]> ∅)).

(** A text whose second and third window hold nothing but spaces. *)
Definition padded_text : pystr := of_string "aaaaaaaa            ".

(** *** Decimal rendering of integers *)

Lemma of_string_inj s1 s2 : of_string s1 = of_string s2 -> s1 = s2.
Proof.
  revert s2. induction s1 as [|a s1 IH]; intros [|b s2]; simpl; try discriminate.
  - reflexivity.
  - intros [= Hab Hs]. f_equal; [|apply IH, Hs].
    unfold of_ascii in Hab.
    rewrite <- (ascii_N_embedding a), <- (ascii_N_embedding b), Hab. reflexivity.
Qed.

Lemma to_int_proper z : Z.to_int z <> Decimal.Pos Decimal.Nil /\
                        Z.to_int z <> Decimal.Neg Decimal.Nil.
Proof.
  destruct z as [|p|p]; simpl; split; try discriminate;
    intros [= H]; exact (DecimalPos.Unsigned.to_uint_nonnil p H).
Qed.

Lemma py_str_of_int_inj a b : py_str_of_int a = py_str_of_int b -> a = b.
Proof.
  unfold py_str_of_int. intros H. apply of_string_inj in H.
  apply DecimalZ.to_int_inj.
  destruct (to_int_proper a) as [Ha1 Ha2]. destruct (to_int_proper b) as [Hb1 Hb2].
  pose proof (NilZero.isi _ Ha1 Ha2) as Ea.
  pose proof (NilZero.isi _ Hb1 Hb2) as Eb.
  rewrite H in Ea. congruence.
Qed.

Section Returned.

Variable self : Settings.
Variable text : pystr.
Variable md : pydict.

(** The [i]-th chunk of a chain is the one built in the [i]-th iteration. *)
Lemma chain_lookup a n l b (i : nat) c :
  chain self text md a n l b -> l !! i = Some c ->
  exists x, x < text_length text /\
    c = make_chunk self text md x (n + Z.of_nat i).
Proof.
  revert a n i. induction l as [|d l IH]; intros a n i; simpl.
  - intros _ Hi. discriminate.
  - intros (Hlt & -> & Hl) Hi. destruct i as [|i]; simpl in Hi.
    + injection Hi as <-. exists a. rewrite Z.add_0_r. auto.
    + destruct (IH _ _ _ Hl Hi) as (x & Hx & ->).
      exists x. split; [exact Hx|]. f_equal. lia.
Qed.

Lemma chunk_id_make_chunk a n :
  chunk_id (make_chunk self text md a n) =
  py_str (dict_get md "filename" (VStr (of_string "unknown")))
    ++ of_string "_" ++ py_str_of_int n.
Proof. unfold make_chunk. destruct (cut self text a). reflexivity. Qed.

Lemma metadata_make_chunk a n key :
  key <> "chunk_number" -> key <> "start_char" -> key <> "end_char" ->
  metadata (make_chunk self text md a n) !! key = md !! key.
Proof.
  intros H1 H2 H3. unfold make_chunk. destruct (cut self text a). simpl.
  rewrite !lookup_insert_ne by congruence. reflexivity.
Qed.

(** The three entries [chunk_text] writes into the metadata of a chunk. *)
Lemma metadata_keys_make_chunk a n :
  metadata (make_chunk self text md a n) !! "chunk_number" = Some (VInt n) /\
  metadata (make_chunk self text md a n) !! "start_char" = Some (VInt a) /\
  metadata (make_chunk self text md a n) !! "end_char"
    = Some (VInt (snd (cut self text a))).
Proof.
  unfold make_chunk. destruct (cut self text a) as [w e]. simpl.
  split; [|split].
  - rewrite !lookup_insert_ne by done. apply lookup_insert_eq.
  - rewrite lookup_insert_ne by done. apply lookup_insert_eq.
  - apply lookup_insert_eq.
Qed.

(** The first chunk of a chain is cut at the start of the chain. *)
Lemma chain_head a n l b c :
  chain self text md a n l b -> l !! 0%nat = Some c ->
  c = make_chunk self text md a n.
Proof.
  destruct l as [|d l]; simpl; [discriminate|].
  intros (_ & -> & _) [= <-]. reflexivity.
Qed.

(** Consecutive chunks of a chain: the second is cut where the loop moved
    [start] after the first. *)
Lemma chain_succ a n l b (i : nat) c c' :
  chain self text md a n l b -> l !! i = Some c -> l !! S i = Some c' ->
  exists x,
    c = make_chunk self text md x (n + Z.of_nat i) /\
    c' = make_chunk self text md (snd (cut self text x) - chunk_overlap self)
           (n + Z.of_nat (S i)).
Proof.
  intros Hch Hi Hi'.
  destruct (chain_adjacent self text md (fun _ => True) (fun _ _ _ => Logic.I)
              a n l b i c c' Logic.I Hch Hi Hi') as (x & m & _ & _ & Hc & Hc').
  destruct (chain_lookup a n l b i c Hch Hi) as (y & _ & Hy).
  assert (Hm : m = n + Z.of_nat i).
  { pose proof (chunk_number_make_chunk self text md x m) as H1.
    pose proof (chunk_number_make_chunk self text md y (n + Z.of_nat i)) as H2.
    rewrite <- Hc in H1. rewrite <- Hy in H2. congruence. }
  exists x. subst m. split; [exact Hc|].
  rewrite Hc'. f_equal. lia.
Qed.

(** The loop goes on as long as [start] lies inside the text: a chunk whose
    successor would start inside the text is not the last one of a chain that
    reaches the end of the text. *)
Lemma chain_emits a n l b (i : nat) x m :
  chain self text md a n l b -> text_length text <= b ->
  l !! i = Some (make_chunk self text md x m) ->
  snd (cut self text x) - chunk_overlap self < text_length text ->
  is_Some (l !! S i).
Proof.
  revert a n i. induction l as [|d l IH]; intros a n i; simpl.
  - intros _ _ Hi. discriminate.
  - intros (Hlt & -> & Hl) Hb Hi Hnext. destruct i as [|i]; simpl in Hi.
    + injection Hi as Hi.
      assert (Hx : a = x).
      { pose proof (span_make_chunk self text md a n) as H1.
        rewrite Hi, span_make_chunk in H1. congruence. }
      subst x. destruct l as [|d' l]; [|simpl; eauto].
      simpl in Hl. lia.
    + simpl. apply (IH _ _ i Hl Hb Hi Hnext).
Qed.

End Returned.

(** X1: the chunks [chunk_text] returns are numbered 0, 1, 2, ... in list
    order; the [i]-th chunk has [chunk_id = f"{filename}_{i}"], where
    [filename] is the document's metadata entry (["unknown"] when there is
    none); and no two chunks of one call share a [chunk_id]. *)
Theorem chunk_ids_number_the_chunks (self : Settings) (text : pystr) (md : pydict)
    (r : list DocumentChunk) :
  chunk_text_returns self text md r ->
  (forall (i : nat) c, r !! i = Some c ->
     chunk_number c = Some (VInt (Z.of_nat i)) /\
     chunk_id c =
       py_str (dict_get md "filename" (VStr (of_string "unknown")))
         ++ of_string "_" ++ py_str_of_int (Z.of_nat i)) /\
  NoDup (chunk_id <$> r).
Proof.
  intros Hr. destruct (returns_chain _ _ _ _ Hr) as (b & Hch & _).
  assert (Hi : forall (i : nat) c, r !! i = Some c ->
            chunk_number c = Some (VInt (Z.of_nat i)) /\
            chunk_id c =
              py_str (dict_get md "filename" (VStr (of_string "unknown")))
                ++ of_string "_" ++ py_str_of_int (Z.of_nat i)).
  { intros i c Hc.
    destruct (chain_lookup self text md 0 0 r b i c Hch Hc) as (x & _ & ->).
    rewrite chunk_number_make_chunk, chunk_id_make_chunk. auto. }
  split; [exact Hi|].
  apply NoDup_alt. intros i j s Hs1 Hs2.
  rewrite list_lookup_fmap in Hs1, Hs2.
  destruct (r !! i) as [ci|] eqn:Ei; [|discriminate].
  destruct (r !! j) as [cj|] eqn:Ej; [|discriminate].
  injection Hs1 as Hs1. injection Hs2 as Hs2.
  destruct (Hi _ _ Ei) as [_ Hidi]. destruct (Hi _ _ Ej) as [_ Hidj].
  rewrite Hidi in Hs1. rewrite Hidj in Hs2. rewrite <- Hs2 in Hs1.
  apply app_inv_head, app_inv_head, py_str_of_int_inj in Hs1. lia.
Qed.

Lemma chunk_ids_number_the_chunks_witness :
  exists r,
    chunk_text_returns small_settings sample_text sample_metadata r /\
    (forall (i : nat) c, r !! i = Some c ->
       chunk_number c = Some (VInt (Z.of_nat i)) /\
       chunk_id c =
         py_str (dict_get sample_metadata "filename" (VStr (of_string "unknown")))
           ++ of_string "_" ++ py_str_of_int (Z.of_nat i)) /\
    NoDup (chunk_id <$> r).
Proof.
  eexists. split.
  - exists 3%nat. vm_compute. reflexivity.
  - apply (chunk_ids_number_the_chunks small_settings sample_text sample_metadata).
    exists 3%nat. vm_compute. reflexivity.
Defined.

(** X2: the [i]-th chunk [chunk_text] returns carries the document's
    metadata unchanged under every key other than [chunk_number],
    [start_char] and [end_char]; under these three keys it holds, whatever
    the document's metadata had there, its own integers: [chunk_number] is
    its position [i] in the list; [start_char] is the position [start] at
    which its window was cut (0 for the first chunk, and for every other
    chunk the [end_char] of its predecessor less [chunk_overlap]);
    [end_char] is the position [end] the cut of that window stopped at; and
    the content of the chunk is the stripped text of that cut. *)
Theorem chunk_metadata_extends_document (self : Settings) (text : pystr)
    (md : pydict) (r : list DocumentChunk) :
  chunk_text_returns self text md r ->
  forall (i : nat) c, r !! i = Some c ->
    (forall key : string,
       key <> "chunk_number" -> key <> "start_char" -> key <> "end_char" ->
       metadata c !! key = md !! key) /\
    exists start,
      metadata c !! "chunk_number" = Some (VInt (Z.of_nat i)) /\
      metadata c !! "start_char" = Some (VInt start) /\
      metadata c !! "end_char" = Some (VInt (snd (cut self text start))) /\
      content c = py_strip (fst (cut self text start)) /\
      match i with
      | O => start = 0
      | S j =>
          exists c0 end0,
            r !! j = Some c0 /\
            metadata c0 !! "end_char" = Some (VInt end0) /\
            start = end0 - chunk_overlap self
      end.
Proof.
  intros Hr i c Hc. destruct (returns_chain _ _ _ _ Hr) as (b & Hch & _).
  assert (Hshape : exists start,
            c = make_chunk self text md start (Z.of_nat i) /\
            match i with
            | O => start = 0
            | S j =>
                exists c0 end0,
                  r !! j = Some c0 /\
                  metadata c0 !! "end_char" = Some (VInt end0) /\
                  start = end0 - chunk_overlap self
            end).
  { destruct i as [|j].
    - exists 0. split; [|reflexivity].
      exact (chain_head self text md 0 0 r b c Hch Hc).
    - destruct (r !! j) as [c0|] eqn:Hj.
      2:{ apply lookup_ge_None in Hj. apply lookup_lt_Some in Hc. lia. }
      destruct (chain_succ self text md 0 0 r b j c0 c Hch Hj Hc)
        as (x & -> & ->).
      exists (snd (cut self text x) - chunk_overlap self).
      split; [reflexivity|].
      exists (make_chunk self text md x (0 + Z.of_nat j)), (snd (cut self text x)).
      split; [reflexivity|]. split; [|reflexivity].
      apply metadata_keys_make_chunk. }
  destruct Hshape as (start & -> & Hstart). split.
  - intros key H1 H2 H3. apply metadata_make_chunk; assumption.
  - exists start.
    destruct (metadata_keys_make_chunk self text md start (Z.of_nat i))
      as (Hn & Hs & He).
    rewrite content_make_chunk. auto 10.
Qed.

(** The run on [sample_text] under metadata that hold [chunk_number = 99]
    and a string under [start_char]: the three chunks record the numbers 0,
    1, 2 and the ranges [[0, 7)], [[5, 15)], [[13, 23)]. *)
Lemma chunk_metadata_extends_document_witness :
  exists c0 c1 c2,
    chunk_text_returns small_settings sample_text clashing_metadata [c0; c1; c2] /\
    clashing_metadata !! "chunk_number" = Some (VInt 99) /\
    metadata c1 !! "filename" = Some (VStr (of_string "guide.pdf")) /\
    metadata c1 !! "chunk_number" = Some (VInt 1) /\
    metadata c1 !! "start_char" = Some (VInt 5) /\
    metadata c1 !! "end_char" = Some (VInt 15) /\
    metadata c0 !! "end_char" = Some (VInt 7) /\
    (forall key : string,
       key <> "chunk_number" -> key <> "start_char" -> key <> "end_char" ->
       metadata c1 !! key = clashing_metadata !! key) /\
    exists start,
      metadata c1 !! "chunk_number" = Some (VInt (Z.of_nat 1)) /\
      metadata c1 !! "start_char" = Some (VInt start) /\
      metadata c1 !! "end_char"
        = Some (VInt (snd (cut small_settings sample_text start))) /\
      content c1 = py_strip (fst (cut small_settings sample_text start)) /\
      exists c end0,
        [c0; c1; c2] !! 0%nat = Some c /\
        metadata c !! "end_char" = Some (VInt end0) /\
        start = end0 - chunk_overlap small_settings.
Proof.
  eexists _, _, _. split; [exists 3%nat; vm_compute; reflexivity|].
  do 6 (split; [vm_compute; reflexivity|]).
  match goal with
  | |- context [ ?r !! 0%nat ] =>
      apply (chunk_metadata_extends_document small_settings sample_text
               clashing_metadata r) with (i := 1%nat)
  end.
  - exists 3%nat. vm_compute. reflexivity.
  - reflexivity.
Defined.

(** *** How far one iteration moves the window *)

Section Steps.

Variable self : Settings.
Variable text : pystr.
Variable md : pydict.

#[local] Abbreviation next a := (snd (cut self text a) - chunk_overlap self).
#[local] Abbreviation len := (text_length text).

(** An untrimmed window moves [start] by [chunk_size - chunk_overlap]; a
    trimmed one keeps more than half a chunk, so it moves [start] by at
    least [chunk_size / 2 + 2 - chunk_overlap]. *)
Lemma next_bounds a :
  0 <= chunk_size self ->
  a + Z.min (chunk_size self - chunk_overlap self)
            (chunk_size self / 2 + 2 - chunk_overlap self) <= next a
  /\ next a <= a + (chunk_size self - chunk_overlap self).
Proof.
  intros Hcs. destruct (cut_end_cases self text a) as [->|(Hend & Hbp & ->)].
  - lia.
  - pose proof (break_point_bounds (py_slice text a (a + chunk_size self))) as Hb.
    rewrite py_len_slice in Hb.
    assert (Hw : Z.max 0 (slice_index (py_len text) (a + chunk_size self)
                          - slice_index (py_len text) a) <= chunk_size self).
    { pose proof (py_len_nonneg text). unfold slice_index.
      destruct (Z.ltb_spec a 0); destruct (Z.ltb_spec (a + chunk_size self) 0); lia. }
    split; [Z.div_mod_to_equations; lia|lia].
Qed.

Lemma chain_steps lo hi a n l b :
  0 < lo ->
  (forall x, x + lo <= next x <= x + hi) ->
  chain self text md a n l b ->
  b <= a + py_len l * hi /\
  (l <> [] -> a + (py_len l - 1) * lo < len).
Proof.
  intros Hlo Hstep. revert a n. induction l as [|c l IH]; intros a n; simpl.
  - intros <-. unfold py_len. simpl. split; [lia|congruence].
  - intros (Hlt & _ & Hl). destruct (IH _ _ Hl) as [Hb Hlast].
    pose proof (Hstep a) as Ha.
    unfold py_len in *. simpl length. split; [nia|]. intros _.
    destruct l as [|d l]; [simpl; lia|].
    specialize (Hlast ltac:(discriminate)). simpl length in *. nia.
Qed.

End Steps.

(** X3: under a configuration with [0 < chunk_overlap < chunk_size] and
    [chunk_overlap <= chunk_size / 2 + 1], every iteration moves [start] by
    at least [min(chunk_size - chunk_overlap, chunk_size / 2 + 2 - chunk_overlap)]
    and at most [chunk_size - chunk_overlap] characters, so the number of
    chunks lies between the text length divided (rounding up) by the widest
    and by the narrowest step. *)
Theorem chunk_count_bounds (self : Settings) (text : pystr) (md : pydict)
    (r : list DocumentChunk) :
  well_formed self -> overlap_within_half self ->
  chunk_text_returns self text md r ->
  let widest := chunk_size self - chunk_overlap self in
  let narrowest := Z.min widest (chunk_size self / 2 + 2 - chunk_overlap self) in
  0 < narrowest <= widest /\
  (text_length text + widest - 1) / widest <= py_len r /\
  py_len r <= (text_length text + narrowest - 1) / narrowest.
Proof.
  intros Hwf Hhalf Hr. cbv zeta.
  set (hi := chunk_size self - chunk_overlap self).
  set (lo := Z.min hi (chunk_size self / 2 + 2 - chunk_overlap self)).
  assert (Hlo : 0 < lo <= hi).
  { unfold lo, hi. unfold well_formed, overlap_within_half in *. lia. }
  split; [exact Hlo|].
  destruct (returns_chain _ _ _ _ Hr) as (b & Hch & Hb).
  destruct (chain_steps self text md lo hi 0 0 r b) as [Hup Hlast];
    [lia|intros x; apply next_bounds; unfold well_formed in Hwf; lia|exact Hch|].
  pose proof (py_len_nonneg r) as Hn.
  split.
  - assert ((text_length text + hi - 1) / hi < py_len r + 1); [|lia].
    apply Z.div_lt_upper_bound; nia.
  - destruct r as [|c r].
    + unfold py_len at 1. simpl length.
      apply Z.div_le_lower_bound; [lia|]. pose proof (py_len_nonneg text).
      unfold text_length. lia.
    + specialize (Hlast ltac:(discriminate)).
      apply Z.div_le_lower_bound; [lia|]. nia.
Qed.

Lemma chunk_count_bounds_witness :
  let widest := chunk_size default_settings - chunk_overlap default_settings in
  let narrowest :=
    Z.min widest (chunk_size default_settings / 2 + 2 - chunk_overlap default_settings) in
  0 < narrowest <= widest /\
  (text_length (of_string "One. Two.") + widest - 1) / widest
    <= py_len [make_chunk default_settings (of_string "One. Two.") ∅ 0 0] /\
  py_len [make_chunk default_settings (of_string "One. Two.") ∅ 0 0]
    <= (text_length (of_string "One. Two.") + narrowest - 1) / narrowest.
Proof.
  apply (chunk_count_bounds default_settings (of_string "One. Two.") ∅).
  - unfold well_formed. simpl. lia.
  - apply Z.leb_le. reflexivity.
  - exists 1%nat. vm_compute. reflexivity.
Defined.

(** *** Texts without a sentence boundary *)

Definition boundary_free (w : pystr) : bool :=
  forallb (fun c => negb (N.eqb c dot) && negb (N.eqb c newline)) w.

Lemma boundary_free_spec w : boundary_free w = true -> no_boundary w.
Proof.
  unfold boundary_free, no_boundary, is_boundary. intros H c Hc.
  rewrite forallb_forall in H. apply list_elem_of_In in Hc.
  specialize (H c Hc). apply andb_true_iff in H as [H1 H2].
  apply negb_true_iff, N.eqb_neq in H1, H2. tauto.
Qed.

Lemma no_boundary_slice (w : pystr) a b : no_boundary w -> no_boundary (py_slice w a b).
Proof.
  unfold no_boundary, py_slice. intros H c Hc. apply H.
  apply elem_of_take in Hc as (i & Hi & _).
  rewrite lookup_drop in Hi. eapply list_elem_of_lookup_2. exact Hi.
Qed.

Lemma cut_unbroken (self : Settings) (text : pystr) a :
  0 <= chunk_size self -> no_boundary text ->
  cut self text a = (py_slice text a (a + chunk_size self), a + chunk_size self).
Proof.
  intros Hcs Hno. rewrite cut_spec. cbv zeta.
  destruct (break_point_spec (py_slice text a (a + chunk_size self)))
    as [[-> _]|Hlast].
  - unfold past_half.
    replace (chunk_size self <? 2 * -1) with false
      by (symmetry; apply Z.ltb_ge; lia).
    rewrite andb_false_r. reflexivity.
  - destruct (no_boundary_last _ _ (no_boundary_slice text _ _ Hno) Hlast).
Qed.

Lemma chain_unbroken (self : Settings) (text : pystr) (md : pydict) a n l b :
  0 <= chunk_size self -> no_boundary text ->
  chain self text md a n l b ->
  let step := chunk_size self - chunk_overlap self in
  b = a + py_len l * step /\
  forall (i : nat) c, l !! i = Some c ->
    a + Z.of_nat i * step < text_length text /\
    c = make_chunk self text md (a + Z.of_nat i * step) (n + Z.of_nat i).
Proof.
  intros Hcs Hno. cbv zeta. revert a n. induction l as [|d l IH]; intros a n; simpl.
  - intros <-. unfold py_len. simpl. split; [lia|]. intros i c Hi. discriminate.
  - intros (Hlt & -> & Hl). rewrite (cut_unbroken self text a Hcs Hno) in Hl.
    simpl in Hl. destruct (IH _ _ Hl) as [Hb Hi].
    unfold py_len in *. simpl length. split; [lia|].
    intros [|i] c Hc; simpl in Hc.
    + injection Hc as <-. change (Z.of_nat 0) with 0.
      rewrite Z.mul_0_l, !Z.add_0_r. auto.
    + destruct (Hi i c Hc) as [Hlt' ->].
      replace (a + Z.of_nat (S i) * (chunk_size self - chunk_overlap self))
        with (a + chunk_size self - chunk_overlap self
              + Z.of_nat i * (chunk_size self - chunk_overlap self)) by lia.
      split; [exact Hlt'|]. f_equal. lia.
Qed.

(** X4: for a text without ['.'] and newline, and [0 < chunk_overlap <
    chunk_size], [chunk_text] returns exactly
    [ceil(len(text) / (chunk_size - chunk_overlap))] chunks; the [i]-th one
    records the range [[i * step, i * step + chunk_size)] with
    [step = chunk_size - chunk_overlap] and holds the stripped slice of that
    range. *)
Theorem unbroken_text_layout (self : Settings) (text : pystr) (md : pydict) :
  well_formed self -> no_boundary text ->
  let step := chunk_size self - chunk_overlap self in
  exists r,
    chunk_text_returns self text md r /\
    py_len r = (text_length text + step - 1) / step /\
    forall (i : nat) c, r !! i = Some c ->
      span c = Some (Z.of_nat i * step, Z.of_nat i * step + chunk_size self) /\
      content c =
        py_strip (py_slice text (Z.of_nat i * step)
                    (Z.of_nat i * step + chunk_size self)).
Proof.
  intros Hwf Hno. cbv zeta.
  assert (Hcs : 0 <= chunk_size self) by (unfold well_formed in Hwf; lia).
  assert (Hstep : 0 < chunk_size self - chunk_overlap self)
    by (unfold well_formed in Hwf; lia).
  destruct (loop_terminates self text md (Z.to_nat (text_length text)) init)
    as [r Hr].
  { intros a. rewrite (cut_unbroken self text a Hcs Hno). simpl. lia. }
  { simpl. unfold text_length, py_len. lia. }
  exists r. split; [eexists; exact Hr|].
  destruct (loop_inv self text md _ _ r (inv_init self text md) Hr) as (b & Hch & Hb).
  destruct (chain_unbroken self text md 0 0 r b Hcs Hno Hch) as [Hbe Hi].
  set (step := chunk_size self - chunk_overlap self) in *.
  split.
  - pose proof (py_len_nonneg r) as Hn.
    apply Z.le_antisymm.
    + destruct r as [|c r].
      * unfold py_len at 1. simpl length.
        apply Z.div_le_lower_bound; [lia|]. pose proof (py_len_nonneg text).
        unfold text_length. lia.
      * destruct ((c :: r) !! length r) as [x|] eqn:E;
          [|apply lookup_ge_None in E; simpl in E; lia].
        destruct (Hi _ _ E) as [Hlt _].
        apply Z.div_le_lower_bound; [lia|].
        unfold py_len in *. simpl length in *. nia.
    + assert ((text_length text + step - 1) / step < py_len r + 1); [|lia].
      apply Z.div_lt_upper_bound; nia.
  - intros i c Hc. destruct (Hi i c Hc) as [_ ->].
    rewrite span_make_chunk, content_make_chunk.
    rewrite (cut_unbroken self text _ Hcs Hno). simpl.
    replace (0 + Z.of_nat i * step) with (Z.of_nat i * step) by lia. auto.
Qed.

Lemma unbroken_text_layout_witness :
  let text := of_string "aaaaaaaaaaaaaaaaaaaaaaaaa" in
  let step := chunk_size small_settings - chunk_overlap small_settings in
  exists r,
    chunk_text_returns small_settings text ∅ r /\
    py_len r = (text_length text + step - 1) / step /\
    forall (i : nat) c, r !! i = Some c ->
      span c = Some (Z.of_nat i * step, Z.of_nat i * step + chunk_size small_settings) /\
      content c =
        py_strip (py_slice text (Z.of_nat i * step)
                    (Z.of_nat i * step + chunk_size small_settings)).
Proof.
  apply (unbroken_text_layout small_settings (of_string "aaaaaaaaaaaaaaaaaaaaaaaaa") ∅).
  - unfold well_formed. simpl. lia.
  - apply boundary_free_spec. reflexivity.
Defined.

(** *** What [strip] removes *)

Definition all_space (s : pystr) : Prop := Forall (fun c => py_isspace c = true) s.

Lemma py_lstrip_spec s :
  exists pre, s = pre ++ py_lstrip s /\ all_space pre /\
    forall c, head (py_lstrip s) = Some c -> py_isspace c = false.
Proof.
  induction s as [|x s (pre & Hs & Hpre & Hhead)]; simpl.
  - exists []. split; [reflexivity|]. split; [constructor|]. intros c Hc. discriminate.
  - destruct (py_isspace x) eqn:Ex.
    + exists (x :: pre). split; [simpl; congruence|].
      split; [constructor; assumption|exact Hhead].
    + exists []. split; [reflexivity|]. split; [constructor|].
      intros c [= <-]. exact Ex.
Qed.

Lemma last_rev {A} (l : list A) : last (rev l) = head l.
Proof. destruct l as [|x l]; [reflexivity|]. simpl. apply last_snoc. Qed.

Lemma py_rstrip_spec s :
  exists suf, s = py_rstrip s ++ suf /\ all_space suf /\
    forall c, last (py_rstrip s) = Some c -> py_isspace c = false.
Proof.
  unfold py_rstrip. destruct (py_lstrip_spec (rev s)) as (pre & Hs & Hpre & Hhead).
  exists (rev pre). split; [|split].
  - rewrite <- rev_app_distr, <- Hs, rev_involutive. reflexivity.
  - apply Forall_rev. exact Hpre.
  - intros c. rewrite last_rev. apply Hhead.
Qed.

(** [s.strip()] is [s] without a whitespace prefix and a whitespace suffix,
    and neither end of the result is whitespace. *)
Lemma py_strip_spec s :
  exists pre suf, s = pre ++ py_strip s ++ suf /\ all_space pre /\ all_space suf /\
    (forall c, head (py_strip s) = Some c -> py_isspace c = false) /\
    (forall c, last (py_strip s) = Some c -> py_isspace c = false).
Proof.
  unfold py_strip.
  destruct (py_lstrip_spec s) as (pre & Hs & Hpre & Hhead).
  destruct (py_rstrip_spec (py_lstrip s)) as (suf & Hl & Hsuf & Hlast).
  exists pre, suf. split; [congruence|]. split; [exact Hpre|]. split; [exact Hsuf|].
  split; [|exact Hlast].
  intros c Hc. apply Hhead. rewrite Hl.
  destruct (py_rstrip (py_lstrip s)); [discriminate|exact Hc].
Qed.

Lemma py_lstrip_all_space s : all_space s -> py_lstrip s = [].
Proof.
  induction 1 as [|x s Hx _ IH]; simpl; [reflexivity|]. rewrite Hx. exact IH.
Qed.

Lemma py_strip_nil s : py_strip s = [] <-> all_space s.
Proof.
  split.
  - intros H. destruct (py_strip_spec s) as (pre & suf & Hs & Hpre & Hsuf & _).
    rewrite H in Hs. rewrite Hs. apply Forall_app. auto.
  - intros H. unfold py_strip. rewrite (py_lstrip_all_space s H). reflexivity.
Qed.

Lemma py_strip_length s : py_len (py_strip s) <= py_len s.
Proof.
  destruct (py_strip_spec s) as (pre & suf & Hs & _).
  unfold py_len. rewrite Hs at 2. rewrite !length_app. lia.
Qed.

(** X5: under [0 < chunk_overlap < chunk_size], the content of every chunk
    has at most [chunk_size] characters, neither starts nor ends with a
    whitespace character, and is empty exactly when the recorded range of the
    text holds nothing but whitespace. Such a chunk is emitted like every
    other one: a non-empty text gives a first chunk that starts at 0, and
    whenever a chunk ends at [end] and [end - chunk_overlap] lies inside the
    text, the next element of the list is the chunk cut at
    [end - chunk_overlap], whatever its content. *)
Theorem chunk_content_is_trimmed (self : Settings) (text : pystr) (md : pydict)
    (r : list DocumentChunk) :
  well_formed self ->
  chunk_text_returns self text md r ->
  Forall (fun c =>
    py_len (content c) <= chunk_size self /\
    (forall ch, head (content c) = Some ch -> py_isspace ch = false) /\
    (forall ch, last (content c) = Some ch -> py_isspace ch = false) /\
    exists s e, span c = Some (s, e) /\
      (content c = [] <-> all_space (py_slice text s e))) r /\
  (text <> [] -> exists c e, r !! 0%nat = Some c /\ span c = Some (0, e)) /\
  (forall (i : nat) c s e,
     r !! i = Some c -> span c = Some (s, e) ->
     e - chunk_overlap self < text_length text ->
     exists c' e',
       r !! S i = Some c' /\
       span c' = Some (e - chunk_overlap self, e') /\
       content c' = py_strip (py_slice text (e - chunk_overlap self) e')).
Proof.
  intros Hwf Hr.
  destruct (returns_chain _ _ _ _ Hr) as (b & Hch & Hb).
  destruct (chain_Forall self text md (fun a => - chunk_size self < 2 * a)
              (fun a Ha _ => start_inv_next self text a Hwf Ha) 0 0 r b)
    as [HF _]; [unfold well_formed in Hwf; lia|exact Hch|].
  split; [|split].
  - eapply Forall_impl; [exact HF|].
    intros c (x & m & Hx & _ & ->). simpl.
    rewrite content_make_chunk.
    destruct (py_strip_spec (fst (cut self text x)))
      as (pre & suf & _ & _ & _ & Hh & Hl).
    split; [|split; [exact Hh|split; [exact Hl|]]].
    + eapply Z.le_trans; [apply py_strip_length|].
      rewrite (cut_is_slice self text x Hx), py_len_slice.
      pose proof (py_len_nonneg text).
      destruct (cut_end_cases self text x) as [->|(Hend & Hbp & ->)].
      * unfold well_formed in Hwf. unfold slice_index.
        destruct (Z.ltb_spec x 0); destruct (Z.ltb_spec (x + chunk_size self) 0); lia.
      * pose proof (break_point_bounds (py_slice text x (x + chunk_size self))) as Hbp'.
        rewrite py_len_slice in Hbp'. unfold well_formed in Hwf.
        unfold slice_index in *.
        destruct (Z.ltb_spec x 0); destruct (Z.ltb_spec (x + chunk_size self) 0);
          destruct (Z.ltb_spec
                      (x + break_point (py_slice text x (x + chunk_size self)) + 1) 0);
          lia.
    + exists x, (snd (cut self text x)). split; [apply span_make_chunk|].
      rewrite <- (cut_is_slice self text x Hx). apply py_strip_nil.
  - intros Hne. destruct r as [|c r].
    + simpl in Hch. subst b. destruct text; [congruence|].
      unfold text_length, py_len in Hb. simpl length in Hb. lia.
    + exists c, (snd (cut self text 0)). split; [reflexivity|].
      rewrite (chain_head self text md 0 0 (c :: r) b c Hch eq_refl).
      apply span_make_chunk.
  - intros i c s e Hi Hspan Hnext.
    destruct (chain_lookup self text md 0 0 r b i c Hch Hi) as (x & _ & Hc).
    rewrite Hc, span_make_chunk in Hspan. injection Hspan as <- <-.
    rewrite Hc in Hi.
    destruct (chain_emits self text md 0 0 r b i x _ Hch Hb Hi Hnext) as [c' Hi'].
    rewrite <- Hc in Hi.
    destruct (chain_succ self text md 0 0 r b i c c' Hch Hi Hi') as (y & Hy & Hc').
    assert (Hxy : x = y).
    { pose proof (span_make_chunk self text md x (0 + Z.of_nat i)) as H1.
      rewrite <- Hc, Hy, span_make_chunk in H1. congruence. }
    subst y.
    assert (Hinv : - chunk_size self < 2 * (snd (cut self text x) - chunk_overlap self)).
    { rewrite Forall_forall in HF.
      destruct (HF c' (list_elem_of_lookup_2 _ _ _ Hi')) as (z & m & Hz & _ & Hc'z).
      pose proof (span_make_chunk self text md z m) as H1.
      rewrite <- Hc'z, Hc', span_make_chunk in H1.
      injection H1 as H1 _. rewrite H1. exact Hz. }
    exists c', (snd (cut self text (snd (cut self text x) - chunk_overlap self))).
    split; [exact Hi'|]. rewrite Hc'.
    split; [apply span_make_chunk|].
    rewrite content_make_chunk. f_equal. apply cut_is_slice. exact Hinv.
Qed.

(** The run on [padded_text] with [chunk_size = 10] and [chunk_overlap = 2]:
    the windows [[8, 18)] and [[16, 26)] hold nothing but spaces, and the two
    chunks cut from them are returned with an empty content. *)
Lemma chunk_content_is_trimmed_witness :
  exists c0 c1 c2,
    chunk_text_returns small_settings padded_text ∅ [c0; c1; c2] /\
    content c0 = of_string "aaaaaaaa" /\ span c0 = Some (0, 10) /\
    content c1 = [] /\ span c1 = Some (8, 18) /\
    content c2 = [] /\ span c2 = Some (16, 26) /\
    Forall (fun c =>
      py_len (content c) <= chunk_size small_settings /\
      (forall ch, head (content c) = Some ch -> py_isspace ch = false) /\
      (forall ch, last (content c) = Some ch -> py_isspace ch = false) /\
      exists s e, span c = Some (s, e) /\
        (content c = [] <-> all_space (py_slice padded_text s e)))
      [c0; c1; c2] /\
    (padded_text <> [] ->
     exists c e, [c0; c1; c2] !! 0%nat = Some c /\ span c = Some (0, e)) /\
    (forall (i : nat) c s e,
       [c0; c1; c2] !! i = Some c -> span c = Some (s, e) ->
       e - chunk_overlap small_settings < text_length padded_text ->
       exists c' e',
         [c0; c1; c2] !! S i = Some c' /\
         span c' = Some (e - chunk_overlap small_settings, e') /\
         content c' =
           py_strip (py_slice padded_text (e - chunk_overlap small_settings) e')).
Proof.
  eexists _, _, _. split; [exists 3%nat; vm_compute; reflexivity|].
  do 6 (split; [vm_compute; reflexivity|]).
  apply (chunk_content_is_trimmed small_settings padded_text ∅).
  - unfold well_formed. simpl. lia.
  - exists 3%nat. vm_compute. reflexivity.
Defined.

End ChunkerLaws.

(** * Monotonicity of the search gate *)

Module GateLaws.
Import WebSearch Pipeline FloatFacts.

(** The unclamped score [1 - d / 2] the gate compares with the threshold,
    on the integer scale of [SFV]. *)
Lemma score_SFV (d : float) :
  match Prim2SF d with
  | S754_nan => Prim2SF (1 - d / 2) = S754_nan
  | S754_infinity s => Prim2SF (1 - d / 2) = S754_infinity (negb s)
  | _ =>
      is_finite_sf (Prim2SF (1 - d / 2)) = true /\
      SFV (Prim2SF (1 - d / 2)) = one_minus (half (SFV (Prim2SF d)))
  end.
Proof.
  pose proof (Prim2SF_valid d) as Hvd.
  pose proof (div_spec d 2) as Hdiv. rewrite Prim2SF_2 in Hdiv.
  pose proof (sub_spec 1 (d / 2)) as Hsub. rewrite Prim2SF_1, Hdiv in Hsub.
  unfold SF64div, SF64sub in *.
  pose proof (Prim2SF_valid (d / 2)) as Hvy. rewrite Hdiv in Hvy.
  assert (Hfin : is_finite_sf (Prim2SF d) = true ->
            is_finite_sf (Prim2SF (1 - d / 2)) = true /\
            SFV (Prim2SF (1 - d / 2)) = one_minus (half (SFV (Prim2SF d)))).
  { intros Hf.
    destruct (div_two_spec (Prim2SF d) Hvd Hf) as [Hfy HVy].
    pose proof (half_bound (Prim2SF d) Hvd Hf) as Hby.
    fold (half (SFV (Prim2SF d))) in HVy. rewrite <- HVy in Hby.
    destruct (sub_one_spec _ Hvy Hfy Hby) as [Hfz HVz].
    rewrite <- Hsub in Hfz, HVz. rewrite HVy in HVz.
    split; [exact Hfz|exact HVz]. }
  destruct (Prim2SF d) as [s|s| |s m e] eqn:Ed.
  - apply Hfin. reflexivity.
  - cbn [SFdiv SF_two SFsub SF_one xorb] in Hsub. rewrite xorb_false_r in Hsub.
    exact Hsub.
  - cbn [SFdiv SF_two SFsub SF_one] in Hsub. exact Hsub.
  - apply Hfin. reflexivity.
Qed.

Lemma finite_SFV_range u :
  valid_binary u = true -> is_finite_sf u = true -> - 2 ^ 2098 < SFV u < 2 ^ 2098.
Proof.
  intros Hu Hfu. destruct u as [s|s| |s m e]; try discriminate Hfu; cbn [SFV].
  - split; reflexivity.
  - pose proof (finite_magnitude _ _ Hu). destruct s; cbn [cond_Zopp]; lia.
Qed.

Lemma SFleb_SFV x y :
  valid_binary x = true -> valid_binary y = true ->
  SFleb x y = true ->
  is_nan_sf x = false /\ is_nan_sf y = false /\ SFV x <= SFV y.
Proof.
  intros Hx Hy Hle. unfold SFleb in Hle.
  assert (Hnx : is_nan_sf x = false) by (destruct x; try reflexivity; discriminate Hle).
  assert (Hny : is_nan_sf y = false)
    by (destruct x, y; try reflexivity; discriminate Hle).
  rewrite (SFcompare_SFV x y Hx Hy Hnx Hny) in Hle.
  split; [exact Hnx|]. split; [exact Hny|].
  destruct (Z.compare_spec (SFV x) (SFV y)); try lia; discriminate Hle.
Qed.

(** The score does not increase with the distance. *)
Lemma score_anti d1 d2 :
  (d1 <=? d2)%float = true ->
  is_nan_sf (Prim2SF (1 - d1 / 2)) = false /\
  is_nan_sf (Prim2SF (1 - d2 / 2)) = false /\
  SFV (Prim2SF (1 - d2 / 2)) <= SFV (Prim2SF (1 - d1 / 2)).
Proof.
  intros Hle. rewrite leb_spec in Hle.
  destruct (SFleb_SFV _ _ (Prim2SF_valid d1) (Prim2SF_valid d2) Hle)
    as (Hn1 & Hn2 & Hv).
  pose proof (score_SFV d1) as H1. pose proof (score_SFV d2) as H2.
  pose proof (Prim2SF_valid d1) as Hv1. pose proof (Prim2SF_valid d2) as Hv2.
  pose proof (Prim2SF_valid (1 - d1 / 2)) as Hvz1.
  pose proof (Prim2SF_valid (1 - d2 / 2)) as Hvz2.
  assert (Hchain : forall a b, a <= b -> one_minus (half b) <= one_minus (half a)).
  { intros a b H. apply one_minus_anti, half_mono, H. }
  assert (Hinf : 2 ^ 2098 < 2 ^ 2200) by (apply Z.pow_lt_mono_r; lia).
  assert (Hpos : 0 < 2 ^ 2098) by (apply Z.pow_pos_nonneg; lia).
  set (z1 := Prim2SF (1 - d1 / 2)) in *. set (z2 := Prim2SF (1 - d2 / 2)) in *.
  assert (Hfin : forall u, valid_binary u = true -> is_finite_sf u = true ->
            - 2 ^ 2098 < SFV u < 2 ^ 2098) by exact finite_SFV_range.
  set (INF := 2 ^ 2200) in *. set (B := 2 ^ 2098) in *.
  destruct (Prim2SF d1) as [s1|[|]| |s1 m1 e1] eqn:E1; try discriminate Hn1;
    destruct (Prim2SF d2) as [s2|[|]| |s2 m2 e2] eqn:E2; try discriminate Hn2;
    cbn [negb] in H1, H2;
    repeat lazymatch goal with
    | H : _ /\ _ |- _ => destruct H
    | H : z1 = _ |- _ => rewrite H in *; clear H
    | H : z2 = _ |- _ => rewrite H in *; clear H
    end;
    (split; [first [reflexivity|apply finite_not_nan; assumption]|]);
    (split; [first [reflexivity|apply finite_not_nan; assumption]|]);
    lazymatch goal with
    | Ha : SFV z2 = _, Hb : SFV z1 = _ |- _ =>
        rewrite Ha, Hb; apply Hchain; exact Hv
    | _ =>
        repeat lazymatch goal with
        | Hf : is_finite_sf ?u = true, Hvu : valid_binary ?u = true |- _ =>
            pose proof (Hfin u Hvu Hf); clear Hf
        end;
        try (pose proof (Hfin _ Hv1 eq_refl)); try (pose proof (Hfin _ Hv2 eq_refl));
        cbn [SFV cond_Zopp] in *; lia
    end.
Qed.

(** A retrieved passage that carries only a distance. *)
Definition at_distance (d : float) : KBResult :=
  {| kb_content := None; kb_metadata := None; kb_distance := Some d; kb_id := None |}.

(** X6: the search gate is monotone: if it fires for a top result and a
    threshold, it also fires for every top result that is at least as far
    away and every threshold that is at least as high (distances and
    thresholds compared as floats; a missing distance counts as 1.0). *)
Theorem gate_is_monotone (top1 top2 : KBResult) (rest1 rest2 : list KBResult)
    (t1 t2 : float) :
  (default 1 (kb_distance top1) <=? default 1 (kb_distance top2))%float = true ->
  (t1 <=? t2)%float = true ->
  should_use_search (top1 :: rest1) t1 = true ->
  should_use_search (top2 :: rest2) t2 = true.
Proof.
  cbn [should_use_search].
  set (d1 := default 1%float (kb_distance top1)).
  set (d2 := default 1%float (kb_distance top2)).
  intros Hd Ht Hg.
  destruct (score_anti d1 d2 Hd) as (Hn1 & Hn2 & Hz).
  rewrite leb_spec in Ht.
  destruct (SFleb_SFV _ _ (Prim2SF_valid t1) (Prim2SF_valid t2) Ht)
    as (Hnt1 & Hnt2 & Hvt).
  rewrite ltb_spec in Hg |- *.
  rewrite SFltb_SFV in Hg |- * by (try apply Prim2SF_valid; assumption).
  apply Z.ltb_lt in Hg. apply Z.ltb_lt. lia.
Qed.

Lemma gate_is_monotone_witness :
  should_use_search [at_distance 0.6] 0.9 = true.
Proof.
  apply (gate_is_monotone (at_distance 0.4) (at_distance 0.6)
           [] [] 0.85 0.9); reflexivity.
Defined.

(** *** The gate and the confidence score *)

(** The default threshold, on the integer scale of [SFV]. *)
Definition threshold_07 : Z := SFV (Prim2SF 0.7).

Lemma centi_threshold : centi (clamp_unit threshold_07) = 70.
Proof. vm_compute. reflexivity. Qed.

Lemma centi_float_70 : centi_float 70 = 0.7%float.
Proof. vm_compute. reflexivity. Qed.

(** The gate and the confidence of one distance, at the threshold 0.7. *)
Lemma gate_score d :
  if (1 - d / 2 <? 0.7)%float
  then (conf d <=? 0.7)%float = true
  else (0.7 <=? conf d)%float = true.
Proof.
  rewrite conf_hundredths, ltb_spec.
  pose proof (score_SFV d) as Hz.
  pose proof (hundredths_range (Prim2SF d)) as Hr.
  assert (Hlow : forall h, 0 <= h <= 70 -> (centi_float h <=? 0.7)%float = true).
  { intros h Hh. rewrite <- centi_float_70. apply centi_float_mono; lia. }
  assert (Hhigh : forall h, 70 <= h <= 100 -> (0.7 <=? centi_float h)%float = true).
  { intros h Hh. rewrite <- centi_float_70. apply centi_float_mono; lia. }
  destruct (Prim2SF d) as [s|[|]| |s m e] eqn:Ed; cbn [negb] in Hz.
  - destruct Hz as [Hf HV].
    rewrite SFltb_SFV by (try apply Prim2SF_valid; try apply finite_not_nan; auto).
    fold threshold_07. cbn [hundredths] in Hr |- *. rewrite <- HV in Hr |- *.
    destruct (Z.ltb_spec (SFV (Prim2SF (1 - d / 2))) threshold_07) as [Hlt|Hge].
    + apply Hlow. split; [lia|]. rewrite <- centi_threshold.
      apply centi_mono, clamp_unit_mono. lia.
    + apply Hhigh. split; [|lia]. rewrite <- centi_threshold.
      apply centi_mono, clamp_unit_mono. lia.
  - rewrite Hz. cbn [hundredths].
    replace (SFltb (S754_infinity false) (Prim2SF 0.7)) with false by reflexivity.
    apply Hhigh. lia.
  - rewrite Hz. cbn [hundredths].
    replace (SFltb (S754_infinity true) (Prim2SF 0.7)) with true by reflexivity.
    apply Hlow. lia.
  - rewrite Hz. cbn [hundredths].
    replace (SFltb S754_nan (Prim2SF 0.7)) with false by reflexivity.
    apply Hhigh. lia.
  - destruct Hz as [Hf HV].
    rewrite SFltb_SFV by (try apply Prim2SF_valid; try apply finite_not_nan; auto).
    fold threshold_07. cbn [hundredths] in Hr |- *. rewrite <- HV in Hr |- *.
    destruct (Z.ltb_spec (SFV (Prim2SF (1 - d / 2))) threshold_07) as [Hlt|Hge].
    + apply Hlow. split; [lia|]. rewrite <- centi_threshold.
      apply centi_mono, clamp_unit_mono. lia.
    + apply Hhigh. split; [|lia]. rewrite <- centi_threshold.
      apply centi_mono, clamp_unit_mono. lia.
Qed.

(** X27: at the default threshold 0.7, which the chat routes always use,
    the gate and the confidence score agree: whenever the gate stays closed
    the confidence of the retrieval results is at least 0.7, and whenever it
    fires (the empty result list included) the confidence is at most 0.7. *)
Theorem gate_agrees_with_confidence (kb_results : list KBResult) :
  if should_use_search kb_results 0.7
  then (_calculate_confidence kb_results <=? 0.7)%float = true
  else (0.7 <=? _calculate_confidence kb_results)%float = true.
Proof.
  destruct kb_results as [|top rest]; [reflexivity|].
  cbn [should_use_search].
  change (_calculate_confidence (top :: rest))
    with (conf (default 2%float (kb_distance top))).
  destruct (kb_distance top) as [d|]; cbn [default].
  - apply gate_score.
  - reflexivity.
Qed.

End GateLaws.

(** * The layout of the prompt *)

Module PromptFacts.
Import WebSearch LLM.

(** The knowledge-base part of the user message. *)
Definition knowledge_block (kb : list KBResult) : pystr :=
  match kb with
  | [] => of_string "No relevant internal documentation found."
  | _ =>
      py_join [newline]
        ((of_string "Internal Knowledge Base:" ++ [newline])
           :: concat (map (fun idoc => passage_parts (fst idoc) (snd idoc))
                        (enumerate_from 1 kb)))
  end.

(** The web-search part of the user message. *)
Definition search_block (ctx : option pystr) : pystr :=
  match ctx with
  | Some (c :: ctx) => (c :: ctx) ++ [newline; newline]
  | _ => []
  end.

Lemma fold_left_concat {A B} (f : A -> list B) (xs : list A) (acc : list B) :
  fold_left (fun acc x => acc ++ f x) xs acc = acc ++ concat (map f xs).
Proof.
  revert acc. induction xs as [|x xs IH]; intros acc; simpl.
  - rewrite app_nil_r. reflexivity.
  - rewrite IH, <- app_assoc. reflexivity.
Qed.

Lemma py_join_cons sep p q rest :
  py_join sep (p :: q :: rest) = p ++ sep ++ py_join sep (q :: rest).
Proof. reflexivity. Qed.

(** X7: [create_prompt] always returns two messages, the fixed system
    message and one user message; the user message is the knowledge-base
    block (or the sentence that none was found), an empty line, the web
    search block when a non-empty search context is given, and then the
    question, verbatim, followed by the closing instruction. An empty search
    context gives the same prompt as no search context. *)
Theorem create_prompt_layout (q : pystr) (kb : list KBResult) (ctx : option pystr) :
  create_prompt q kb ctx =
    [ {| role := of_string "system"; message_content := system_message |};
      {| role := of_string "user";
         message_content :=
           knowledge_block kb ++ [newline; newline] ++ search_block ctx
             ++ of_string "User Question: " ++ q ++ [newline; newline]
             ++ of_string "Please provide a helpful answer based on the context above:" |} ]
  /\ create_prompt q kb (Some []) = create_prompt q kb None.
Proof.
  split; [|reflexivity].
  unfold create_prompt, knowledge_block.
  destruct kb as [|doc kb].
  - destruct ctx as [[|c ctx]|]; cbn [app search_block];
      repeat rewrite py_join_cons; cbn [py_join app];
      rewrite <- ?app_assoc; reflexivity.
  - rewrite fold_left_concat.
    set (parts := concat _). cbn [app].
    destruct ctx as [[|c ctx]|]; cbn [app search_block];
      repeat rewrite py_join_cons; cbn [py_join app];
      rewrite <- ?app_assoc; reflexivity.
Qed.

End PromptFacts.

(** * Requests from retrieval to response *)

Module RequestFacts.
Import WebSearch LLM Pipeline GateFacts PipelineFacts PromptFacts.

(** Worlds for the examples: one whose collaborators all answer, and
    variants whose vector store or chat endpoint fails or whose knowledge
    base holds no document. *)
Definition far_passage : KBResult :=
  {| kb_content := Some (of_string "passage"); kb_metadata := None;
     kb_distance := Some 1.5%float; kb_id := None |}.

Definition sample_hit : TavilyHit :=
  {| hit_title := Some (of_string "Guide"); hit_url := Some (of_string "https://example.org");
     hit_content := Some (of_string "text"); hit_score := Some 0.9%float |}.

Definition sample_world : World :=
  {| vector_store_search := fun _ _ => Ok [far_passage];
     tavily_client_search := fun _ _ => Ok {| results := Some [sample_hit] |};
     chat_create := fun _ => Ok (of_string "answer");
     chat_create_stream :=
       fun _ => Ok ([Some (of_string "an"); None; Some (of_string "swer")], None);
     max_search_results := 5 |}.

(** A collection without documents: [count()] is 0, and a query for less
    than one result is refused, as Chroma refuses it. *)
Definition empty_collection : VectorStore.Collection :=
  {| VectorStore.count := Ok 0;
     VectorStore.collection_query :=
       fun _ n_results =>
         if n_results <=? 0 then
           Raise (of_string "Number of requested results "
                    ++ py_str_of_int n_results
                    ++ of_string ", cannot be negative, or zero.")
         else
           Ok {| VectorStore.documents := Some [[]];
                 VectorStore.metadatas := Some [[]];
                 VectorStore.distances := Some [[]];
                 VectorStore.ids := Some [[]] |} |}.

(** An embedding model with 384 dimensions. *)
Definition sample_encode (text : pystr) : outcome (list float) :=
  Ok (replicate 384 0.5%float).

(** The world whose vector store is [VectorStore.search] over that
    collection. *)
Definition empty_store_world : World :=
  {| vector_store_search := VectorStore.search 384 sample_encode empty_collection;
     tavily_client_search := tavily_client_search sample_world;
     chat_create := chat_create sample_world;
     chat_create_stream := chat_create_stream sample_world;
     max_search_results := 5 |}.

Definition broken_store_world : World :=
  {| vector_store_search := fun _ _ => Raise (of_string "collection unavailable");
     tavily_client_search := tavily_client_search sample_world;
     chat_create := chat_create sample_world;
     chat_create_stream := chat_create_stream sample_world;
     max_search_results := 5 |}.

Definition broken_chat_world : World :=
  {| vector_store_search := vector_store_search sample_world;
     tavily_client_search := tavily_client_search sample_world;
     chat_create := fun _ => Raise (of_string "rate limit");
     chat_create_stream := fun _ => Raise (of_string "rate limit");
     max_search_results := 5 |}.

(** The response [query] builds once the answer [a] is there. *)
Definition response_of (w : World) (q : pystr) (us : bool) (thr : float)
    (kb : list KBResult) (a : pystr) : RAGResponse :=
  let searched := us && should_use_search kb thr in
  {| answer := a;
     sources := _format_sources kb (if searched then to_dict <$> found w q else []);
     confidence := _calculate_confidence kb;
     used_web_search :=
       searched && match found w q with [] => false | _ => true end |}.

(** [query], run in a world whose retrieval succeeds. *)
Lemma query_run w q us k thr kb :
  vector_store_search w q k = Ok kb ->
  let prompt := create_prompt q kb (search_context w q us thr kb) in
  query w q us k thr =
    (match chat_create w prompt with
     | Ok a => Ok (response_of w q us thr kb a)
     | Raise e => Raise e
     end,
     retrieval_events w q us k thr kb ++ [ChatCreate prompt false]).
Proof.
  intros Hvs. cbv zeta.
  unfold query, response_of, retrieval_events, search_context,
    mbind, M_bind, bind, emit, lift, mret, M_ret, ret.
  rewrite Hvs. simpl.
  destruct (us && should_use_search kb thr).
  - rewrite search_run.
    destruct (found w q) as [|r rs]; simpl;
      unfold generate_response, mbind, M_bind, bind, emit, lift;
      match goal with |- context [chat_create w ?m] =>
        destruct (chat_create w m) end; reflexivity.
  - simpl. unfold generate_response, mbind, M_bind, bind, emit, lift.
    destruct (chat_create w _); reflexivity.
Qed.

Lemma for_each_deltas (deltas : list (option pystr)) :
  for_each deltas
    (fun delta => match delta with
                  | Some fragment => emit (Yield fragment)
                  | None => mret tt
                  end)
  = (Ok tt, Yield <$> omap id deltas).
Proof.
  induction deltas as [|d ds IH]; [reflexivity|].
  cbn [for_each]. unfold mbind, M_bind, bind. rewrite IH.
  destruct d as [f|]; reflexivity.
Qed.

(** [query_stream], run in a world whose retrieval succeeds. *)
Lemma query_stream_run w q us k thr kb :
  vector_store_search w q k = Ok kb ->
  let prompt := create_prompt q kb (search_context w q us thr kb) in
  query_stream w q us k thr =
    match chat_create_stream w prompt with
    | Ok (deltas, final) =>
        (match final with Some e => Raise e | None => Ok tt end,
         retrieval_events w q us k thr kb
           ++ ChatCreate prompt true :: (Yield <$> omap id deltas))
    | Raise e =>
        (Raise e, retrieval_events w q us k thr kb ++ [ChatCreate prompt true])
    end.
Proof.
  intros Hvs. cbv zeta.
  assert (Hgen : forall ctx,
            generate_response_stream w q kb ctx =
            match chat_create_stream w (create_prompt q kb ctx) with
            | Ok (deltas, final) =>
                (match final with Some e => Raise e | None => Ok tt end,
                 ChatCreate (create_prompt q kb ctx) true
                   :: (Yield <$> omap id deltas))
            | Raise e => (Raise e, [ChatCreate (create_prompt q kb ctx) true])
            end).
  { intros ctx. unfold generate_response_stream, mbind, M_bind, bind.
    change (emit (ChatCreate (create_prompt q kb ctx) true))
      with (Ok tt, [ChatCreate (create_prompt q kb ctx) true]).
    unfold lift. cbv iota beta.
    destruct (chat_create_stream w _) as [[deltas final]|e]; simpl; [|reflexivity].
    rewrite for_each_deltas.
    destruct final; simpl; rewrite ?app_nil_r; reflexivity. }
  unfold query_stream, retrieval_events, search_context,
    mbind at 1 2 3, M_bind, bind, emit, lift, mret, M_ret, ret.
  rewrite Hvs. simpl.
  destruct (us && should_use_search kb thr).
  - rewrite search_run. unfold mbind, M_bind, bind.
    destruct (found w q) as [|r rs]; simpl; rewrite Hgen;
      match goal with |- context [chat_create_stream w ?m] =>
        destruct (chat_create_stream w m) as [[deltas final]|e] end; reflexivity.
  - simpl. rewrite Hgen.
    destruct (chat_create_stream w _) as [[deltas final]|e]; reflexivity.
Qed.

(** X8: when the vector store raises, [query] and [query_stream] raise the
    same exception, and the retrieval call is the only call made: web search
    and generation are never reached. *)
Theorem retrieval_failure_is_fatal (w : World) (q : pystr) (us : bool) (k : Z)
    (thr : float) (e : exn) :
  vector_store_search w q k = Raise e ->
  query w q us k thr = (Raise e, [VectorSearch q k]) /\
  query_stream w q us k thr = (Raise e, [VectorSearch q k]).
Proof.
  intros Hvs.
  unfold query, query_stream, mbind, M_bind, bind, emit, lift.
  rewrite Hvs. split; reflexivity.
Qed.

Lemma retrieval_failure_is_fatal_witness :
  query broken_store_world (of_string "q") true 5 0.7
    = (Raise (of_string "collection unavailable"), [VectorSearch (of_string "q") 5]) /\
  query_stream broken_store_world (of_string "q") true 5 0.7
    = (Raise (of_string "collection unavailable"), [VectorSearch (of_string "q") 5]).
Proof.
  apply (retrieval_failure_is_fatal broken_store_world (of_string "q") true 5 0.7).
  reflexivity.
Defined.

(** X9: when retrieval succeeds and the chat completion call raises,
    [query] raises that exception after the retrieval calls and the one
    generation call: no response is built. *)
Theorem generation_failure_is_fatal (w : World) (q : pystr) (us : bool) (k : Z)
    (thr : float) (kb : list KBResult) (e : exn) :
  vector_store_search w q k = Ok kb ->
  let prompt := create_prompt q kb (search_context w q us thr kb) in
  chat_create w prompt = Raise e ->
  query w q us k thr =
    (Raise e, retrieval_events w q us k thr kb ++ [ChatCreate prompt false]).
Proof.
  intros Hvs prompt Hllm. rewrite (query_run w q us k thr kb Hvs). cbv zeta.
  fold prompt. rewrite Hllm. reflexivity.
Qed.

Lemma generation_failure_is_fatal_witness :
  query broken_chat_world (of_string "q") false 5 0.7 =
    (Raise (of_string "rate limit"),
     retrieval_events broken_chat_world (of_string "q") false 5 0.7 [far_passage]
       ++ [ChatCreate
             (create_prompt (of_string "q") [far_passage]
                (search_context broken_chat_world (of_string "q") false 0.7
                   [far_passage]))
             false]).
Proof.
  apply (generation_failure_is_fatal broken_chat_world (of_string "q") false 5 0.7
           [far_passage] (of_string "rate limit")); reflexivity.
Defined.

(** X10: when the caller disables search or the gate stays closed, the web
    search client is never called: [query] makes the retrieval call and the
    generation call only, the prompt has no search context, the response has
    [used_web_search = false], and its sources are the first three
    knowledge-base results. *)
Theorem closed_gate_skips_search (w : World) (q : pystr) (us : bool) (k : Z)
    (thr : float) (kb : list KBResult) (a : pystr) :
  vector_store_search w q k = Ok kb ->
  us = false \/ should_use_search kb thr = false ->
  chat_create w (create_prompt q kb None) = Ok a ->
  query w q us k thr =
    (Ok {| answer := a;
           sources := kb_source <$> take 3 kb;
           confidence := _calculate_confidence kb;
           used_web_search := false |},
     [VectorSearch q k; ChatCreate (create_prompt q kb None) false]).
Proof.
  intros Hvs Hgate Hllm.
  assert (Hg : us && should_use_search kb thr = false)
    by (destruct Hgate as [-> | ->]; [reflexivity|apply andb_false_r]).
  rewrite (query_run w q us k thr kb Hvs). cbv zeta.
  unfold search_context, retrieval_events, response_of. rewrite Hg, Hllm.
  rewrite format_sources_eq. simpl. rewrite app_nil_r. reflexivity.
Qed.

Lemma closed_gate_skips_search_witness :
  query sample_world (of_string "q") false 5 0.7 =
    (Ok {| answer := of_string "answer";
           sources := kb_source <$> take 3 [far_passage];
           confidence := _calculate_confidence [far_passage];
           used_web_search := false |},
     [VectorSearch (of_string "q") 5;
      ChatCreate (create_prompt (of_string "q") [far_passage] None) false]).
Proof.
  apply (closed_gate_skips_search sample_world (of_string "q") false 5 0.7
           [far_passage] (of_string "answer")).
  - reflexivity.
  - left. reflexivity.
  - reflexivity.
Defined.

Lemma found_hits w q response hits :
  tavily_client_search w q (max_search_results w) = Ok response ->
  results response = Some hits ->
  found w q = of_hit <$> hits.
Proof. intros Ht Hr. unfold found. rewrite Ht, Hr. reflexivity. Qed.

Lemma web_source_of_hit h :
  web_source (to_dict (of_hit h)) =
  web_search (default (of_string "No title") (hit_title h))
    (default [] (hit_url h)) (default 0%float (hit_score h)).
Proof. reflexivity. Qed.

(** The text handed to the prompt for a non-empty result list is not empty. *)
Lemma format_search_results_nonempty r rs :
  format_search_results_for_context (r :: rs) <> [].
Proof.
  unfold format_search_results_for_context.
  rewrite fold_left_concat. cbn [enumerate_from map concat app result_lines].
  rewrite py_join_cons. discriminate.
Qed.

Lemma web_sources_of_hits (hs : list TavilyHit) :
  map web_source (take 3 (to_dict <$> (of_hit <$> hs))) =
  (fun h => web_search (default (of_string "No title") (hit_title h))
              (default [] (hit_url h)) (default 0%float (hit_score h)))
    <$> take 3 hs.
Proof.
  change (map web_source) with (fmap (M := list) web_source).
  rewrite <- list_fmap_compose, <- fmap_take, <- list_fmap_compose. reflexivity.
Qed.

(** X11: when search is allowed, the gate fires and the client returns at
    least one hit, [query] calls the vector store, the search client (with
    the configured result limit) and the chat endpoint, in this order; the
    prompt carries the formatted search results, which are not empty; the
    response has [used_web_search = true]; and its sources are the first
    three knowledge-base results followed by the first three hits, each with
    the title, URL and score the client returned (["No title"], the empty
    string and 0.0 where the hit has none). *)
Theorem web_results_reach_the_response (w : World) (q : pystr) (k : Z)
    (thr : float) (kb : list KBResult) (response : TavilyResponse)
    (hit : TavilyHit) (hits : list TavilyHit) (a : pystr) :
  vector_store_search w q k = Ok kb ->
  should_use_search kb thr = true ->
  tavily_client_search w q (max_search_results w) = Ok response ->
  results response = Some (hit :: hits) ->
  let context := format_search_results_for_context (of_hit <$> hit :: hits) in
  let prompt := create_prompt q kb (Some context) in
  chat_create w prompt = Ok a ->
  context <> [] /\
  query w q true k thr =
    (Ok {| answer := a;
           sources :=
             (kb_source <$> take 3 kb)
             ++ ((fun h => web_search
                             (default (of_string "No title") (hit_title h))
                             (default [] (hit_url h))
                             (default 0%float (hit_score h)))
                   <$> take 3 (hit :: hits));
           confidence := _calculate_confidence kb;
           used_web_search := true |},
     [VectorSearch q k; TavilySearch q (max_search_results w);
      ChatCreate prompt false]).
Proof.
  intros Hvs Hgate Ht Hr context prompt Hllm.
  split; [apply format_search_results_nonempty|].
  rewrite (query_run w q true k thr kb Hvs). cbv zeta.
  unfold search_context, retrieval_events, response_of.
  rewrite Hgate, (found_hits w q response _ Ht Hr). cbn [andb].
  rewrite format_sources_eq, web_sources_of_hits.
  unfold prompt, context in *.
  change (of_hit <$> hit :: hits) with (of_hit hit :: (of_hit <$> hits)) in *.
  cbv iota. rewrite Hllm. reflexivity.
Qed.

Lemma web_results_reach_the_response_witness :
  let context := format_search_results_for_context (of_hit <$> [sample_hit]) in
  let prompt := create_prompt (of_string "q") [far_passage] (Some context) in
  context <> [] /\
  query sample_world (of_string "q") true 5 0.7 =
    (Ok {| answer := of_string "answer";
           sources :=
             (kb_source <$> take 3 [far_passage])
             ++ ((fun h => web_search
                             (default (of_string "No title") (hit_title h))
                             (default [] (hit_url h))
                             (default 0%float (hit_score h)))
                   <$> take 3 [sample_hit]);
           confidence := _calculate_confidence [far_passage];
           used_web_search := true |},
     [VectorSearch (of_string "q") 5;
      TavilySearch (of_string "q") (max_search_results sample_world);
      ChatCreate prompt false]).
Proof.
  apply (web_results_reach_the_response sample_world (of_string "q") 5 0.7
           [far_passage] {| results := Some [sample_hit] |} sample_hit []
           (of_string "answer")); reflexivity.
Defined.

(** X12: on a knowledge base without documents ([collection.count()] is
    0) the vector store asks the collection for [n_results = min(k, 0) = 0]
    results. When the collection refuses that request by raising, as Chroma
    does, [query] and [query_stream] raise the same exception after the one
    retrieval call: the branch of [should_use_search] for an empty result
    list, web search and generation are never reached. *)
Theorem empty_knowledge_base_fails_retrieval (w : World) (dimension : Z)
    (encode : pystr -> outcome (list float))
    (collection : VectorStore.Collection)
    (q : pystr) (us : bool) (k : Z) (thr : float)
    (query_embedding : list float) :
  vector_store_search w = VectorStore.search dimension encode collection ->
  VectorStore.count collection = Ok 0 ->
  0 <= k ->
  VectorStore.generate_embedding dimension encode q = Ok query_embedding ->
  vector_store_search w q k =
    match VectorStore.collection_query collection query_embedding 0 with
    | Raise e => Raise e
    | Ok results => VectorStore.format_results results
    end /\
  forall e,
    VectorStore.collection_query collection query_embedding 0 = Raise e ->
    query w q us k thr = (Raise e, [VectorSearch q k]) /\
    query_stream w q us k thr = (Raise e, [VectorSearch q k]).
Proof.
  intros Hw Hcount Hk Hemb.
  assert (Hvs : vector_store_search w q k =
            match VectorStore.collection_query collection query_embedding 0 with
            | Raise e => Raise e
            | Ok results => VectorStore.format_results results
            end).
  { rewrite Hw. unfold VectorStore.search. rewrite Hemb, Hcount.
    rewrite Z.min_r by exact Hk. reflexivity. }
  split; [exact Hvs|].
  intros e He. rewrite He in Hvs.
  unfold query, query_stream, mbind, M_bind, bind, emit, lift.
  rewrite Hvs. split; reflexivity.
Qed.

Lemma empty_knowledge_base_fails_retrieval_witness :
  let refusal :=
    of_string "Number of requested results 0, cannot be negative, or zero." in
  vector_store_search empty_store_world (of_string "q") 5 = Raise refusal /\
  query empty_store_world (of_string "q") true 5 0.7
    = (Raise refusal, [VectorSearch (of_string "q") 5]) /\
  query_stream empty_store_world (of_string "q") true 5 0.7
    = (Raise refusal, [VectorSearch (of_string "q") 5]).
Proof.
  destruct (empty_knowledge_base_fails_retrieval empty_store_world 384
              sample_encode empty_collection (of_string "q") true 5
              0.7 (replicate 384 0.5%float))
    as [Hvs Hq]; [reflexivity|reflexivity|lia|reflexivity|].
  split; [exact Hvs|].
  apply Hq. reflexivity.
Defined.

(** X13: when retrieval succeeds and the streamed completion starts,
    [query_stream] hands on exactly the deltas that carry content, in stream
    order and after the generation call; a stream that ends with an
    exception makes [query_stream] raise it after the fragments that came
    before. *)
Theorem stream_forwards_fragments (w : World) (q : pystr) (us : bool) (k : Z)
    (thr : float) (kb : list KBResult) (deltas : list (option pystr))
    (final : option exn) :
  vector_store_search w q k = Ok kb ->
  let prompt := create_prompt q kb (search_context w q us thr kb) in
  chat_create_stream w prompt = Ok (deltas, final) ->
  query_stream w q us k thr =
    (match final with Some e => Raise e | None => Ok tt end,
     retrieval_events w q us k thr kb
       ++ ChatCreate prompt true :: (Yield <$> omap id deltas)).
Proof.
  intros Hvs prompt Hs. rewrite (query_stream_run w q us k thr kb Hvs). cbv zeta.
  fold prompt. rewrite Hs. reflexivity.
Qed.

Lemma stream_forwards_fragments_witness :
  query_stream sample_world (of_string "q") false 5 0.7 =
    (Ok tt,
     retrieval_events sample_world (of_string "q") false 5 0.7 [far_passage]
       ++ ChatCreate
            (create_prompt (of_string "q") [far_passage]
               (search_context sample_world (of_string "q") false 0.7 [far_passage]))
            true
          :: (Yield <$> omap id [Some (of_string "an"); None; Some (of_string "swer")])).
Proof.
  apply (stream_forwards_fragments sample_world (of_string "q") false 5 0.7
           [far_passage] [Some (of_string "an"); None; Some (of_string "swer")] None);
    reflexivity.
Defined.

End RequestFacts.

(** * Properties of loading and batch processing *)

Module IngestionFacts.
Import Chunker ChunkerFacts ChunkerLaws Ingestion.

(** A file system for the examples: every path but ["missing.pdf"] is a
    two-page PDF named [guide.pdf]. *)
Definition sample_path (file_path : pystr) : PdfPath :=
  {| path_name := of_string "guide.pdf";
     path_str := file_path;
     path_exists := negb (bool_decide (file_path = of_string "missing.pdf"));
     path_pages := Ok [of_string "One."; of_string "Two."] |}.

Definition sample_directory : Directory :=
  {| dir_exists := Ok true;
     dir_mkdir := Ok tt;
     dir_glob := Ok [of_string "a.pdf"; of_string "missing.pdf"] |}.

(** A directory that does not exist and cannot be created. *)
Definition locked_directory : Directory :=
  {| dir_exists := Ok false;
     dir_mkdir := Raise (of_string "Permission denied");
     dir_glob := Ok [] |}.

(** The text [load_pdf] assembles before it strips it. *)
Definition raw_text (pages : list pystr) : pystr :=
  concat ((fun page_text => [newline] ++ page_text ++ [newline]) <$> pages).

Lemma load_loop (pages : list pystr) (i : Z) (ft : pystr) (pts : list (Z * pystr)) :
  fold_left
    (fun '(full_text, page_texts) '(page_num, page_text) =>
       (full_text ++ [newline] ++ page_text ++ [newline],
        page_texts ++ [(page_num + 1, page_text)]))
    (WebSearch.enumerate_from i pages) (ft, pts)
  = (ft ++ raw_text pages,
     pts ++ ((fun ip => (fst ip + 1, snd ip)) <$> WebSearch.enumerate_from i pages)).
Proof.
  revert i ft pts. induction pages as [|p pages IH]; intros i ft pts; simpl.
  - rewrite !app_nil_r. reflexivity.
  - rewrite IH. unfold raw_text. cbn [fmap list_fmap concat fst snd].
    f_equal; rewrite <- !app_assoc; cbn [app]; rewrite <- ?app_assoc; reflexivity.
Qed.

Lemma load_pdf_Ok Path file_path d :
  load_pdf Path file_path = Ok d ->
  exists pages,
    path_exists (Path file_path) = true /\
    path_pages (Path file_path) = Ok pages /\
    d = {| full_text := py_strip (raw_text pages);
           page_texts :=
             (fun ip => (fst ip + 1, snd ip)) <$> WebSearch.enumerate_from 0 pages;
           doc_metadata :=
             <["total_chars" := VInt (py_len (raw_text pages))]>
               (<["num_pages" := VInt (py_len pages)]>
                  (<["filepath" := VStr (path_str (Path file_path))]>
                     (<["filename" := VStr (path_name (Path file_path))]> ∅))) |}.
Proof.
  unfold load_pdf. cbv zeta.
  destruct (path_exists (Path file_path)); [|discriminate]. simpl.
  destruct (path_pages (Path file_path)) as [pages|e]; [|discriminate].
  rewrite load_loop. simpl. intros [= <-]. exists pages. auto.
Qed.

Lemma raw_text_cons p pages :
  raw_text (p :: pages) = [newline] ++ p ++ [newline] ++ raw_text pages.
Proof.
  unfold raw_text. rewrite fmap_cons. cbn [concat].
  rewrite <- !app_assoc. reflexivity.
Qed.

Lemma raw_text_length pages :
  py_len (raw_text pages) = py_len (concat pages) + 2 * py_len pages.
Proof.
  assert (H : length (raw_text pages)
              = (length (concat pages) + 2 * length pages)%nat).
  { induction pages as [|p pages IH]; [reflexivity|].
    rewrite raw_text_cons. cbn [concat]. rewrite !length_app, IH.
    cbn [length]. lia. }
  unfold py_len. rewrite H. lia.
Qed.

Lemma raw_text_snoc pages q :
  raw_text (pages ++ [q]) = raw_text pages ++ [newline] ++ q ++ [newline].
Proof.
  induction pages as [|p pages IH]; simpl app.
  - rewrite raw_text_cons. unfold raw_text. simpl. rewrite ?app_nil_r. reflexivity.
  - rewrite !raw_text_cons, IH. rewrite <- !app_assoc. reflexivity.
Qed.

Lemma raw_text_padded pages :
  pages <> [] -> exists mid, raw_text pages = newline :: mid ++ [newline].
Proof.
  intros Hne. destruct pages as [|p rest]; [congruence|].
  destruct (exists_last (l := p :: rest) ltac:(discriminate)) as (front & q & E).
  rewrite E, raw_text_snoc.
  destruct front as [|p' front].
  - exists q. reflexivity.
  - rewrite raw_text_cons.
    exists (p' ++ [newline] ++ raw_text front ++ [newline] ++ q).
    simpl. rewrite <- !app_assoc. simpl. rewrite <- !app_assoc. reflexivity.
Qed.

Lemma strip_padded mid :
  py_len (py_strip (newline :: mid ++ [newline])) + 2
  <= py_len (newline :: mid ++ [newline]).
Proof.
  destruct (py_strip_spec (newline :: mid ++ [newline]))
    as (pre & suf & Hs & _ & _ & Hhead & Hlast).
  destruct (py_strip (newline :: mid ++ [newline])) as [|c st] eqn:Est.
  - unfold py_len. simpl length. rewrite length_app. simpl. lia.
  - assert (Hpre : pre <> []).
    { intros ->. simpl in Hs. injection Hs as Hc _.
      specialize (Hhead c eq_refl). rewrite <- Hc in Hhead. discriminate Hhead. }
    assert (Hsuf : suf <> []).
    { intros ->. rewrite app_nil_r in Hs.
      assert (Hl : last (newline :: mid ++ [newline]) = Some newline).
      { change (newline :: mid ++ [newline]) with ((newline :: mid) ++ [newline]).
        apply last_snoc. }
      rewrite Hs, last_app in Hl.
      destruct (last (c :: st)) as [x|] eqn:El.
      - injection Hl as ->. specialize (Hlast newline eq_refl). discriminate Hlast.
      - apply last_None in El. discriminate El. }
    unfold py_len. rewrite Hs, !length_app.
    destruct pre; [congruence|]. destruct suf; [congruence|]. simpl length. lia.
Qed.

(** X14: a document [load_pdf] returns holds the stripped concatenation of
    the page texts, each wrapped in two newlines; [num_pages] is the number
    of pages; and [total_chars] counts the text before it is stripped,
    [sum(len(page)) + 2 * num_pages], so for a PDF with at least one page it
    exceeds the length of the returned text by at least 2. *)
Theorem load_pdf_counts_unstripped_text (Path : pystr -> PdfPath)
    (file_path : pystr) (d : DocData) :
  load_pdf Path file_path = Ok d ->
  exists pages,
    path_pages (Path file_path) = Ok pages /\
    full_text d = py_strip (raw_text pages) /\
    doc_metadata d !! "num_pages" = Some (VInt (py_len pages)) /\
    doc_metadata d !! "total_chars"
      = Some (VInt (py_len (concat pages) + 2 * py_len pages)) /\
    (pages <> [] ->
     py_len (full_text d) + 2 <= py_len (concat pages) + 2 * py_len pages).
Proof.
  intros Hd. destruct (load_pdf_Ok Path file_path d Hd) as (pages & _ & Hp & ->).
  exists pages. cbn [full_text doc_metadata].
  split; [exact Hp|]. split; [reflexivity|].
  split; [rewrite lookup_insert_ne by done; apply lookup_insert_eq|].
  split; [rewrite lookup_insert_eq, raw_text_length; reflexivity|].
  intros Hne. rewrite <- raw_text_length.
  destruct (raw_text_padded pages Hne) as (mid & ->). apply strip_padded.
Qed.

Lemma load_pdf_counts_unstripped_text_witness :
  exists d,
    load_pdf sample_path (of_string "a.pdf") = Ok d /\
    exists pages,
      path_pages (sample_path (of_string "a.pdf")) = Ok pages /\
      full_text d = py_strip (raw_text pages) /\
      doc_metadata d !! "num_pages" = Some (VInt (py_len pages)) /\
      doc_metadata d !! "total_chars"
        = Some (VInt (py_len (concat pages) + 2 * py_len pages)) /\
      (pages <> [] ->
       py_len (full_text d) + 2 <= py_len (concat pages) + 2 * py_len pages).
Proof.
  eexists. split.
  - vm_compute. reflexivity.
  - apply (load_pdf_counts_unstripped_text sample_path (of_string "a.pdf")).
    vm_compute. reflexivity.
Defined.

Lemma loaded_filename Path file_path d :
  load_pdf Path file_path = Ok d ->
  doc_metadata d !! "filename" = Some (VStr (path_name (Path file_path))) /\
  doc_metadata d !! "filepath" = Some (VStr (path_str (Path file_path))).
Proof.
  intros Hd. destruct (load_pdf_Ok Path file_path d Hd) as (pages & _ & _ & ->).
  cbn [doc_metadata]. split.
  - rewrite !lookup_insert_ne by done. apply lookup_insert_eq.
  - rewrite !lookup_insert_ne by done. apply lookup_insert_eq.
Qed.

(** X15: every chunk [process_pdf] returns for a file is identified by the
    file: the [i]-th chunk has [chunk_id = f"{name}_{i}"] with [name] the
    last component of the path, its metadata hold that name under
    [filename] and the path under [filepath], and its [chunk_number] is
    [i]. *)
Theorem process_pdf_names_chunks (self : Settings) (Path : pystr -> PdfPath)
    (fuel : nat) (file_path : pystr) (r : list DocumentChunk) :
  process_pdf self Path fuel file_path = Some (Ok r) ->
  forall (i : nat) c, r !! i = Some c ->
    chunk_id c
      = path_name (Path file_path) ++ of_string "_" ++ py_str_of_int (Z.of_nat i) /\
    metadata c !! "filename" = Some (VStr (path_name (Path file_path))) /\
    metadata c !! "filepath" = Some (VStr (path_str (Path file_path))) /\
    chunk_number c = Some (VInt (Z.of_nat i)).
Proof.
  unfold process_pdf. intros Hp i c Hc.
  destruct (load_pdf Path file_path) as [d|e] eqn:Hd; [|discriminate].
  destruct (chunk_text_fuel self (full_text d) (doc_metadata d) fuel)
    as [chunks|] eqn:Hr; [|discriminate].
  injection Hp as ->.
  destruct (loaded_filename Path file_path d Hd) as [Hname Hpath].
  destruct (loop_inv self (full_text d) (doc_metadata d) fuel init r
              (inv_init self (full_text d) (doc_metadata d)) Hr) as (b & Hch & _).
  destruct (chain_lookup self (full_text d) (doc_metadata d) 0 0 r b i c Hch Hc)
    as (x & _ & ->).
  rewrite chunk_id_make_chunk, chunk_number_make_chunk.
  rewrite !metadata_make_chunk by done.
  unfold dict_get. rewrite Hname. auto.
Qed.

Lemma process_pdf_names_chunks_witness :
  exists r,
    process_pdf small_settings sample_path 5 (of_string "a.pdf") = Some (Ok r) /\
    forall (i : nat) c, r !! i = Some c ->
      chunk_id c
        = path_name (sample_path (of_string "a.pdf")) ++ of_string "_"
            ++ py_str_of_int (Z.of_nat i) /\
      metadata c !! "filename"
        = Some (VStr (path_name (sample_path (of_string "a.pdf")))) /\
      metadata c !! "filepath"
        = Some (VStr (path_str (sample_path (of_string "a.pdf")))) /\
      chunk_number c = Some (VInt (Z.of_nat i)).
Proof.
  eexists. split.
  - vm_compute. reflexivity.
  - apply (process_pdf_names_chunks small_settings sample_path 5 (of_string "a.pdf")).
    vm_compute. reflexivity.
Defined.

(** *** Batch processing *)

Section Batch.

Variable self : Settings.
Variable Path : pystr -> PdfPath.

(** The chunks one file contributes to [process_directory]. *)
Definition contributes (pdf_file : pystr) (chunks : list DocumentChunk) : Prop :=
  match load_pdf Path pdf_file with
  | Ok d => chunk_text_returns self (full_text d) (doc_metadata d) chunks
  | Raise _ => chunks = []
  end.

Definition step (fuel : nat) (all_chunks : option (list DocumentChunk))
    (pdf_file : pystr) : option (list DocumentChunk) :=
  match all_chunks with
  | None => None
  | Some all_chunks =>
      match process_pdf self Path fuel pdf_file with
      | None => None
      | Some (Ok chunks) => Some (all_chunks ++ chunks)
      | Some (Raise _) => Some all_chunks
      end
  end.

(** The fuel that processes every file of the list. *)
Fixpoint enough (files : list pystr) : nat :=
  match files with
  | [] => O
  | f :: files =>
      Nat.max
        match load_pdf Path f with
        | Ok d => length (full_text d)
        | Raise _ => O
        end
        (enough files)
  end.

Lemma process_pdf_runs fuel pdf_file :
  (forall text a, a < snd (cut self text a) - chunk_overlap self) ->
  (match load_pdf Path pdf_file with
   | Ok d => length (full_text d)
   | Raise _ => O
   end <= fuel)%nat ->
  exists o, process_pdf self Path fuel pdf_file = Some o /\
    forall chunks, contributes pdf_file chunks <->
      match o with Ok r => chunks = r | Raise _ => chunks = [] end.
Proof.
  intros Hprog Hfuel. unfold process_pdf, contributes.
  destruct (load_pdf Path pdf_file) as [d|e].
  - destruct (loop_terminates self (full_text d) (doc_metadata d) fuel init
                (Hprog (full_text d))) as [r Hr].
    { simpl. unfold text_length, py_len. lia. }
    unfold chunk_text_fuel. rewrite Hr. eexists. split; [reflexivity|].
    intros chunks. split.
    + intros H. apply (returns_functional self (full_text d) (doc_metadata d));
        [exact H|exists fuel; exact Hr].
    + intros ->. exists fuel. exact Hr.
  - eexists. split; [reflexivity|]. tauto.
Qed.

Lemma fold_step fuel files acc :
  (forall text a, a < snd (cut self text a) - chunk_overlap self) ->
  (enough files <= fuel)%nat ->
  exists per_file,
    Forall2 contributes files per_file /\
    fold_left (step fuel) files (Some acc) = Some (acc ++ concat per_file).
Proof.
  intros Hprog. revert acc. induction files as [|f files IH]; intros acc Hfuel.
  - exists []. split; [constructor|]. simpl. rewrite app_nil_r. reflexivity.
  - cbn [enough] in Hfuel.
    destruct (process_pdf_runs fuel f Hprog ltac:(lia)) as (o & Ho & Hc).
    cbn [fold_left step]. rewrite Ho. destruct o as [r|e].
    + destruct (IH (acc ++ r) ltac:(lia)) as (per_file & HF & ->).
      exists (r :: per_file). split.
      * constructor; [apply Hc; reflexivity|exact HF].
      * simpl. rewrite app_assoc. reflexivity.
    + destruct (IH acc ltac:(lia)) as (per_file & HF & ->).
      exists ([] :: per_file). split.
      * constructor; [apply Hc; reflexivity|exact HF].
      * reflexivity.
Qed.

End Batch.

(** X16: [process_directory] skips the files that fail and nothing else.
    Under a configuration with [0 < chunk_overlap < chunk_size] and
    [chunk_overlap <= chunk_size / 2 + 1] it comes to an end, and its outcome
    is: the exception [exists()] raises; for a missing directory, the
    exception [mkdir] raises, or the empty list once the directory is
    created; for a directory that exists, the exception [glob] raises, or
    the chunks of the files that load, concatenated in the order [glob]
    lists the files, a file whose loading raises contributing nothing. *)
Theorem process_directory_skips_failures (self : Settings)
    (Path : pystr -> PdfPath) (dir_path : Directory) :
  well_formed self -> overlap_within_half self ->
  exists fuel result,
    process_directory self Path fuel dir_path = Some result /\
    match dir_exists dir_path with
    | Raise e => result = Raise e
    | Ok false =>
        match dir_mkdir dir_path with
        | Raise e => result = Raise e
        | Ok _ => result = Ok []
        end
    | Ok true =>
        match dir_glob dir_path with
        | Raise e => result = Raise e
        | Ok pdf_files =>
            exists per_file,
              Forall2 (contributes self Path) pdf_files per_file /\
              result = Ok (concat per_file)
        end
    end.
Proof.
  intros Hwf Hhalf. unfold process_directory.
  destruct (dir_exists dir_path) as [[|]|e].
  - destruct (dir_glob dir_path) as [pdf_files|e].
    + destruct (fold_step self Path (enough Path pdf_files) pdf_files [])
        as (per_file & HF & Hrun);
        [intros text a; apply next_gt; assumption|lia|].
      exists (enough Path pdf_files), (Ok (concat per_file)).
      split; [|eauto].
      change (fold_left _ pdf_files (Some []))
        with (fold_left (step self Path (enough Path pdf_files)) pdf_files (Some [])).
      rewrite Hrun. reflexivity.
    + exists O, (Raise e). auto.
  - destruct (dir_mkdir dir_path) as [[]|e]; exists O; eauto.
  - exists O, (Raise e). auto.
Qed.

Lemma process_directory_skips_failures_witness :
  (exists fuel result,
     process_directory default_settings sample_path fuel sample_directory
       = Some result /\
     exists per_file,
       Forall2 (contributes default_settings sample_path)
         [of_string "a.pdf"; of_string "missing.pdf"] per_file /\
       result = Ok (concat per_file)) /\
  (exists fuel result,
     process_directory default_settings sample_path fuel locked_directory
       = Some result /\
     result = Raise (of_string "Permission denied")).
Proof.
  split.
  - apply (process_directory_skips_failures default_settings sample_path
             sample_directory).
    + unfold well_formed. simpl. lia.
    + apply Z.leb_le. reflexivity.
  - apply (process_directory_skips_failures default_settings sample_path
             locked_directory).
    + unfold well_formed. simpl. lia.
    + apply Z.leb_le. reflexivity.
Defined.

(** *** Identifiers across the files of a directory *)

(** *** The characters of a rendered integer *)

Definition underscore : char := 95%N.

Lemma uint_chars d c :
  c ∈ of_string (NilEmpty.string_of_uint d) -> (48 <= c <= 57)%N.
Proof.
  induction d as [|d IH|d IH|d IH|d IH|d IH|d IH|d IH|d IH|d IH|d IH];
    cbn [NilEmpty.string_of_uint of_string]; intros Hc;
    [apply elem_of_nil in Hc; destruct Hc|..];
    (apply elem_of_cons in Hc as [->|Hc]; [vm_compute; split; discriminate|auto]).
Qed.

Lemma py_str_of_int_chars n c :
  c ∈ py_str_of_int n -> c = 45%N \/ (48 <= c <= 57)%N.
Proof.
  unfold py_str_of_int, NilZero.string_of_int.
  assert (Hu : forall d, c ∈ of_string (NilZero.string_of_uint d) ->
                         (48 <= c <= 57)%N).
  { intros d. unfold NilZero.string_of_uint. destruct d; try apply uint_chars.
    cbn [of_string]. intros Hc.
    apply elem_of_cons in Hc as [->|Hc]; [vm_compute; split; discriminate|].
    apply elem_of_nil in Hc. destruct Hc. }
  destruct (Z.to_int n) as [d|d]; cbn [of_string]; intros Hc.
  - right. apply (Hu d Hc).
  - apply elem_of_cons in Hc as [->|Hc]; [left; reflexivity|right; apply (Hu d Hc)].
Qed.

Lemma py_str_of_int_no_underscore n : underscore ∉ py_str_of_int n.
Proof.
  intros H. apply py_str_of_int_chars in H as [H|H];
    [discriminate H|unfold underscore in H; lia].
Qed.

(** A separator that occurs in neither tail splits a string in one way. *)
Lemma split_at_last {A} (u : A) (a b x y : list A) :
  u ∉ x -> u ∉ y -> a ++ u :: x = b ++ u :: y -> a = b /\ x = y.
Proof.
  intros Hx Hy. revert b. induction a as [|c a IH]; intros [|c' b]; cbn [app].
  - intros [= ->]. auto.
  - intros [= <- ->]. destruct Hx. apply elem_of_app. right. left.
  - intros [= -> <-]. destruct Hy. apply elem_of_app. right. left.
  - intros [= <- H]. destruct (IH b H) as [-> ->]. auto.
Qed.

(** [id] is the identifier of a chunk of the file called [name]. *)
Definition tagged (name id : pystr) : Prop :=
  exists n, id = name ++ of_string "_" ++ py_str_of_int n.

Lemma tagged_name name1 name2 id : tagged name1 id -> tagged name2 id -> name1 = name2.
Proof.
  intros [n1 ->] [n2 H]. change (of_string "_") with [underscore] in H.
  cbn [app] in H.
  apply split_at_last in H as [H _]; auto using py_str_of_int_no_underscore.
Qed.

(** The chunks of one file, identified by the file's name and their index. *)
Definition indexed (name : pystr) (r : list DocumentChunk) : Prop :=
  forall (i : nat) c, r !! i = Some c ->
    chunk_id c = name ++ of_string "_" ++ py_str_of_int (Z.of_nat i).

Lemma indexed_NoDup name r : indexed name r -> NoDup (chunk_id <$> r).
Proof.
  intros Hr. apply NoDup_alt. intros i j s Hs1 Hs2.
  rewrite list_lookup_fmap in Hs1, Hs2.
  destruct (r !! i) as [ci|] eqn:Ei; [|discriminate].
  destruct (r !! j) as [cj|] eqn:Ej; [|discriminate].
  injection Hs1 as Hs1. injection Hs2 as Hs2.
  rewrite (Hr _ _ Ei) in Hs1. rewrite (Hr _ _ Ej) in Hs2. rewrite <- Hs2 in Hs1.
  apply app_inv_head, app_inv_head, py_str_of_int_inj in Hs1. lia.
Qed.

Lemma indexed_tagged name r id : indexed name r -> id ∈ chunk_id <$> r -> tagged name id.
Proof.
  intros Hr Hid. apply list_elem_of_fmap in Hid as (c & -> & Hc).
  apply list_elem_of_lookup_1 in Hc as [i Hi]. eexists. apply (Hr _ _ Hi).
Qed.

Section Directory.

Variable self : Settings.
Variable Path : pystr -> PdfPath.

Lemma process_pdf_indexed fuel file_path r :
  process_pdf self Path fuel file_path = Some (Ok r) ->
  indexed (path_name (Path file_path)) r.
Proof.
  unfold process_pdf. intros Hp i c Hc.
  destruct (load_pdf Path file_path) as [d|e] eqn:Hd; [|discriminate].
  destruct (chunk_text_fuel self (full_text d) (doc_metadata d) fuel)
    as [chunks|] eqn:Hr; [|discriminate].
  injection Hp as ->.
  destruct (loaded_filename Path file_path d Hd) as [Hname _].
  destruct (loop_inv self (full_text d) (doc_metadata d) fuel init r
              (inv_init self (full_text d) (doc_metadata d)) Hr) as (b & Hch & _).
  destruct (chain_lookup self (full_text d) (doc_metadata d) 0 0 r b i c Hch Hc)
    as (x & _ & ->).
  rewrite chunk_id_make_chunk. unfold dict_get. rewrite Hname. reflexivity.
Qed.

Lemma step_None fuel files : fold_left (step self Path fuel) files None = None.
Proof. induction files as [|f files IH]; [reflexivity|exact IH]. Qed.

Lemma fold_indexed fuel files acc out :
  fold_left (step self Path fuel) files (Some acc) = Some out ->
  exists per_file,
    out = acc ++ concat per_file /\
    Forall2 (fun f r => indexed (path_name (Path f)) r) files per_file.
Proof.
  revert acc. induction files as [|f files IH]; intros acc; cbn [fold_left].
  - intros [= <-]. exists []. split; [simpl; rewrite app_nil_r; reflexivity|constructor].
  - unfold step at 2.
    destruct (process_pdf self Path fuel f) as [[r|e]|] eqn:Hp.
    + intros H. destruct (IH _ H) as (per_file & -> & HF).
      exists (r :: per_file). split; [simpl; rewrite app_assoc; reflexivity|].
      constructor; [exact (process_pdf_indexed fuel f r Hp)|exact HF].
    + intros H. destruct (IH _ H) as (per_file & -> & HF).
      exists ([] :: per_file). split; [reflexivity|].
      constructor; [|exact HF]. intros i c Hc. discriminate Hc.
    + rewrite step_None. discriminate.
Qed.

Lemma concat_tagged files per_file id :
  Forall2 (fun f r => indexed (path_name (Path f)) r) files per_file ->
  id ∈ chunk_id <$> concat per_file ->
  exists f, f ∈ files /\ tagged (path_name (Path f)) id.
Proof.
  induction 1 as [|f r files per_file Hr _ IH]; cbn [concat].
  - intros H. apply elem_of_nil in H. destruct H.
  - rewrite fmap_app. intros H. apply elem_of_app in H as [H|H].
    + exists f. split; [left|exact (indexed_tagged _ _ _ Hr H)].
    + destruct (IH H) as (g & Hg & Ht). exists g. split; [right; exact Hg|exact Ht].
Qed.

Lemma concat_NoDup files per_file :
  NoDup ((fun f => path_name (Path f)) <$> files) ->
  Forall2 (fun f r => indexed (path_name (Path f)) r) files per_file ->
  NoDup (chunk_id <$> concat per_file).
Proof.
  intros Hnames HF. induction HF as [|f r files per_file Hr HF IH]; cbn [concat].
  - constructor.
  - rewrite fmap_cons in Hnames. apply NoDup_cons in Hnames as [Hf Hnames].
    rewrite fmap_app. apply NoDup_app. split; [exact (indexed_NoDup _ _ Hr)|].
    split; [|exact (IH Hnames)].
    intros id Hid Hin.
    destruct (concat_tagged files per_file id HF Hin) as (g & Hg & Ht).
    apply Hf. rewrite (tagged_name _ _ id (indexed_tagged _ _ _ Hr Hid) Ht).
    apply list_elem_of_fmap. exists g. auto.
Qed.

End Directory.

(** X26: when the files [glob] finds have pairwise distinct names, no two
    chunks [process_directory] returns share a [chunk_id], within a file or
    across files: the list can be handed to the vector store as one batch of
    distinct identifiers. *)
Theorem directory_chunk_ids_are_distinct (self : Settings)
    (Path : pystr -> PdfPath) (fuel : nat) (dir_path : Directory)
    (all_chunks : list DocumentChunk) :
  (forall pdf_files, dir_glob dir_path = Ok pdf_files ->
     NoDup ((fun pdf_file => path_name (Path pdf_file)) <$> pdf_files)) ->
  process_directory self Path fuel dir_path = Some (Ok all_chunks) ->
  NoDup (chunk_id <$> all_chunks).
Proof.
  intros Hnames. unfold process_directory.
  destruct (dir_exists dir_path) as [[|]|e]; [| |discriminate].
  - destruct (dir_glob dir_path) as [pdf_files|e]; [|discriminate].
    specialize (Hnames pdf_files eq_refl).
    change (fold_left _ pdf_files (Some []))
      with (fold_left (step self Path fuel) pdf_files (Some [])).
    destruct (fold_left (step self Path fuel) pdf_files (Some []))
      as [out|] eqn:H; [|discriminate].
    intros [= <-].
    destruct (fold_indexed self Path fuel pdf_files [] out H)
      as (per_file & -> & HF).
    apply (concat_NoDup Path pdf_files); assumption.
  - destruct (dir_mkdir dir_path) as [[]|e]; [|discriminate].
    intros [= <-]. constructor.
Qed.

(** Two files that differ in their names only. *)
Definition named_path (file_path : pystr) : PdfPath :=
  {| path_name := file_path;
     path_str := file_path;
     path_exists := true;
     path_pages := Ok [of_string "One."; of_string "Two."] |}.

Definition two_files : Directory :=
  {| dir_exists := Ok true;
     dir_mkdir := Ok tt;
     dir_glob := Ok [of_string "a.pdf"; of_string "b.pdf"] |}.

Lemma directory_chunk_ids_are_distinct_witness :
  exists all_chunks,
    process_directory small_settings named_path 5 two_files
      = Some (Ok all_chunks) /\
    NoDup (chunk_id <$> all_chunks).
Proof.
  eexists. split.
  - vm_compute. reflexivity.
  - apply (directory_chunk_ids_are_distinct small_settings named_path 5 two_files).
    + intros pdf_files [= <-].
      apply NoDup_cons. split; [|apply NoDup_singleton].
      intros H. apply elem_of_cons in H as [H|H]; [discriminate H|].
      apply elem_of_nil in H. destruct H.
    + vm_compute. reflexivity.
Defined.

End IngestionFacts.

(** * Properties of the vector store's search and of the embedding *)

Module VectorStoreFacts.
Import ChunkerLaws VectorStore Pipeline WebSearch.

(** The first row of a column, when the column is there. *)
Definition first_row {A} (column : option (list (list A))) : option (list A) :=
  match column with
  | Some (row :: _) => Some row
  | _ => None
  end.

(** The row is long enough for [n] documents. *)
Definition covers {A} (column : option (list (list A))) (n : nat) : bool :=
  match first_row column with
  | Some row => (n <=? length row)%nat
  | None => true
  end.

Definition entry {A} (column : option (list (list A))) (i : nat)
    (default_value : option A) : option A :=
  match first_row column with
  | Some row => row !! i
  | None => default_value
  end.

Lemma cell_covered {A} (column : option (list (list A))) n i dv :
  covers column n = true -> (i < n)%nat -> cell column i dv = Ok (entry column i dv).
Proof.
  unfold covers, cell, entry, first_row. intros Hc Hi.
  destruct column as [[|row rows]|]; try reflexivity.
  apply Nat.leb_le in Hc.
  destruct (row !! i) eqn:E; [reflexivity|].
  apply lookup_ge_None in E. lia.
Qed.

Lemma cell_uncovered {A} (column : option (list (list A))) n dv :
  covers column n = true -> covers column (S n) = false ->
  cell column n dv = Raise index_error.
Proof.
  unfold covers, cell, first_row. intros Hc Hn.
  destruct column as [[|row rows]|]; try discriminate.
  apply Nat.leb_le in Hc. apply Nat.leb_gt in Hn.
  destruct (row !! n) eqn:E; [|reflexivity].
  apply lookup_lt_Some in E. lia.
Qed.

Lemma cell_outcome {A} (column : option (list (list A))) i dv :
  (exists x, cell column i dv = Ok x) \/ cell column i dv = Raise index_error.
Proof.
  unfold cell. destruct column as [[|row rows]|]; eauto.
  destruct (row !! i); eauto.
Qed.

(** The dictionary appended for the [i]-th document. *)
Definition formatted (results : QueryResult) (i : nat) (doc : pystr) : KBResult :=
  {| kb_content := Some doc;
     kb_metadata := entry (metadatas results) i (Some ∅);
     kb_distance := entry (distances results) i (Some 0%float);
     kb_id := entry (ids results) i None |}.

(** All three optional columns reach [n] documents. *)
Definition complete (results : QueryResult) (n : nat) : bool :=
  covers (metadatas results) n && covers (distances results) n
  && covers (ids results) n.

Definition append_row (results : QueryResult)
    (formatted_results : outcome (list KBResult)) (idoc : nat * pystr)
  : outcome (list KBResult) :=
  match formatted_results with
  | Raise e => Raise e
  | Ok formatted_results =>
      let i := fst idoc in
      match cell (metadatas results) i (Some ∅) with
      | Raise e => Raise e
      | Ok metadata =>
          match cell (distances results) i (Some 0%float) with
          | Raise e => Raise e
          | Ok distance =>
              match cell (ids results) i None with
              | Raise e => Raise e
              | Ok id =>
                  Ok (formatted_results
                        ++ [ {| kb_content := Some (snd idoc);
                                kb_metadata := metadata;
                                kb_distance := distance;
                                kb_id := id |} ])
              end
          end
      end
  end.

Lemma format_results_rows results :
  format_results results =
  match documents results with
  | Some ((doc0 :: docs) :: _) =>
      fold_left (append_row results) (imap pair (doc0 :: docs)) (Ok [])
  | _ => Ok []
  end.
Proof. reflexivity. Qed.

Lemma row_raised results e l : fold_left (append_row results) l (Raise e) = Raise e.
Proof. induction l as [|x l IH]; [reflexivity|exact IH]. Qed.

Lemma covers_S {A} (column : option (list (list A))) n :
  covers column (S n) = true -> covers column n = true.
Proof.
  unfold covers. destruct (first_row column); [|reflexivity].
  intros H. apply Nat.leb_le in H. apply Nat.leb_le. lia.
Qed.

Lemma complete_S results n : complete results (S n) = true -> complete results n = true.
Proof.
  unfold complete. rewrite !andb_true_iff. intros [[H1 H2] H3].
  auto using covers_S.
Qed.

Lemma row_step results acc j doc :
  complete results j = true ->
  append_row results (Ok acc) (j, doc) =
  if complete results (S j) then Ok (acc ++ [formatted results j doc])
  else Raise index_error.
Proof.
  unfold complete. rewrite !andb_true_iff. intros [[Hm Hd] Hi].
  unfold append_row. cbn [fst snd].
  destruct (covers (metadatas results) (S j)) eqn:Em.
  - rewrite (cell_covered _ (S j)) by (assumption || lia).
    destruct (covers (distances results) (S j)) eqn:Ed.
    + rewrite (cell_covered _ (S j)) by (assumption || lia).
      destruct (covers (ids results) (S j)) eqn:Ei.
      * rewrite (cell_covered _ (S j)) by (assumption || lia). reflexivity.
      * rewrite (cell_uncovered _ j) by assumption. reflexivity.
    + rewrite (cell_uncovered _ j) by assumption. reflexivity.
  - rewrite (cell_uncovered _ j) by assumption. reflexivity.
Qed.

Lemma format_loop (results : QueryResult) (docs : list pystr)
    (j : nat) (acc : list KBResult) :
  complete results j = true ->
  fold_left (append_row results) (imap (fun i => pair (j + i)%nat) docs) (Ok acc)
  = if complete results (j + length docs)
    then Ok (acc ++ imap (fun i => formatted results (j + i)) docs)
    else Raise index_error.
Proof.
  revert j acc. induction docs as [|doc docs IH]; intros j acc Hj.
  - simpl. rewrite Nat.add_0_r, Hj, app_nil_r. reflexivity.
  - cbn [imap fold_left length]. rewrite Nat.add_0_r, row_step by exact Hj.
    rewrite (imap_ext _ (fun i => pair (S j + i)%nat))
      by (intros; unfold compose; f_equal; lia).
    replace (j + S (length docs))%nat with (S j + length docs)%nat by lia.
    destruct (complete results (S j)) eqn:ES.
    + rewrite IH by exact ES.
      destruct (complete results (S j + length docs)); [|reflexivity].
      rewrite <- app_assoc. cbn [app]. do 3 f_equal.
      apply imap_ext. intros. unfold compose. f_equal. lia.
    + rewrite row_raised.
      destruct (complete results (S j + length docs)) eqn:E; [|reflexivity].
      exfalso. clear -E ES. induction (length docs) as [|m IHm].
      * rewrite Nat.add_0_r in E. congruence.
      * apply IHm. apply complete_S.
        replace (S (S j + m)) with (S j + S m)%nat by lia. exact E.
Qed.

Lemma complete_0 results : complete results 0 = true.
Proof.
  unfold complete, covers.
  destruct (first_row (metadatas results)), (first_row (distances results)),
    (first_row (ids results)); reflexivity.
Qed.

Lemma format_results_run results doc0 docs others :
  documents results = Some ((doc0 :: docs) :: others) ->
  format_results results =
  if complete results (S (length docs))
  then Ok (imap (formatted results) (doc0 :: docs))
  else Raise index_error.
Proof.
  intros Hdocs. rewrite format_results_rows, Hdocs.
  pose proof (format_loop results (doc0 :: docs) 0 [] (complete_0 results)) as H.
  cbn [Nat.add length] in H.
  rewrite (imap_ext (fun i => pair (0 + i)%nat) pair) in H by reflexivity.
  rewrite H. destruct (complete results (S (length docs))); reflexivity.
Qed.

(** X17: the loop of [VectorStore.search] that formats a Chroma response
    returns one dictionary per document of the first row, in row order, the
    [i]-th one made of the [i]-th document, metadata, distance and id (an
    absent column gives [{}], 0.0 and [None]); it raises [IndexError] exactly
    when a column that is present has a first row shorter than the
    documents; and it returns the empty list when there are no documents. *)
Theorem search_results_follow_the_rows (results : QueryResult) :
  match documents results with
  | Some ((doc0 :: docs) :: _) =>
      if complete results (S (length docs))
      then format_results results = Ok (imap (formatted results) (doc0 :: docs))
      else format_results results = Raise index_error
  | _ => format_results results = Ok []
  end.
Proof.
  destruct (documents results) as [[|[|doc0 docs] others]|] eqn:Hdocs;
    try (rewrite format_results_rows, Hdocs; reflexivity).
  rewrite (format_results_run results doc0 docs others Hdocs).
  destruct (complete results (S (length docs))); reflexivity.
Qed.

(** X18: when Chroma returns documents without distances, every formatted
    result gets distance 0.0, so the pipeline scores the answer with
    confidence 1.0 and the search gate fires only for a threshold above
    1.0. *)
Theorem missing_distances_count_as_exact (results : QueryResult)
    (doc0 : pystr) (docs : list pystr) (others : list (list pystr)) :
  documents results = Some ((doc0 :: docs) :: others) ->
  first_row (distances results) = None ->
  complete results (S (length docs)) = true ->
  exists rs,
    format_results results = Ok rs /\
    Forall (fun r => kb_distance r = Some 0%float) rs /\
    _calculate_confidence rs = 1%float /\
    forall threshold, should_use_search rs threshold = (1 <? threshold)%float.
Proof.
  intros Hdocs Hdist Hc.
  pose proof (format_results_run results doc0 docs others Hdocs) as H.
  rewrite Hc in H. eexists. split; [exact H|].
  assert (Hd : forall i doc, kb_distance (formatted results i doc) = Some 0%float).
  { intros i doc. unfold formatted, entry. cbn [kb_distance]. rewrite Hdist. reflexivity. }
  split; [|split].
  - apply Forall_forall. intros r Hr.
    apply list_elem_of_lookup_1 in Hr as [i Hi].
    apply list_lookup_imap_Some in Hi as (doc & _ & ->). apply Hd.
  - cbn [imap _calculate_confidence]. rewrite Hd. reflexivity.
  - intros threshold. cbn [imap should_use_search]. rewrite Hd. reflexivity.
Qed.

Definition bare_results : QueryResult :=
  {| documents := Some [[of_string "first"; of_string "second"]];
     metadatas := None; distances := None; ids := None |}.

Lemma missing_distances_count_as_exact_witness :
  exists rs,
    format_results bare_results = Ok rs /\
    Forall (fun r => kb_distance r = Some 0%float) rs /\
    _calculate_confidence rs = 1%float /\
    forall threshold, should_use_search rs threshold = (1 <? threshold)%float.
Proof.
  apply (missing_distances_count_as_exact bare_results (of_string "first")
           [of_string "second"] []); reflexivity.
Defined.

(** X19: for an empty or whitespace-only text [generate_embedding] returns
    the zero vector of the model's dimension without calling the model, and
    [VectorStore.search] then queries the collection with that zero vector;
    every other text is handed to the model. *)
Theorem blank_text_embeds_to_zero (dimension : Z)
    (encode : pystr -> outcome (list float)) (text : pystr) :
  all_space text ->
  generate_embedding dimension encode text
    = Ok (replicate (Z.to_nat dimension) 0%float) /\
  (forall collection k,
     VectorStore.search dimension encode collection text k =
     match count collection with
     | Ok n =>
         match collection_query collection
                 (replicate (Z.to_nat dimension) 0%float) (Z.min k n) with
         | Ok results => format_results results
         | Raise e => Raise e
         end
     | Raise e => Raise e
     end) /\
  (forall other, ~ all_space other ->
     generate_embedding dimension encode other = encode other).
Proof.
  intros Hs.
  assert (Hblank : generate_embedding dimension encode text
                   = Ok (replicate (Z.to_nat dimension) 0%float)).
  { unfold generate_embedding.
    apply py_strip_nil in Hs. rewrite Hs, orb_true_r. reflexivity. }
  split; [exact Hblank|]. split.
  - intros collection k. unfold VectorStore.search. rewrite Hblank. reflexivity.
  - intros other Ho. unfold generate_embedding.
    destruct other as [|c other]; [destruct Ho; constructor|].
    destruct (py_strip (c :: other)) eqn:E; [|reflexivity].
    destruct Ho. apply py_strip_nil. exact E.
Qed.

Lemma blank_text_embeds_to_zero_witness :
  generate_embedding 3 (fun _ => Ok []) (of_string "  ")
    = Ok (replicate (Z.to_nat 3) 0%float) /\
  (forall collection k,
     VectorStore.search 3 (fun _ => Ok []) collection (of_string "  ") k =
     match count collection with
     | Ok n =>
         match collection_query collection
                 (replicate (Z.to_nat 3) 0%float) (Z.min k n) with
         | Ok results => format_results results
         | Raise e => Raise e
         end
     | Raise e => Raise e
     end) /\
  (forall other, ~ all_space other ->
     generate_embedding 3 (fun _ => Ok []) other = (fun _ => Ok []) other).
Proof.
  apply (blank_text_embeds_to_zero 3 (fun _ => Ok []) (of_string "  ")).
  repeat constructor.
Defined.

End VectorStoreFacts.

(** * Properties of the health check *)

Module HealthFacts.
Import Health.

(** X20: in every response of [detailed_health_check] the LLM status and
    the search status equal the vector-store status; the overall status is
    ["healthy"] exactly when the pipeline was built and [get_stats]
    returned, and otherwise it is ["degraded"] with every component
    ["unknown"] and no document counted. *)
Theorem health_follows_the_vector_store (pipeline : option RAGPipeline) :
  let r := detailed_health_check pipeline in
  llm_status r = vector_db_status r /\
  search_status r = vector_db_status r /\
  (status r = of_string "healthy" <->
   exists p stats, pipeline = Some p /\ get_stats p = Ok stats) /\
  (status r <> of_string "healthy" ->
   status r = of_string "degraded" /\
   vector_db_status r = of_string "unknown" /\
   documents_indexed r = VInt 0).
Proof.
  cbv zeta. unfold detailed_health_check.
  destruct pipeline as [p|]; [destruct (get_stats p) as [stats|e] eqn:E|];
    cbn [status llm_status vector_db_status search_status documents_indexed].
  - split; [reflexivity|]. split; [reflexivity|]. split.
    + split; [eauto|reflexivity].
    + intros Hs. exfalso. apply Hs. reflexivity.
  - split; [reflexivity|]. split; [reflexivity|]. split.
    + split; [discriminate|]. intros (p' & stats & [= <-] & Hp). congruence.
    + intros _. auto.
  - split; [reflexivity|]. split; [reflexivity|]. split.
    + split; [discriminate|]. intros (p' & stats & [=] & _).
    + intros _. auto.
Qed.

End HealthFacts.

(** * Properties of the route handlers *)

Module RoutesFacts.
Import Chunker Routes.

(** Services for the examples: a store that holds one chunk of every file
    and a directory that holds every file; and one that knows no file. *)
Definition sample_services : Services :=
  {| pdf_path := fun filename => of_string "data/pdfs/" ++ filename;
     path_exists := fun _ => true;
     write_file := fun _ => Ok tt;
     unlink := fun _ => Ok tt;
     process_pdf := fun _ => Ok [];
     process_directory := Ok [];
     add_documents := fun _ => Ok tt;
     clear_collection := Ok tt;
     get_stats := Ok {| total_chunks := 0; unique_files := 0 |};
     collection_get := fun filename => Ok [filename ++ of_string "_0"];
     collection_delete := fun _ => Ok tt;
     http_exception_str :=
       fun status_code detail => py_str_of_int status_code ++ of_string ": " ++ detail |}.

Definition empty_services : Services :=
  {| pdf_path := pdf_path sample_services;
     path_exists := fun _ => false;
     write_file := write_file sample_services;
     unlink := unlink sample_services;
     process_pdf := process_pdf sample_services;
     process_directory := process_directory sample_services;
     add_documents := add_documents sample_services;
     clear_collection := clear_collection sample_services;
     get_stats := get_stats sample_services;
     collection_get := fun _ => Ok [];
     collection_delete := collection_delete sample_services;
     http_exception_str := http_exception_str sample_services |}.

(** Membership in a trace that is known action by action. *)
Ltac in_trace H :=
  repeat first
    [ apply elem_of_nil in H; destruct H
    | apply elem_of_cons in H as [H|H]; [try discriminate H|] ].

Lemma guarded_trace {A} (s : Services) prefix (body : R A) :
  snd (guarded s prefix body) = snd body.
Proof. unfold guarded. destruct body as [[a|e] t]; reflexivity. Qed.

Lemma guarded_failure {A} (s : Services) prefix (body : R A) e :
  fst (guarded s prefix body) = Throw e ->
  exists cause, fst body = Throw cause /\ e = HTTPException 500 (prefix ++ str s cause).
Proof.
  unfold guarded. destruct body as [[a|e'] t]; [discriminate|].
  intros [= <-]. eauto.
Qed.

(** X21: [upload_pdf] never answers with a status other than 500 when it
    fails: the 400 raised for a file name that does not end in [.pdf] is
    caught by the handler's own [except Exception] and reported as a 500
    whose detail embeds the text of the 400, before anything is written; and
    a successful upload has written the file, processed it, indexed its
    chunks and read the statistics, in this order, and reports the number of
    chunks of the file and the store's total. *)
Theorem upload_reports_every_failure_as_500 (s : Services) (file_filename : pystr) :
  (forall e, fst (upload_pdf s file_filename) = Throw e ->
     exists cause,
       e = HTTPException 500 (of_string "Error uploading PDF: " ++ str s cause)) /\
  (py_endswith file_filename (of_string ".pdf") = false ->
   upload_pdf s file_filename =
     (Throw (HTTPException 500
               (of_string "Error uploading PDF: "
                  ++ http_exception_str s 400 (of_string "Only PDF files are supported"))),
      [])) /\
  (forall r, fst (upload_pdf s file_filename) = Return r ->
     exists chunks stats,
       process_pdf s (pdf_path s file_filename) = Ok chunks /\
       get_stats s = Ok stats /\
       chunks_created r = py_len chunks /\
       total_documents r = total_chunks stats /\
       filename r = file_filename /\
       snd (upload_pdf s file_filename) =
         [WriteFile (pdf_path s file_filename);
          ProcessPdf (pdf_path s file_filename);
          AddDocuments chunks; GetStats]).
Proof.
  split.
  { intros e He. unfold upload_pdf in He.
    apply guarded_failure in He as (cause & _ & ->). eauto. }
  unfold upload_pdf.
  destruct (py_endswith file_filename (of_string ".pdf")) eqn:Ext; cbn [negb].
  2:{ split; [reflexivity|]. intros r Hr. discriminate Hr. }
  split; [discriminate|].
  unfold guarded, mbind, R_bind, call, mret, R_ret.
  destruct (write_file s _) as [[]|e1]; cbn; [|discriminate].
  destruct (process_pdf s _) as [chunks|e2]; cbn; [|discriminate].
  destruct (add_documents s chunks) as [[]|e3]; cbn; [|discriminate].
  destruct (get_stats s) as [stats|e4]; cbn; [|discriminate].
  intros r [= <-]. exists chunks, stats. cbn. auto 10.
Qed.

(** X22: [delete_document] removes the file only after the vector store has
    been asked for the chunks of the file and, when there are any, after
    their deletion succeeded; the file removed is the one of that name in
    the PDF directory, and it existed. *)
Theorem delete_unlinks_after_the_store (s : Services) (filename file_path : pystr) :
  Unlink file_path ∈ snd (delete_document s filename) ->
  file_path = pdf_path s filename /\
  path_exists s file_path = true /\
  exists ids,
    collection_get s filename = Ok ids /\
    (ids = [] \/ collection_delete s ids = Ok tt) /\
    snd (delete_document s filename) =
      CollectionGet filename
        :: match ids with [] => [] | _ => [CollectionDelete ids] end
        ++ [Unlink file_path].
Proof.
  unfold delete_document. rewrite guarded_trace.
  unfold delete_by_filename, mbind, R_bind, call, mret, R_ret.
  destruct (collection_get s filename) as [ids|e]; cbn.
  2:{ intros H. in_trace H. }
  destruct ids as [|i ids]; cbn.
  - destruct (path_exists s (pdf_path s filename)) eqn:Ex; cbn.
    + destruct (unlink s (pdf_path s filename)) as [[]|e]; cbn;
        intros H; in_trace H; injection H as ->; eauto 10.
    + intros H. in_trace H.
  - destruct (collection_delete s (i :: ids)) as [[]|e] eqn:Ed; cbn.
    2:{ intros H. in_trace H. }
    destruct (path_exists s (pdf_path s filename)) eqn:Ex; cbn.
    + destruct (unlink s (pdf_path s filename)) as [[]|e]; cbn;
        intros H; in_trace H; injection H as ->; eauto 10.
    + intros H. in_trace H.
Qed.

Lemma delete_unlinks_after_the_store_witness :
  let filename := of_string "guide.pdf" in
  let file_path := of_string "data/pdfs/guide.pdf" in
  file_path = pdf_path sample_services filename /\
  path_exists sample_services file_path = true /\
  exists ids,
    collection_get sample_services filename = Ok ids /\
    (ids = [] \/ collection_delete sample_services ids = Ok tt) /\
    snd (delete_document sample_services filename) =
      CollectionGet filename
        :: match ids with [] => [] | _ => [CollectionDelete ids] end
        ++ [Unlink file_path].
Proof.
  apply (delete_unlinks_after_the_store sample_services (of_string "guide.pdf")
           (of_string "data/pdfs/guide.pdf")).
  vm_compute. do 2 (apply elem_of_cons; right). apply elem_of_cons. left. reflexivity.
Defined.

(** X23: deleting a document the store has no chunk of and the directory
    has no file of succeeds: after the one lookup in the store, nothing is
    deleted and the handler answers ["Successfully deleted <filename>"]. *)
Theorem delete_of_unknown_document_succeeds (s : Services) (filename : pystr) :
  collection_get s filename = Ok [] ->
  path_exists s (pdf_path s filename) = false ->
  delete_document s filename =
    (Return (of_string "Successfully deleted " ++ filename),
     [CollectionGet filename]).
Proof.
  intros Hget Hex. unfold delete_document, delete_by_filename, guarded,
    mbind, R_bind, call, mret, R_ret.
  rewrite Hget. cbn. rewrite Hex. reflexivity.
Qed.

Lemma delete_of_unknown_document_succeeds_witness :
  delete_document empty_services (of_string "ghost.pdf") =
    (Return (of_string "Successfully deleted " ++ of_string "ghost.pdf"),
     [CollectionGet (of_string "ghost.pdf")]).
Proof.
  apply (delete_of_unknown_document_succeeds empty_services (of_string "ghost.pdf"));
    reflexivity.
Defined.

(** X24: [reindex_all] clears the collection before anything else and is
    not atomic: [add_documents] is called only with the non-empty list
    [process_directory] returned; every failure is reported as a 500; and
    when indexing the chunks fails, the handler stops with the collection
    cleared and nothing added. *)
Theorem reindex_clears_before_it_fills (s : Services) :
  (exists rest,
     snd (reindex_all s) = ClearCollection :: rest /\
     forall chunks, AddDocuments chunks ∈ rest ->
       chunks <> [] /\ process_directory s = Ok chunks /\
       clear_collection s = Ok tt) /\
  (forall e, fst (reindex_all s) = Throw e ->
     exists cause,
       e = HTTPException 500 (of_string "Error during reindexing: " ++ str s cause)) /\
  (forall chunks e,
     clear_collection s = Ok tt -> process_directory s = Ok chunks ->
     chunks <> [] -> add_documents s chunks = Raise e ->
     reindex_all s =
       (Throw (HTTPException 500 (of_string "Error during reindexing: " ++ e)),
        [ClearCollection; ProcessDirectory; AddDocuments chunks])).
Proof.
  split; [|split].
  - unfold reindex_all. rewrite guarded_trace.
    unfold mbind, R_bind, call, mret, R_ret.
    destruct (clear_collection s) as [[]|e0]; cbn.
    2:{ eexists. split; [reflexivity|]. intros c H. in_trace H. }
    destruct (process_directory s) as [chunks|e1]; cbn.
    2:{ eexists. split; [reflexivity|]. intros c H. in_trace H. }
    destruct chunks as [|c chunks]; cbn.
    + destruct (get_stats s) as [stats|e2]; cbn;
        (eexists; split; [reflexivity|]; intros c H; in_trace H).
    + destruct (add_documents s (c :: chunks)) as [[]|e2]; cbn;
        [destruct (get_stats s) as [stats|e3]; cbn|];
        (eexists; split; [reflexivity|]; intros c' H; in_trace H;
         injection H as ->; split; [discriminate|auto]).
  - intros e He. unfold reindex_all in He.
    apply guarded_failure in He as (cause & _ & ->). eauto.
  - intros chunks e Hc Hp Hne Ha.
    unfold reindex_all, guarded, mbind, R_bind, call, mret, R_ret.
    rewrite Hc, Hp. cbn. destruct chunks as [|c chunks]; [congruence|].
    rewrite Ha. reflexivity.
Qed.

(** X25: [chat_query] runs the pipeline with the threshold 0.7 whatever the
    request holds, makes no call of its own, and reports every failure of
    the pipeline or of the source conversion as a 500 whose detail is
    ["Error processing query: "] followed by the exception's message; a
    failing vector store in particular gives such a 500 after the one
    retrieval call. *)
Theorem chat_route_reports_failures_as_500 {S} (w : World)
    (Source : Pipeline.Source -> outcome S) (request : ChatRequest) :
  snd (chat_query w Source request)
    = snd (Pipeline.query w (request_query request) (use_search request)
             (num_results request) 0.7) /\
  (forall e, fst (chat_query w Source request) = Throw e ->
     exists cause,
       e = HTTPException 500 (of_string "Error processing query: " ++ cause)) /\
  (forall e,
     vector_store_search w (request_query request) (num_results request) = Raise e ->
     chat_query w Source request =
       (Throw (HTTPException 500 (of_string "Error processing query: " ++ e)),
        [VectorSearch (request_query request) (num_results request)])).
Proof.
  unfold chat_query.
  split; [|split].
  - destruct (Pipeline.query w _ _ _ _) as [[response|e] t]; [|reflexivity].
    destruct (convert Source _); reflexivity.
  - intros e. destruct (Pipeline.query w _ _ _ _) as [[response|e'] t].
    + destruct (convert Source _) as [ss|e']; [discriminate|].
      intros [= <-]. eauto.
    + intros [= <-]. eauto.
  - intros e Hvs.
    unfold Pipeline.query, mbind, M_bind, bind, emit, lift. rewrite Hvs.
    reflexivity.
Qed.

End RoutesFacts.
